(** * Frontend pages of the knowledge-base application, and the ingestion
      contract they talk to

    The development embeds the state-handling code of the React pages
    ([ManageSource.jsx], [ChatAsk], [UploadDocument.jsx], [UploadList.jsx],
    [UploadPage], [UploadKnowledge]) as pure state-passing functions over
    records that mirror the [useState] cells of each component.  The
    JavaScript runtime the pages rely on (arrays, [Set], strings, numbers,
    [Array.prototype.sort]) is modelled in [Module JS]. *)

From Stdlib Require Import ZArith QArith Qcanon String Ascii List Lia.
From Stdlib Require Import DecimalString Sorting.Sorted.
From stdpp Require Import base numbers list strings gmap sets.

#[local] Set Warnings "-clear-no-such-hyp".

(* ===================================================================== *)
(** * The JavaScript values and builtins the pages use                    *)
(* ===================================================================== *)

Module JS.

(** Numbers.  A JavaScript number is an IEEE-754 double; the pages only
    compare numbers and test them for truthiness, so a finite number is
    represented by the rational it denotes (both zeros collapse to [Fin 0],
    which [<], [>] and [||] cannot tell apart anyway). *)
Inductive number : Type :=
  | NaN
  | NegInf
  | Fin (q : Qc)
  | PosInf.

(** Scalar values found in a JSON row or produced by the page. *)
Inductive value : Type :=
  | Null
  | Undefined
  | Bool (b : bool)
  | Num (n : number)
  | Str (s : string).

Global Instance number_eq_dec : EqDecision number.
Proof. solve_decision. Defined.

Global Instance value_eq_dec : EqDecision value.
Proof. solve_decision. Defined.

Global Instance number_countable : Countable number.
Proof.
  refine (inj_countable'
    (λ n, match n with
          | NaN => inl ()
          | NegInf => inr (inl ())
          | Fin q => inr (inr (inl q))
          | PosInf => inr (inr (inr ()))
          end)
    (λ s, match s with
          | inl _ => NaN
          | inr (inl _) => NegInf
          | inr (inr (inl q)) => Fin q
          | inr (inr (inr _)) => PosInf
          end) _).
  by intros [].
Defined.

Global Instance value_countable : Countable value.
Proof.
  refine (inj_countable'
    (λ v, match v with
          | Null => inl (inl ())
          | Undefined => inl (inr ())
          | Bool b => inr (inl b)
          | Num n => inr (inr (inl n))
          | Str s => inr (inr (inr s))
          end)
    (λ s, match s with
          | inl (inl _) => Null
          | inl (inr _) => Undefined
          | inr (inl b) => Bool b
          | inr (inr (inl n)) => Num n
          | inr (inr (inr s)) => Str s
          end) _).
  by intros [].
Defined.

Definition ofZ (z : Z) : number := Fin (Q2Qc (inject_Z z)).

(** [a < b] on numbers: false as soon as one side is [NaN]. *)
Definition num_lt (a b : number) : bool :=
  match a, b with
  | NaN, _ | _, NaN => false
  | NegInf, NegInf => false
  | NegInf, _ => true
  | _, NegInf => false
  | PosInf, _ => false
  | Fin _, PosInf => true
  | Fin x, Fin y => bool_decide (x < y)%Qc
  end.

(** Truthiness of a number, and the idiom [x || 0]. *)
Definition num_truthy (n : number) : bool :=
  match n with
  | NaN => false
  | Fin q => negb (bool_decide (q = 0%Qc))
  | NegInf | PosInf => true
  end.

Definition orZero (n : number) : number :=
  if num_truthy n then n else ofZ 0.

(** [Array.prototype.slice(start, end)] with its index normalisation:
    a negative index counts from the end, and both ends are clamped to the
    array. *)
Definition relativeIndex (len i : Z) : Z :=
  if (i <? 0)%Z then Z.max (len + i) 0 else Z.min i len.

Definition slice {A} (l : list A) (start end_ : Z) : list A :=
  let len := Z.of_nat (length l) in
  let k := relativeIndex len start in
  let final := relativeIndex len end_ in
  take (Z.to_nat (final - k)) (drop (Z.to_nat k) l).

(** [Array.prototype.sort(compareFn)].  The language requires the sort to
    be stable and to order by the sign of [compareFn]; it is modelled by a
    stable insertion sort: an element goes in front of the first later
    element it does not compare greater than.  For a comparator that is
    the sign of a consistent order every stable sort returns this very
    list ([JSFacts.sort_unique]). *)
Fixpoint insertBy {A} (compareFn : A → A → Z) (x : A) (l : list A) : list A :=
  match l with
  | [] => [x]
  | y :: l' =>
      if (compareFn x y <=? 0)%Z then x :: l else y :: insertBy compareFn x l'
  end.

Definition sort {A} (compareFn : A → A → Z) (l : list A) : list A :=
  foldr (insertBy compareFn) [] l.

(** With [lt a b] saying that [a] has to come strictly before [b]: no
    element of [l] is followed by one that had to come strictly before
    it. *)
Definition ordered {A} (lt : A → A → bool) (l : list A) : Prop :=
  StronglySorted (λ a b, lt b a = false) l.

(** [a] and [b] compare equal: neither has to come before the other. *)
Definition tied {A} (lt : A → A → bool) (a b : A) : bool :=
  negb (lt a b) && negb (lt b a).

(** Strings.  A JavaScript string is a sequence of 16-bit code units.  It
    is represented by the Rocq string that holds its text in UTF-8, so that
    the literals of the source are the same literals here.  [units] reads
    the code units off that text and [ofUnits] writes code units back as
    text (a surrogate without its partner takes the three bytes of its own
    value).  Only well-formed text stands for a string.  Equality of
    strings is equality of the texts; the builtins that index, count or
    compare code units are defined on [units]. *)

(** The code units of a code point: one below U+10000, a surrogate pair
    from there on. *)
Definition unitsOfCodePoint (cp : N) : list N :=
  if (cp <? 0x10000)%N then [cp]
  else [ (0xD800 + (cp - 0x10000) / 0x400)%N;
         (0xDC00 + (cp - 0x10000) mod 0x400)%N ].

(** [decode s pending more]: the code units of the text [s], read after
    the leading bytes of a code point whose bits so far are [pending] and
    which has [more] bytes to come. *)
Fixpoint decode (s : string) (pending : N) (more : nat) : list N :=
  match s with
  | EmptyString => []
  | String c s' =>
      let b := N_of_ascii c in
      match more with
      | S more' =>
          let cp := (pending * 0x40 + b mod 0x40)%N in
          match more' with
          | O => unitsOfCodePoint cp ++ decode s' 0%N O
          | S _ => decode s' cp more'
          end
      | O =>
          if (b <? 0x80)%N then b :: decode s' 0%N O
          else if (b <? 0xE0)%N then decode s' (b mod 0x20)%N 1
          else if (b <? 0xF0)%N then decode s' (b mod 0x10)%N 2
          else decode s' (b mod 0x08)%N 3
      end
  end.

Definition units (s : string) : list N := decode s 0%N O.

(** The UTF-8 bytes of a code point. *)
Definition ofCodePoint (cp : N) : string :=
  let continuation (n : N) := ascii_of_N (0x80 + n mod 0x40)%N in
  if (cp <? 0x80)%N then
    String (ascii_of_N cp) EmptyString
  else if (cp <? 0x800)%N then
    String (ascii_of_N (0xC0 + cp / 0x40)%N)
      (String (continuation cp) EmptyString)
  else if (cp <? 0x10000)%N then
    String (ascii_of_N (0xE0 + cp / 0x1000)%N)
      (String (continuation (cp / 0x40)%N)
         (String (continuation cp) EmptyString))
  else
    String (ascii_of_N (0xF0 + cp / 0x40000)%N)
      (String (continuation (cp / 0x1000)%N)
         (String (continuation (cp / 0x40)%N)
            (String (continuation cp) EmptyString))).

Definition isHighSurrogate (u : N) : bool :=
  (0xD800 <=? u)%N && (u <=? 0xDBFF)%N.

Definition isLowSurrogate (u : N) : bool :=
  (0xDC00 <=? u)%N && (u <=? 0xDFFF)%N.

Fixpoint ofUnits (l : list N) : string :=
  match l with
  | [] => EmptyString
  | u :: l' =>
      match l' with
      | v :: l'' =>
          if isHighSurrogate u && isLowSurrogate v then
            ofCodePoint (0x10000 + (u - 0xD800) * 0x400 + (v - 0xDC00))%N
            +:+ ofUnits l''
          else ofCodePoint u +:+ ofUnits l'
      | [] => ofCodePoint u
      end
  end.

(** [a < b] on strings: lexicographic on the code units. *)
Fixpoint units_lt (a b : list N) : bool :=
  match a, b with
  | _, [] => false
  | [], _ :: _ => true
  | x :: a', y :: b' => (x <? y)%N || ((x =? y)%N && units_lt a' b')
  end.

Definition str_lt (a b : string) : bool := units_lt (units a) (units b).

(** [s.toLowerCase()] and [s.toUpperCase()] follow the case mappings of
    the Unicode tables the engine carries.  They need not keep the length
    of a string: the lower case of U+0130 (capital I with dot above) is
    [i] followed by U+0307 (combining dot above), two code units for
    one. *)
Class CaseMapping := {
  toLowerCase : string → string;
  toUpperCase : string → string
}.

(** [s.includes(t)] *)
Fixpoint startsWith (s t : list N) : bool :=
  match t, s with
  | [], _ => true
  | _ :: _, [] => false
  | y :: t', x :: s' => (x =? y)%N && startsWith s' t'
  end.

Fixpoint includes_from (s t : list N) : bool :=
  startsWith s t ||
  match s with
  | [] => false
  | _ :: s' => includes_from s' t
  end.

Definition includes (s t : string) : bool := includes_from (units s) (units t).

(** [s.lastIndexOf(c)] for a one-character search string: index of the
    last occurrence, [-1] when there is none. *)
Fixpoint lastIndexOf_from (c : N) (l : list N) (i acc : Z) : Z :=
  match l with
  | [] => acc
  | u :: l' => lastIndexOf_from c l' (i + 1)%Z (if (u =? c)%N then i else acc)
  end.

Definition lastIndexOf (s : string) (c : ascii) : Z :=
  lastIndexOf_from (N_of_ascii c) (units s) 0%Z (-1)%Z.

(** [s.substring(start)]: a negative start is taken as 0, a start past the
    end gives the empty string. *)
Definition substring (s : string) (start : Z) : string :=
  ofUnits (drop (Z.to_nat (Z.max start 0)) (units s)).

(** [s.trim()] removes the white space and the line terminators of the
    language from both ends: TAB, LF, VT, FF, CR, the space, the
    no-break space, the other space separators of Unicode, the line and
    paragraph separators and the byte order mark. *)
Definition isWhiteSpace (u : N) : bool :=
  bool_decide (u ∈ [ 0x0009; 0x000A; 0x000B; 0x000C; 0x000D; 0x0020; 0x00A0;
                     0x1680; 0x2028; 0x2029; 0x202F; 0x205F; 0x3000;
                     0xFEFF ]%N)
  || ((0x2000 <=? u)%N && (u <=? 0x200A)%N).

Fixpoint dropWhiteSpace (l : list N) : list N :=
  match l with
  | [] => []
  | u :: l' => if isWhiteSpace u then dropWhiteSpace l' else l
  end.

Definition trimStart (s : string) : string :=
  ofUnits (dropWhiteSpace (units s)).

Definition trimEnd (s : string) : string :=
  ofUnits (reverse (dropWhiteSpace (reverse (units s)))).

Definition trim (s : string) : string := trimEnd (trimStart s).

(** [String(i)] for an integer [i]. *)
Definition stringOfZ (i : Z) : string :=
  NilZero.string_of_int (Z.to_int i).

Fixpoint repeatChar (n : nat) (c : ascii) : string :=
  match n with
  | O => EmptyString
  | S n' => String c (repeatChar n' c)
  end.

(** [s.padStart(targetLength, c)] for a one-character pad string. *)
Definition padStart (s : string) (targetLength : nat) (c : ascii) : string :=
  repeatChar (targetLength - length (units s)) c +:+ s.

(** [String.fromCharCode(n)] *)
Definition fromCharCode (n : Z) : string :=
  ofUnits [Z.to_N (n mod 0x10000)%Z].

(** [s.substring(0, n)] for [n >= 0]. *)
Definition substringTo (s : string) (n : nat) : string :=
  ofUnits (take n (units s)).

(** A case mapping to evaluate the pages at given inputs.  On the ASCII
    letters and on U+0130 it is the mapping of the Unicode tables; it
    changes no other character. *)
Definition lowerUnit (u : N) : list N :=
  if (0x41 <=? u)%N && (u <=? 0x5A)%N then [(u + 0x20)%N]
  else if (u =? 0x130)%N then [0x69; 0x307]%N
  else [u].

Definition upperUnit (u : N) : list N :=
  if (0x61 <=? u)%N && (u <=? 0x7A)%N then [(u - 0x20)%N] else [u].

Definition sampleCaseMapping : CaseMapping :=
  {| toLowerCase s := ofUnits (concat (lowerUnit <$> units s));
     toUpperCase s := ofUnits (concat (upperUnit <$> units s)) |}.

(** A thrown [Error] object; the pages only ever read its [message]. *)
Record exn := mkError { message : string }.

(** How the evaluation of a statement ends. *)
Inductive completion (A : Type) : Type :=
  | Normal (a : A)
  | Throw (e : exn).
Global Arguments Normal {A} a.
Global Arguments Throw {A} e.

(** Truthiness of a value: what [v || ...] and [if (v)] test. *)
Definition truthy (v : value) : bool :=
  match v with
  | Null | Undefined => false
  | Bool b => b
  | Num n => num_truthy n
  | Str s => negb (String.eqb s "")
  end.

End JS.

(* ===================================================================== *)
(** * ManageSource.jsx: the structured-table browser                      *)
(* ===================================================================== *)

Module ManageSource.
Import JS.

Record column := { key : string; label : string; type : string }.

Record tableConfig := { name : string; columns : list column }.

(** A row of a table: a JSON object, from column name to scalar. *)
Abbreviation row := (gmap string value).

Definition col (k l t : string) : column := {| key := k; label := l; type := t |}.

(** Table configuration for the different data sources, in source order. *)
Definition TABLE_CONFIGS : list (string * tableConfig) :=
  [ ("InspectionData",
      {| name := "Inspection Data";
         columns :=
           [ col "ID" "ID" "number";
             col "Inspection_ID" "Inspection ID" "number";
             col "Machine_Type" "Machine Type" "string";
             col "Model_Code" "Model Code" "string";
             col "Serial_No" "Serial Number" "string";
             col "Inspected_By" "Inspector" "string";
             col "Equipment_Number" "Equipment Number" "string";
             col "SMR" "SMR Hours" "number";
             col "Delivery_Date" "Delivery Date" "date";
             col "Inspection_Date" "Inspection Date" "date";
             col "Branch_Name" "Branch" "string";
             col "Customer_Name" "Customer" "string";
             col "Job_Site" "Job Site" "string";
             col "WorkingHourPerDay" "Working Hours/Day" "number";
             col "UnderfootConditions_Terrain" "Terrain" "string";
             col "UnderfootConditions_Abrasive" "Abrasive Level" "string";
             col "Link_Type" "Link Type" "string";
             col "Link_Spec" "Link Specification" "string";
             col "Bushing_Spec" "Bushing Spec" "string";
             col "Track_Roller_Spec" "Track Roller Spec" "string";
             col "ApplicationCode_Major" "Application Major" "string";
             col "ApplicationCode_Minor" "Application Minor" "string";
             col "Attachments" "Attachments" "string";
             col "Comments" "Comments" "string" ] |});
    ("Machine_Tracking",
      {| name := "Machine Tracking";
         columns :=
           [ col "ID" "ID" "number";
             col "Model" "Model" "string";
             col "Type" "Type" "string";
             col "Serial" "Serial Number" "string";
             col "Delivery_Date_EQP_Care" "Delivery Date" "date";
             col "Machine_Location" "Machine Location" "string";
             col "Latitude" "Latitude" "number";
             col "Longitude" "Longitude" "number";
             col "GPS_Time" "GPS Time" "datetime";
             col "SMR_Hours" "SMR Hours" "number";
             col "Last_Communication_Date" "Last Communication" "datetime" ] |});
    ("UC_Life_Time",
      {| name := "UC Life Time";
         columns :=
           [ col "ID" "ID" "number";
             col "Model" "Model" "string";
             col "General_Sand" "General Sand" "string";
             col "Soil" "Soil" "string";
             col "Marsh" "Marsh" "string";
             col "Coal" "Coal" "string";
             col "Hard_Rock" "Hard Rock" "string";
             col "Brittle_Rock" "Brittle Rock" "string";
             col "Pure_Sand_Middle_East" "Pure Sand Middle East" "string";
             col "Component" "Component" "string" ] |}) ].

(** [Object.keys(obj)] and [obj[k]] on an object literal kept as an
    association list ([None] stands for [undefined]). *)
Definition Object_keys {V} (obj : list (string * V)) : list string := obj.*1.

Fixpoint prop {V} (obj : list (string * V)) (k : string) : option V :=
  match obj with
  | [] => None
  | (k', v) :: obj' => if String.eqb k' k then Some v else prop obj' k
  end.

Inductive direction := asc | desc.

Global Instance direction_eq_dec : EqDecision direction.
Proof. solve_decision. Defined.

(** [sortConfig = { key, direction }]; [sortKey = None] is [key: null]. *)
Record sortConfigT := { sortKey : option string; sortDirection : direction }.

(** What [toast.success] and [toast.error] have shown. *)
Inductive toastMessage :=
  | SuccessToast (text : string)
  | ErrorToast (text : string).

(** The [useState] cells of the component, and the notifications emitted so
    far (oldest first). *)
Record state := {
  selectedTable : string;
  tableData : list row;
  filteredData : list row;
  loading : bool;
  selectedRows : gset value;
  searchTerm : string;
  sortConfig : sortConfigT;
  showDeleteConfirm : bool;
  currentPage : Z;
  rowsPerPage : Z;
  toasts : list toastMessage
}.

Definition initialState : state :=
  {| selectedTable := "InspectionData";
     tableData := [];
     filteredData := [];
     loading := true;
     selectedRows := ∅;
     searchTerm := "";
     sortConfig := {| sortKey := None; sortDirection := asc |};
     showDeleteConfirm := false;
     currentPage := 1;
     rowsPerPage := 25;
     toasts := [] |}.

Definition setSelectedTable (t : string) (st : state) : state :=
  {| selectedTable := t; tableData := tableData st;
     filteredData := filteredData st; loading := loading st;
     selectedRows := selectedRows st; searchTerm := searchTerm st;
     sortConfig := sortConfig st; showDeleteConfirm := showDeleteConfirm st;
     currentPage := currentPage st; rowsPerPage := rowsPerPage st;
     toasts := toasts st |}.

Definition setTableData (d : list row) (st : state) : state :=
  {| selectedTable := selectedTable st; tableData := d;
     filteredData := filteredData st; loading := loading st;
     selectedRows := selectedRows st; searchTerm := searchTerm st;
     sortConfig := sortConfig st; showDeleteConfirm := showDeleteConfirm st;
     currentPage := currentPage st; rowsPerPage := rowsPerPage st;
     toasts := toasts st |}.

Definition setFilteredData (d : list row) (st : state) : state :=
  {| selectedTable := selectedTable st; tableData := tableData st;
     filteredData := d; loading := loading st;
     selectedRows := selectedRows st; searchTerm := searchTerm st;
     sortConfig := sortConfig st; showDeleteConfirm := showDeleteConfirm st;
     currentPage := currentPage st; rowsPerPage := rowsPerPage st;
     toasts := toasts st |}.

Definition setLoading (b : bool) (st : state) : state :=
  {| selectedTable := selectedTable st; tableData := tableData st;
     filteredData := filteredData st; loading := b;
     selectedRows := selectedRows st; searchTerm := searchTerm st;
     sortConfig := sortConfig st; showDeleteConfirm := showDeleteConfirm st;
     currentPage := currentPage st; rowsPerPage := rowsPerPage st;
     toasts := toasts st |}.

Definition setSelectedRows (s : gset value) (st : state) : state :=
  {| selectedTable := selectedTable st; tableData := tableData st;
     filteredData := filteredData st; loading := loading st;
     selectedRows := s; searchTerm := searchTerm st;
     sortConfig := sortConfig st; showDeleteConfirm := showDeleteConfirm st;
     currentPage := currentPage st; rowsPerPage := rowsPerPage st;
     toasts := toasts st |}.

Definition setSearchTerm (t : string) (st : state) : state :=
  {| selectedTable := selectedTable st; tableData := tableData st;
     filteredData := filteredData st; loading := loading st;
     selectedRows := selectedRows st; searchTerm := t;
     sortConfig := sortConfig st; showDeleteConfirm := showDeleteConfirm st;
     currentPage := currentPage st; rowsPerPage := rowsPerPage st;
     toasts := toasts st |}.

Definition setSortConfig (c : sortConfigT) (st : state) : state :=
  {| selectedTable := selectedTable st; tableData := tableData st;
     filteredData := filteredData st; loading := loading st;
     selectedRows := selectedRows st; searchTerm := searchTerm st;
     sortConfig := c; showDeleteConfirm := showDeleteConfirm st;
     currentPage := currentPage st; rowsPerPage := rowsPerPage st;
     toasts := toasts st |}.

Definition setShowDeleteConfirm (b : bool) (st : state) : state :=
  {| selectedTable := selectedTable st; tableData := tableData st;
     filteredData := filteredData st; loading := loading st;
     selectedRows := selectedRows st; searchTerm := searchTerm st;
     sortConfig := sortConfig st; showDeleteConfirm := b;
     currentPage := currentPage st; rowsPerPage := rowsPerPage st;
     toasts := toasts st |}.

Definition setCurrentPage (p : Z) (st : state) : state :=
  {| selectedTable := selectedTable st; tableData := tableData st;
     filteredData := filteredData st; loading := loading st;
     selectedRows := selectedRows st; searchTerm := searchTerm st;
     sortConfig := sortConfig st; showDeleteConfirm := showDeleteConfirm st;
     currentPage := p; rowsPerPage := rowsPerPage st;
     toasts := toasts st |}.

Definition setRowsPerPage (n : Z) (st : state) : state :=
  {| selectedTable := selectedTable st; tableData := tableData st;
     filteredData := filteredData st; loading := loading st;
     selectedRows := selectedRows st; searchTerm := searchTerm st;
     sortConfig := sortConfig st; showDeleteConfirm := showDeleteConfirm st;
     currentPage := currentPage st; rowsPerPage := n;
     toasts := toasts st |}.

Definition pushToast (t : toastMessage) (st : state) : state :=
  {| selectedTable := selectedTable st; tableData := tableData st;
     filteredData := filteredData st; loading := loading st;
     selectedRows := selectedRows st; searchTerm := searchTerm st;
     sortConfig := sortConfig st; showDeleteConfirm := showDeleteConfirm st;
     currentPage := currentPage st; rowsPerPage := rowsPerPage st;
     toasts := toasts st ++ [t] |}.

(** ** Handlers that do not throw *)

Definition handleSort (k : string) (st : state) : state :=
  let direction :=
    if bool_decide (sortKey (sortConfig st) = Some k)
       && bool_decide (sortDirection (sortConfig st) = asc)
    then desc else asc in
  setSortConfig {| sortKey := Some k; sortDirection := direction |} st.

Definition handleSelectRow (id : value) (st : state) : state :=
  let newSelected := selectedRows st in
  let newSelected :=
    if bool_decide (id ∈ newSelected)
    then newSelected ∖ {[ id ]}
    else newSelected ∪ {[ id ]} in
  setSelectedRows newSelected st.

Definition getPaginatedData (st : state) : list row :=
  let startIndex := ((currentPage st - 1) * rowsPerPage st)%Z in
  let endIndex := (startIndex + rowsPerPage st)%Z in
  slice (filteredData st) startIndex endIndex.

(** [Math.ceil(filteredData.length / rowsPerPage)], for a positive page
    size. *)
Definition totalPages (st : state) : Z :=
  (- ((- Z.of_nat (length (filteredData st))) / rowsPerPage st))%Z.

Definition handleTableChange (tableName : string) (st : state) : state :=
  setCurrentPage 1
    (setSortConfig {| sortKey := None; sortDirection := asc |}
       (setSearchTerm "" (setSelectedTable tableName st))).

(** ** Statements that read and write the component state and may throw *)

Definition M (A : Type) : Type := state → completion A * state.

Definition ret {A} (a : A) : M A := λ st, (Normal a, st).

Definition bind {A B} (m : M A) (k : A → M B) : M B :=
  λ st, match m st with
        | (Normal a, st') => k a st'
        | (Throw e, st') => (Throw e, st')
        end.

Definition throw {A} (e : exn) : M A := λ st, (Throw e, st).

Definition get : M state := λ st, (Normal st, st).

Definition modify (f : state → state) : M unit := λ st, (Normal tt, f st).

(** [try { body } catch (e) { handler }] *)
Definition try_catch {A} (body : M A) (handler : exn → M A) : M A :=
  λ st, match body st with
        | (Normal a, st') => (Normal a, st')
        | (Throw e, st') => handler e st'
        end.

(** [try { body } finally { cleanup }] *)
Definition try_finally {A} (body : M A) (cleanup : M unit) : M A :=
  λ st, match body st with
        | (r, st') =>
            match cleanup st' with
            | (Normal _, st'') => (r, st'')
            | (Throw e, st'') => (Throw e, st'')
            end
        end.

(** A statement leaves the selected table alone. *)
Definition keepsTable {A} (m : M A) : Prop :=
  ∀ st r st', m st = (r, st') → selectedTable st' = selectedTable st.

Notation "'do' x <- m ; k" := (bind m (λ x, k))
  (at level 10, x name, m at level 100, k at level 200,
   format "'[v' 'do'  x  <-  m ; '/' k ']'").
Notation "m ;; k" := (bind m (λ _, k))
  (at level 100, k at level 200, right associativity).

Section Runtime.

(** Builtins whose result is engine- or locale-defined. *)
Context {caseMapping : CaseMapping}.         (* toLowerCase, toUpperCase *)
Variable numberToString : number → string.   (* Number.prototype.toString *)
Variable parseFloat : value → number.
Variable dateGetTime : value → number.       (* new Date(v).getTime() *)
Variable typeErrorMessage : string → string. (* message of the TypeError
                                                raised at an expression *)

(** The [toast] object exported by [hooks/use-toast.js] has the methods
    [success], [error], [loading], [dismiss] and [promise]; it has no
    [info], so calling [toast.info] raises a TypeError once its argument
    has been evaluated. *)
Definition toast_success (text : string) : M unit :=
  modify (pushToast (SuccessToast text)).

Definition toast_error (text : string) : M unit :=
  modify (pushToast (ErrorToast text)).

Definition toast_info (text : string) : M unit :=
  throw (mkError (typeErrorMessage "toast.info")).

(** [TABLE_CONFIGS[tableName].f]: a TypeError when the table is not
    configured. *)
Definition configProp {A} (tableName : string) (f : tableConfig → A) : M A :=
  match prop TABLE_CONFIGS tableName with
  | Some c => ret (f c)
  | None => throw (mkError (typeErrorMessage "TABLE_CONFIGS[tableName]"))
  end.

(** ** generateSampleData *)

Definition sampleSize : Z := 1000.

Definition oneOf (k : string) (ks : list string) : bool := bool_decide (k ∈ ks).

(** Column keys whose [case] draws on [Math.random()] or [Date.now()]. *)
Definition randomKeys : list string :=
  [ "Machine_Type"; "Model_Code"; "Model"; "Serial_No"; "Serial_Number";
    "Inspected_By"; "Branch_Name"; "Customer_Name";
    "UnderfootConditions_Terrain"; "UnderfootConditions_Abrasive";
    "Type"; "Serial"; "Delivery_Date_EQP_Care"; "Machine_Location";
    "Latitude"; "Longitude"; "GPS_Time"; "Last_Communication_Date";
    "General_Sand"; "Soil"; "Marsh"; "Coal"; "Hard_Rock"; "Brittle_Rock";
    "Pure_Sand_Middle_East"; "Component";
    "SMR"; "SMR_Hours"; "Current_Hours"; "WorkingHourPerDay";
    "Expected_Life_Hours"; "Remaining_Life_Hours";
    "Delivery_Date"; "Installation_Date"; "Inspection_Date";
    "Last_Maintenance_Date"; "Last_Updated" ].

(** The [switch (column.key)] of the generator.  [random k i] is the value
    the [case] for key [k] computes in iteration [i] when it depends on
    [Math.random()] or the clock. *)
Definition sampleValue (random : string → Z → value)
    (tableName k : string) (i : Z) : value :=
  if oneOf k ["ID"] then Num (ofZ i)
  else if oneOf k ["Inspection_ID"] then Num (ofZ (119550 + i))
  else if oneOf k ["Machine_ID"; "Component_ID"] then
    Str (toUpperCase (substringTo tableName 3) +:+ padStart (stringOfZ i) 4 "0")
  else if oneOf k ["Equipment_Number"] then
    Str ("EX-" +:+ padStart (stringOfZ i) 4 "0")
  else if oneOf k ["Job_Site"] then
    Str ("Job Site " +:+ fromCharCode (65 + Z.rem i 26))
  else if oneOf k randomKeys then random k i
  else Str ("Sample " +:+ stringOfZ i).

Definition sampleRow (random : string → Z → value)
    (tableName : string) (cols : list column) (i : Z) : row :=
  foldl (λ row column,
           <[ key column := sampleValue random tableName (key column) i ]> row)
        ∅ cols.

(** The loop [for (let i = ...; i <= sampleSize; i++) { ...; data.push(row) }]
    from the value [i] of its counter and the rows [data] pushed so far;
    [fuel] bounds the number of iterations. *)
Fixpoint pushRows (mkRow : Z → row) (fuel : nat) (i : Z) (data : list row)
    : list row :=
  match fuel with
  | O => data
  | S fuel' =>
      if (i <=? sampleSize)%Z
      then pushRows mkRow fuel' (i + 1)%Z (data ++ [mkRow i])
      else data
  end.

(** Each iteration reads [TABLE_CONFIGS[tableName].columns], so an
    unconfigured table throws in the first one.  The loop is given one
    unit of fuel more than it has iterations, so it ends on its own
    condition. *)
Definition generateSampleData (random : string → Z → value)
    (tableName : string) : M (list row) :=
  do cols <- configProp tableName columns;
  ret (pushRows (sampleRow random tableName cols)
         (S (Z.to_nat sampleSize)) 1 []).

(** ** loadTableData *)

(** The body of the POST request to [/database/query]. *)
Record request := {
  url : string;
  method : string;
  query : string;
  system_type : string
}.

(** The JSON answer of the endpoint, as far as the page reads it. *)
Record apiResult := { success : bool; data : option (list row) }.

(** What the [fetch] turns out to be. *)
Inductive fetchOutcome :=
  | FetchRejected (apiError : exn)               (* network failure *)
  | Response (ok : bool) (json : exn + apiResult). (* inl: body is not JSON *)

Definition loadTableData_request (st : state) : request :=
  {| url := "/database/query";
     method := "POST";
     query := "SELECT TOP 1000 * FROM " +:+ selectedTable st;
     system_type := "UMS" |}.

(** The inner [try] block; the result says whether [return] was reached.
    [fetch] is the network and the endpoint behind it. *)
Definition fetchRealData (fetch : request → fetchOutcome) : M bool :=
  do st <- get;
  match fetch (loadTableData_request st) with
  | FetchRejected apiError => throw apiError
  | Response false _ => ret false
  | Response true (inl e) => throw e
  | Response true (inr result) =>
      match data result with
      | Some records =>
          if success result && (0 <? length records)%nat then
            modify (setTableData records) ;;
            do tableName <- configProp (selectedTable st) name;
            toast_success
              ("✅ REAL DATA: Loaded "
               +:+ stringOfZ (Z.of_nat (length records))
               +:+ " records from " +:+ tableName) ;;
            ret true
          else ret false
      | None => ret false
      end
  end.

Definition loadTableData (fetch : request → fetchOutcome)
    (random : string → Z → value) : M unit :=
  try_finally
    (try_catch
       (modify (setLoading true) ;;
        modify (setSelectedRows ∅) ;;
        do returned <- try_catch (fetchRealData fetch) (λ apiError, ret false);
        if returned : bool then ret tt
        else
          do st <- get;
          do sampleData <- generateSampleData random (selectedTable st);
          modify (setTableData sampleData) ;;
          do tableName <- configProp (selectedTable st) name;
          toast_info
            ("⚠️ SAMPLE DATA: Showing "
             +:+ stringOfZ (Z.of_nat (length sampleData))
             +:+ " fake records for " +:+ tableName))
       (λ error,
          do st <- get;
          do tableName <- configProp (selectedTable st) name;
          toast_error
            ("Failed to load " +:+ tableName +:+ " data: " +:+ message error) ;;
          modify (setTableData [])))
    (modify (setLoading false)).

(** ** filterAndSortData *)

(** [row[k]] *)
Definition cell (r : row) (k : string) : value := default Undefined (r !! k).

(** [v.toString()] for a value that is neither [null] nor [undefined]
    (the callers replace or skip those first). *)
Definition toString (v : value) : string :=
  match v with
  | Str s => s
  | Bool true => "true"
  | Bool false => "false"
  | Num n => numberToString n
  | Null | Undefined => ""
  end.

(** The callback of [columns.some] in the search filter. *)
Definition matchesSearch (cols : list column) (term : string) (r : row) : bool :=
  existsb
    (λ c, match cell r (key c) with
          | Null | Undefined => false
          | v => includes (toLowerCase (toString v)) (toLowerCase term)
          end)
    cols.

(** The two [if]s that end the comparator. *)
Definition sign (dir : direction) (lt gt : bool) : Z :=
  if lt then (if dir is asc then -1 else 1)%Z
  else if gt then (if dir is asc then 1 else -1)%Z
  else 0%Z.

Definition nullToEmpty (v : value) : value :=
  match v with
  | Null | Undefined => Str ""
  | _ => v
  end.

(** [columnConfig?.type] *)
Definition columnType (cols : list column) (k : string) : option string :=
  type <$> List.find (λ c, String.eqb (key c) k) cols.

Definition isNumberType (t : option string) : bool :=
  bool_decide (t = Some "number").

Definition isDateType (t : option string) : bool :=
  bool_decide (t = Some "date") || bool_decide (t = Some "datetime").

(** The comparator handed to [sort]. *)
Definition compareRows (cols : list column) (k : string) (dir : direction)
    (a b : row) : Z :=
  let aValue := nullToEmpty (cell a k) in
  let bValue := nullToEmpty (cell b k) in
  let t := columnType cols k in
  if isNumberType t then
    let aValue := orZero (parseFloat aValue) in
    let bValue := orZero (parseFloat bValue) in
    sign dir (num_lt aValue bValue) (num_lt bValue aValue)
  else if isDateType t then
    let aValue := orZero (dateGetTime aValue) in
    let bValue := orZero (dateGetTime bValue) in
    sign dir (num_lt aValue bValue) (num_lt bValue aValue)
  else
    let aValue := toLowerCase (toString aValue) in
    let bValue := toLowerCase (toString bValue) in
    sign dir (str_lt aValue bValue) (str_lt bValue aValue).

(** The order the comparator stands for.  The key of a row under column
    [k]: [null] and [undefined] count as the empty string; in a number
    column the key is [parseFloat] of the cell, in a date column its
    timestamp (0 where that is [NaN]), and otherwise its lower-cased text. *)
Inductive sortingKey :=
  | NumberKey (n : number)
  | TextKey (s : string).

Definition rowKey (cols : list column) (k : string) (r : row) : sortingKey :=
  let v := nullToEmpty (cell r k) in
  let t := columnType cols k in
  if isNumberType t then NumberKey (orZero (parseFloat v))
  else if isDateType t then NumberKey (orZero (dateGetTime v))
  else TextKey (toLowerCase (toString v)).

Definition key_lt (x y : sortingKey) : bool :=
  match x, y with
  | NumberKey a, NumberKey b => num_lt a b
  | TextKey a, TextKey b => str_lt a b
  | _, _ => false
  end.

(** Row [a] has a smaller key than row [b]. *)
Definition keyLess (cols : list column) (k : string) (a b : row) : bool :=
  key_lt (rowKey cols k a) (rowKey cols k b).

(** Row [a] has to come strictly before row [b] in the given direction. *)
Definition before (dir : direction) (cols : list column) (k : string)
    (a b : row) : bool :=
  match dir with
  | asc => keyLess cols k a b
  | desc => keyLess cols k b a
  end.

(** The keys of the two rows compare equal. *)
Definition sameKey (cols : list column) (k : string) (a b : row) : bool :=
  negb (keyLess cols k a b) && negb (keyLess cols k b a).

(** The rows that pass the search filter. *)
Definition searchResult (cols : list column) (st : state) : list row :=
  if bool_decide (searchTerm st ≠ "")
  then List.filter (matchesSearch cols (searchTerm st)) (tableData st)
  else tableData st.

(** The callbacks read [TABLE_CONFIGS[selectedTable].columns]: the filter
    callback runs once there is a row, the comparator once there are two. *)
Definition filterAndSortData : M unit :=
  do st <- get;
  let filtered := tableData st in
  do filtered <-
    (if bool_decide (searchTerm st ≠ "") then
       match filtered with
       | [] => ret []
       | _ :: _ =>
           do cols <- configProp (selectedTable st) columns;
           ret (List.filter (matchesSearch cols (searchTerm st)) filtered)
       end
     else ret filtered);
  do filtered <-
    (match sortKey (sortConfig st) with
     | Some k =>
         if bool_decide (k ≠ "") then
           if (length filtered <? 2)%nat then ret filtered
           else
             do cols <- configProp (selectedTable st) columns;
             ret (sort (compareRows cols k (sortDirection (sortConfig st)))
                       filtered)
         else ret filtered
     | None => ret filtered
     end);
  modify (setFilteredData filtered).

(** ** Selection of a whole page, and the delete dialog *)

(** [getRowId i r] is what the page's [getRowId] returns for the [i]-th
    row [r] of the page ([row.ID], else the first column, else a fresh
    [Math.random()]). *)
Definition handleSelectAll (getRowId : nat → row → value) (st : state) : state :=
  let currentPageData := getPaginatedData st in
  let currentPageIds := imap getRowId currentPageData in
  if (size (selectedRows st) =? length currentPageIds)%nat
     && forallb (λ id, bool_decide (id ∈ selectedRows st)) currentPageIds
  then setSelectedRows
         (foldl (λ s id, s ∖ {[ id ]}) (selectedRows st) currentPageIds) st
  else setSelectedRows
         (foldl (λ s id, s ∪ {[ id ]}) (selectedRows st) currentPageIds) st.

Definition handleDeleteSelected : M unit :=
  do st <- get;
  if (size (selectedRows st) =? 0)%nat then toast_error "No rows selected"
  else
    try_finally
      (try_catch
         (toast_info "Delete functionality for database tables will be implemented based on business requirements" ;;
          modify (setShowDeleteConfirm false) ;;
          modify (setSelectedRows ∅))
         (λ error, toast_error "Delete Failed"))
      (modify (setShowDeleteConfirm false)).

(** ** What the user and the effects can do to the state

    One constructor per event handler wired in the JSX and per [useEffect].
    The table selector renders one button per key of [TABLE_CONFIGS], and
    these buttons are the only callers of [handleTableChange]. *)
Inductive step : state → state → Prop :=
  | step_loadTableData fetch random st r st' :
      loadTableData fetch random st = (r, st') → step st st'
  | step_filterAndSortData st r st' :
      filterAndSortData st = (r, st') → step st st'
  | step_setSearchTerm term st :
      step st (setSearchTerm term st)
  | step_handleTableChange tableName st :
      tableName ∈ Object_keys TABLE_CONFIGS →
      step st (handleTableChange tableName st)
  | step_handleSort k st :
      step st (handleSort k st)
  | step_handleSelectRow id st :
      step st (handleSelectRow id st)
  | step_handleSelectAll getRowId st :
      step st (handleSelectAll getRowId st)
  | step_handleDeleteSelected st r st' :
      handleDeleteSelected st = (r, st') → step st st'
  | step_setShowDeleteConfirm b st :
      step st (setShowDeleteConfirm b st)
  | step_setCurrentPage p st :
      step st (setCurrentPage p st)
  | step_setRowsPerPage n st :
      step st (setCurrentPage 1 (setRowsPerPage n st)).

Definition reachable (st : state) : Prop := rtc step initialState st.

(** The records of an answer that the page takes as real data: the
    response is [ok], its body is JSON with a truthy [success] and a
    non-empty [data] array.  Every other outcome counts as a failed
    query. *)
Definition acceptedRecords (outcome : fetchOutcome) : option (list row) :=
  match outcome with
  | Response true (inr result) =>
      match data result with
      | Some records =>
          if success result && (0 <? length records)%nat
          then Some records else None
      | None => None
      end
  | _ => None
  end.

(** ** getRowId *)

(** [row.ID || row[TABLE_CONFIGS[selectedTable].columns[0].key] || Math.random()];
    [random] is the draw of [Math.random()].  The table configuration is
    only read when [row.ID] is falsy. *)
Definition getRowId (random : number) (r : row) : M value :=
  if truthy (cell r "ID") then ret (cell r "ID")
  else
    do st <- get;
    do cols <- configProp (selectedTable st) columns;
    match cols with
    | [] => throw (mkError (typeErrorMessage "columns[0]"))
    | first :: _ =>
        if truthy (cell r (key first)) then ret (cell r (key first))
        else ret (Num random)
    end.

End Runtime.

(** ** The numbered page buttons

    [[...Array(Math.min(5, totalPages))].map((_, i) => ...)]: button [i]
    shows [Math.max(1, Math.min(currentPage - 2 + i, totalPages - 4 + i))]
    and is left out when that number exceeds [totalPages].  The pagination
    bar is rendered when [totalPages > 1]. *)
Definition pageNum (st : state) (i : Z) : Z :=
  Z.max 1 (Z.min (currentPage st - 2 + i) (totalPages st - 4 + i)).

Definition pageButtons (st : state) : list Z :=
  omap (λ i, if (pageNum st i <=? totalPages st)%Z
             then Some (pageNum st i) else None)
       (seqZ 0 (Z.min 5 (totalPages st))).

End ManageSource.

(* ===================================================================== *)
(** * ChatAsk.jsx: the conversation page                                  *)
(* ===================================================================== *)

Module ChatAsk.
Import JS.

(** [response.context_summary], as far as the page reads it. *)
Record contextSummary := {
  machine_records : value;
  uc_records : value;
  pdf_sources : value
}.

(** A message object [{ role, content, contextInfo }]; [contextInfo] is
    [None] where the property is absent or [undefined]. *)
Record message := {
  role : string;
  content : string;
  contextInfo : option contextSummary
}.

(** The [useState] cells of the component. *)
Record state := {
  messages : list message;
  currentInput : string;
  isLoading : bool;
  error : option string;
  useRAG : bool;
  shownContextInfo : option contextSummary   (* the cell [contextInfo] *)
}.

Definition initialState : state :=
  {| messages := []; currentInput := ""; isLoading := false; error := None;
     useRAG := true; shownContextInfo := None |}.

Definition setMessages (m : list message) (st : state) : state :=
  {| messages := m; currentInput := currentInput st;
     isLoading := isLoading st; error := error st; useRAG := useRAG st;
     shownContextInfo := shownContextInfo st |}.

Definition setCurrentInput (s : string) (st : state) : state :=
  {| messages := messages st; currentInput := s;
     isLoading := isLoading st; error := error st; useRAG := useRAG st;
     shownContextInfo := shownContextInfo st |}.

Definition setIsLoading (b : bool) (st : state) : state :=
  {| messages := messages st; currentInput := currentInput st;
     isLoading := b; error := error st; useRAG := useRAG st;
     shownContextInfo := shownContextInfo st |}.

Definition setError (e : option string) (st : state) : state :=
  {| messages := messages st; currentInput := currentInput st;
     isLoading := isLoading st; error := e; useRAG := useRAG st;
     shownContextInfo := shownContextInfo st |}.

Definition setUseRAG (b : bool) (st : state) : state :=
  {| messages := messages st; currentInput := currentInput st;
     isLoading := isLoading st; error := error st; useRAG := b;
     shownContextInfo := shownContextInfo st |}.

Definition setContextInfo (c : option contextSummary) (st : state) : state :=
  {| messages := messages st; currentInput := currentInput st;
     isLoading := isLoading st; error := error st; useRAG := useRAG st;
     shownContextInfo := c |}.

(** The JSON answer of [generateReply] / [generateRAGReply]. *)
Record apiResponse := {
  response : string;
  context_summary : option contextSummary
}.

(** How the awaited promise settles. *)
Inductive replyOutcome :=
  | Resolved (r : apiResponse)
  | Rejected (err : exn).

(** What [handleSubmit] keeps in its closure across the [await]. *)
Record pendingCall := {
  updatedMessages : list message;
  viaRAG : bool
}.

(** [handleSubmit] up to the [await]: [None] when the validation returns
    early, otherwise the call in flight and the state it leaves. *)
Definition handleSubmit_send (st : state) : option (pendingCall * state) :=
  if bool_decide (trim (currentInput st) = "") || isLoading st then None
  else
    let userMessage :=
      {| role := "user"; content := trim (currentInput st);
         contextInfo := None |} in
    let updatedMessages := messages st ++ [userMessage] in
    Some ({| updatedMessages := updatedMessages; viaRAG := useRAG st |},
          setError None
            (setIsLoading true
               (setCurrentInput "" (setMessages updatedMessages st)))).

(** [handleSubmit] from the [await] on: the [try] continuation or the
    [catch], and then the [finally]. *)
Definition handleSubmit_settle (call : pendingCall) (outcome : replyOutcome)
    (st : state) : state :=
  let st :=
    match outcome with
    | Resolved r =>
        let st :=
          match context_summary r with
          | Some c => setContextInfo (Some c) st
          | None => st
          end in
        let botMessage :=
          {| role := "assistant"; content := response r;
             contextInfo := context_summary r |} in
        setMessages (updatedMessages call ++ [botMessage]) st
    | Rejected err =>
        let st := setError (Some "Failed to get response. Please try again.") st in
        let errorMessage :=
          {| role := "assistant";
             content := "Sorry, I encountered an error. Please try asking your question again.";
             contextInfo := None |} in
        setMessages (updatedMessages call ++ [errorMessage]) st
    end in
  setIsLoading false st.

(** A whole run of [handleSubmit], the two API functions given as the
    outcome they produce for a message list. *)
Definition handleSubmit (generateRAGReply generateReply : list message → replyOutcome)
    (st : state) : state :=
  match handleSubmit_send st with
  | None => st
  | Some (call, st') =>
      let outcome :=
        if viaRAG call then generateRAGReply (updatedMessages call)
        else generateReply (updatedMessages call) in
      handleSubmit_settle call outcome st'
  end.

Definition handleInputChange (v : string) (st : state) : state :=
  setCurrentInput v st.

Definition clearHistory (st : state) : state :=
  setError None (setMessages [] st).

(** A conversation: the user types a question and submits it, and the
    reply arrives, one question after the other. *)
Definition ask (api : list message → replyOutcome) (st : state)
    (question : string) : state :=
  handleSubmit api api (handleInputChange question st).

Definition converse (api : list message → replyOutcome)
    (questions : list string) : state :=
  foldl (ask api) initialState questions.

(** The page together with the calls in flight. *)
Record session := {
  page : state;
  inFlight : list pendingCall
}.

Definition initialSession : session :=
  {| page := initialState; inFlight := [] |}.

(** The operations on the chat state.  The "Clear History" button is
    rendered [disabled] while [isLoading], so its handler only runs when
    nothing is loading. *)
Inductive operation :=
  | Submit
  | Settle (i : nat) (outcome : replyOutcome)
  | InputChange (v : string)
  | ToggleRAG (b : bool)
  | ClearHistory.

Inductive step : session → operation → session → Prop :=
  | step_submit_ignored s :
      handleSubmit_send (page s) = None →
      step s Submit s
  | step_submit_sent s call st' :
      handleSubmit_send (page s) = Some (call, st') →
      step s Submit {| page := st'; inFlight := inFlight s ++ [call] |}
  | step_settle s i call outcome :
      inFlight s !! i = Some call →
      step s (Settle i outcome)
        {| page := handleSubmit_settle call outcome (page s);
           inFlight := delete i (inFlight s) |}
  | step_input s v :
      step s (InputChange v)
        {| page := handleInputChange v (page s); inFlight := inFlight s |}
  | step_toggle s b :
      step s (ToggleRAG b)
        {| page := setUseRAG b (page s); inFlight := inFlight s |}
  | step_clear s :
      isLoading (page s) = false →
      step s ClearHistory
        {| page := clearHistory (page s); inFlight := inFlight s |}.

Inductive reachable : session → Prop :=
  | reachable_init : reachable initialSession
  | reachable_step s op s' : reachable s → step s op s' → reachable s'.

(** The message made of a submitted question. *)
Definition userMessage (question : string) : message :=
  {| role := "user"; content := trim question; contextInfo := None |}.

(** While a request is loading, exactly one call is in flight and its
    closure holds the messages on display; otherwise none is. *)
Definition consistent (s : session) : Prop :=
  (isLoading (page s) = false ∧ inFlight s = [])
  ∨ (isLoading (page s) = true
     ∧ ∃ call, inFlight s = [call]
               ∧ updatedMessages call = messages (page s)).

(** The session after the question "hi" was asked and the request
    failed. *)
Definition afterFailedQuestion : session :=
  {| page := ask (λ _, Rejected (mkError "offline")) initialState "hi";
     inFlight := [] |}.

End ChatAsk.

(* ===================================================================== *)
(** * UploadDocument.jsx: choosing the file to upload                     *)
(* ===================================================================== *)

Module UploadDocument.
Import JS.

(** The properties of a [File] the page reads. *)
Record file := { name : string; type : string; size : Z }.

Inductive toastMessage :=
  | SuccessToast (text : string)
  | ErrorToast (text : string).

Record state := {
  selectedFile : option file;
  isUploading : bool;
  uploadProgress : Z;
  isDragOver : bool;
  toasts : list toastMessage
}.

Definition setSelectedFile (f : option file) (st : state) : state :=
  {| selectedFile := f; isUploading := isUploading st;
     uploadProgress := uploadProgress st; isDragOver := isDragOver st;
     toasts := toasts st |}.

Definition pushToast (t : toastMessage) (st : state) : state :=
  {| selectedFile := selectedFile st; isUploading := isUploading st;
     uploadProgress := uploadProgress st; isDragOver := isDragOver st;
     toasts := toasts st ++ [t] |}.

Definition allowedTypes : list string := ["application/pdf"; "text/plain"].
Definition allowedExtensions : list string := [".pdf"; ".txt"].
Definition maxFileSize : Z := 50 * 1024 * 1024.

Section Runtime.

(** The case mapping of the engine. *)
Context {caseMapping : CaseMapping}.

(** [file.name.toLowerCase().substring(file.name.lastIndexOf('.'))] *)
Definition fileExtension (f : file) : string :=
  substring (toLowerCase (name f)) (lastIndexOf (name f) ".").

(** The extension of a lower-cased file name, in words: the lower-cased
    name from its last dot on (all of it when it has no dot). *)
Definition lowercasedExtension (n : string) : string :=
  let lowered := toLowerCase n in
  substring lowered (lastIndexOf lowered ".").

Definition processFile (f : file) (st : state) : state :=
  if negb (bool_decide (type f ∈ allowedTypes))
     && negb (bool_decide (fileExtension f ∈ allowedExtensions))
  then pushToast (ErrorToast "Invalid file type. Only PDF and TXT files are allowed.") st
  else if (maxFileSize <? size f)%Z
  then pushToast (ErrorToast "File size too large. Maximum file size is 50MB.") st
  else pushToast (SuccessToast "File selected successfully!")
         (setSelectedFile (Some f) st).

(** ** The other handlers of the page *)

Definition initialState : state :=
  {| selectedFile := None; isUploading := false; uploadProgress := 0;
     isDragOver := false; toasts := [] |}.

Definition setIsUploading (b : bool) (st : state) : state :=
  {| selectedFile := selectedFile st; isUploading := b;
     uploadProgress := uploadProgress st; isDragOver := isDragOver st;
     toasts := toasts st |}.

Definition setUploadProgress (p : Z) (st : state) : state :=
  {| selectedFile := selectedFile st; isUploading := isUploading st;
     uploadProgress := p; isDragOver := isDragOver st;
     toasts := toasts st |}.

Definition setIsDragOver (b : bool) (st : state) : state :=
  {| selectedFile := selectedFile st; isUploading := isUploading st;
     uploadProgress := uploadProgress st; isDragOver := b;
     toasts := toasts st |}.

(** [files] is [event.target.files], respectively
    [Array.from(e.dataTransfer.files)]. *)
Definition handleFileSelect (files : list file) (st : state) : state :=
  match files with
  | f :: _ => processFile f st
  | [] => st
  end.

Definition handleDragEnter (st : state) : state := setIsDragOver true st.

Definition handleDragLeave (st : state) : state := setIsDragOver false st.

Definition handleDragOver (st : state) : state := st.

Definition handleDrop (files : list file) (st : state) : state :=
  let st := setIsDragOver false st in
  match files with
  | f :: _ => processFile f st     (* only the first file is taken *)
  | [] => st
  end.

Definition removeFile (st : state) : state := setSelectedFile None st.

(** How the promise of [uploadFile] settles. *)
Inductive uploadOutcome :=
  | Uploaded
  | UploadFailed (error : exn).

(** [handleUpload] up to the [await]: the file handed to [uploadFile]
    ([None] when the guard returns early) and the state left. *)
Definition handleUpload_send (st : state) : option file * state :=
  match selectedFile st with
  | None => (None, pushToast (ErrorToast "Please select a file first.") st)
  | Some f => (Some f, setUploadProgress 0 (setIsUploading true st))
  end.

(** [handleUpload] from the [await] on. *)
Definition handleUpload_settle (outcome : uploadOutcome) (st : state) : state :=
  let st :=
    match outcome with
    | Uploaded =>
        setUploadProgress 0
          (setSelectedFile None (pushToast (SuccessToast "Upload Successful") st))
    | UploadFailed error =>
        setUploadProgress 0 (pushToast (ErrorToast "Upload Failed") st)
    end in
  setIsUploading false st.

(** A file that passes the two checks of [processFile]. *)
Definition accepted (f : file) : Prop :=
  (type f ∈ allowedTypes ∨ fileExtension f ∈ allowedExtensions)
  ∧ (size f ≤ maxFileSize)%Z.

(** The page together with the file of the upload in flight. *)
Record session := {
  page : state;
  inFlight : option file
}.

Definition initialSession : session :=
  {| page := initialState; inFlight := None |}.

(** What can happen to the page.  The remove button is rendered while a
    file is selected; the upload button is [disabled] unless a file is
    selected and nothing is uploading; the progress callback and the
    settling of the promise belong to the upload in flight. *)
Inductive operation :=
  | SelectFiles (files : list file)
  | DragEnter
  | DragLeave
  | DragOver
  | Drop (files : list file)
  | RemoveFile
  | Upload
  | Progress (progress : Z)
  | Settle (outcome : uploadOutcome).

Inductive step : session → operation → session → Prop :=
  | step_select files s :
      step s (SelectFiles files)
        {| page := handleFileSelect files (page s); inFlight := inFlight s |}
  | step_dragEnter s :
      step s DragEnter
        {| page := handleDragEnter (page s); inFlight := inFlight s |}
  | step_dragLeave s :
      step s DragLeave
        {| page := handleDragLeave (page s); inFlight := inFlight s |}
  | step_dragOver s :
      step s DragOver
        {| page := handleDragOver (page s); inFlight := inFlight s |}
  | step_drop files s :
      step s (Drop files)
        {| page := handleDrop files (page s); inFlight := inFlight s |}
  | step_remove s :
      selectedFile (page s) ≠ None →
      step s RemoveFile
        {| page := removeFile (page s); inFlight := inFlight s |}
  | step_upload s :
      selectedFile (page s) ≠ None → isUploading (page s) = false →
      step s Upload
        {| page := (handleUpload_send (page s)).2;
           inFlight := (handleUpload_send (page s)).1 |}
  | step_progress progress s f :
      inFlight s = Some f →
      step s (Progress progress)
        {| page := setUploadProgress progress (page s);
           inFlight := inFlight s |}
  | step_settle outcome s f :
      inFlight s = Some f →
      step s (Settle outcome)
        {| page := handleUpload_settle outcome (page s); inFlight := None |}.

Inductive reachable : session → Prop :=
  | reachable_init : reachable initialSession
  | reachable_step s op s' : reachable s → step s op s' → reachable s'.

End Runtime.

End UploadDocument.

(* ===================================================================== *)
(** * The ingestion contract (backend side)                               *)
(* ===================================================================== *)

Module Ingestion.

Section Pipeline.

(** Modelled from the spec: the ContentHasher, TextExtractor, Chunker and
    EmbeddingClient of the backend, which the frontend sources do not
    contain.  They are the collaborators of the pipeline and stay
    abstract. *)
Context {digest vector : Type} `{EqDecision digest}.
Variable hash : list Byte.byte → digest.

Inductive extraction :=
  | Segments (segments : list string)
  | ExtractUnsupportedFormat
  | ExtractCorruptInput.

Variable extract : list Byte.byte → string → extraction.
Variable chunk : list string → list string.
(** [None]: the provider stayed unavailable after the retries. *)
Variable embed : list string → option (list vector).
Variable locate : digest → string.

(** Modelled from the spec: section 3, the Document, Chunk and VectorEntry
    records; a Document is identified by its content hash. *)
Record Document := {
  contentHash : digest;
  displayName : string;
  location : string;
  byteSize : nat;
  ingestedAt : Z;
  segmentCount : nat
}.

Record Chunk := {
  owner : digest;
  sequenceIndex : nat;
  text : string
}.

Record VectorEntry := {
  chunkOwner : digest;
  chunkIndex : nat;
  embedding : vector
}.

(** Modelled from the spec: the two shared stores, MetadataStore (documents
    and the chunk-to-document mapping) and VectorIndex. *)
Record store := {
  documents : list Document;
  chunks : list Chunk;
  vectorIndex : list VectorEntry
}.

Definition emptyStore : store :=
  {| documents := []; chunks := []; vectorIndex := [] |}.

(** Modelled from the spec: section 6,
    [ingest -> Document | DuplicateContent | UnsupportedFormat | CorruptInput],
    with [ProviderUnavailable] of section 7 for an embedding failure.
    [DuplicateContent] carries the identity of the existing Document. *)
Inductive ingestResult :=
  | Ingested (d : Document)
  | DuplicateContent (existing : digest)
  | UnsupportedFormat
  | CorruptInput
  | ProviderUnavailable.

(** Modelled from the spec: the MetadataStore lookup keyed by content
    hash. *)
Definition findByHash (h : digest) (s : store) : option Document :=
  List.find (λ d, bool_decide (contentHash d = h)) (documents s).

Definition zipEntries (h : digest) (vs : list vector) : list VectorEntry :=
  imap (λ i v, {| chunkOwner := h; chunkIndex := i; embedding := v |}) vs.

Definition zipChunks (h : digest) (ts : list string) : list Chunk :=
  imap (λ i t, {| owner := h; sequenceIndex := i; text := t |}) ts.

(** Modelled from the spec: section 4.1, [IngestionPipeline.ingest]:
    compute the digest; if a Document with this digest exists fail with
    [DuplicateContent]; otherwise extract, chunk and embed, and only when
    all of that succeeded persist the Document, its chunks and their
    vectors (no side effect on any failure). *)
Definition ingest (bytes : list Byte.byte) (name : string) (now : Z)
    (s : store) : ingestResult * store :=
  let h := hash bytes in
  match findByHash h s with
  | Some existing => (DuplicateContent (contentHash existing), s)
  | None =>
      match extract bytes name with
      | ExtractUnsupportedFormat => (UnsupportedFormat, s)
      | ExtractCorruptInput => (CorruptInput, s)
      | Segments segments =>
          let texts := chunk segments in
          match embed texts with
          | None => (ProviderUnavailable, s)
          | Some vectors =>
              let d := {| contentHash := h; displayName := name;
                          location := locate h;
                          byteSize := length bytes; ingestedAt := now;
                          segmentCount := length segments |} in
              (Ingested d,
               {| documents := documents s ++ [d];
                  chunks := chunks s ++ zipChunks h texts;
                  vectorIndex := vectorIndex s ++ zipEntries h vectors |})
          end
      end
  end.

(** Modelled from the spec: section 6, [deleteDocument -> Success | NotFound],
    which removes the Document, its Chunks and its VectorEntries together. *)
Definition deleteDocument (h : digest) (s : store) : bool * store :=
  match findByHash h s with
  | None => (false, s)
  | Some _ =>
      (true,
       {| documents :=
            List.filter (λ d, negb (bool_decide (contentHash d = h))) (documents s);
          chunks :=
            List.filter (λ c, negb (bool_decide (owner c = h))) (chunks s);
          vectorIndex :=
            List.filter (λ e, negb (bool_decide (chunkOwner e = h))) (vectorIndex s) |})
  end.

(** The operations exposed to callers that change the stores. *)
Inductive step : store → store → Prop :=
  | step_ingest bytes name now s :
      step s (ingest bytes name now s).2
  | step_delete h s :
      step s (deleteDocument h s).2.

Definition reachable (s : store) : Prop := rtc step emptyStore s.

(** The first call left or found a Document. *)
Definition stored (r : ingestResult) : Prop :=
  match r with
  | Ingested _ | DuplicateContent _ => True
  | _ => False
  end.

(** What may happen between two uploads of the same content while the
    Document with digest [h] stays: any upload, and the deletion of any
    other Document. *)
Inductive stepKeeping (h : digest) : store → store → Prop :=
  | keeping_ingest bytes name now s :
      stepKeeping h s (ingest bytes name now s).2
  | keeping_delete h' s :
      h' ≠ h → stepKeeping h s (deleteDocument h' s).2.

End Pipeline.

End Ingestion.

(* ===================================================================== *)
(** * UploadList.jsx: the gallery of uploaded images                      *)
(* ===================================================================== *)

Module UploadList.
Import JS.

(** An entry of [response.files]: the stored file name, its size in bytes
    and its modification time in seconds (a finite number). *)
Record fileInfo := { filename : string; size : Z; modified : Qc }.

(** An entry of [uploads-metadata.json], as far as the page reads it;
    [objects = None] stands for a missing or falsy [objects]. *)
Record detectedObject := { label : string }.

Record upload := {
  stored_filename : string;
  objects : option (list detectedObject)
}.

Record dateRange := { fromDate : string; toDate : string }.

Inductive order := asc | desc.

Inductive toastMessage :=
  | SuccessToast (text : string)
  | ErrorToast (text : string).

(** A [Set] of strings keeps its elements in insertion order:
    [Array.from(set)] lists them that way. *)
Abbreviation JSSet := (list string).

Definition Set_has (s : JSSet) (x : string) : bool := bool_decide (x ∈ s).

Definition Set_add (s : JSSet) (x : string) : JSSet :=
  if Set_has s x then s else s ++ [x].

Definition Set_delete (s : JSSet) (x : string) : JSSet :=
  List.filter (λ y, negb (String.eqb y x)) s.

(** [new Set(iterable)] *)
Definition Set_of (l : list string) : JSSet := foldl Set_add [] l.

(** The [useState] cells the list, its filters, its pagination and the
    delete dialog work on (the cells of the detection pop-up and of the
    three fold-out panels are read by none of them), and the notifications
    shown so far. *)
Record state := {
  files : list fileInfo;
  selectedFiles : JSSet;
  isLoading : bool;
  isDeleting : bool;
  showDeleteConfirm : bool;
  currentPage : Z;
  itemsPerPage : Z;
  dateFilter : dateRange;
  objectFilter : string;
  sortBy : string;
  sortOrder : order;
  uploadsMetadata : gmap string upload;
  isLoadingMetadata : bool;
  toasts : list toastMessage
}.

Definition initialState : state :=
  {| files := [];
     selectedFiles := [];
     isLoading := true;
     isDeleting := false;
     showDeleteConfirm := false;
     currentPage := 1;
     itemsPerPage := 10;
     dateFilter := {| fromDate := ""; toDate := "" |};
     objectFilter := "";
     sortBy := "date";
     sortOrder := desc;
     uploadsMetadata := ∅;
     isLoadingMetadata := true;
     toasts := [] |}.

Definition setFiles (v : list fileInfo) (st : state) : state :=
  {| files := v; selectedFiles := selectedFiles st;
     isLoading := isLoading st; isDeleting := isDeleting st;
     showDeleteConfirm := showDeleteConfirm st;
     currentPage := currentPage st; itemsPerPage := itemsPerPage st;
     dateFilter := dateFilter st; objectFilter := objectFilter st;
     sortBy := sortBy st; sortOrder := sortOrder st;
     uploadsMetadata := uploadsMetadata st;
     isLoadingMetadata := isLoadingMetadata st; toasts := toasts st |}.

Definition setSelectedFiles (v : JSSet) (st : state) : state :=
  {| files := files st; selectedFiles := v; isLoading := isLoading st;
     isDeleting := isDeleting st; showDeleteConfirm := showDeleteConfirm st;
     currentPage := currentPage st; itemsPerPage := itemsPerPage st;
     dateFilter := dateFilter st; objectFilter := objectFilter st;
     sortBy := sortBy st; sortOrder := sortOrder st;
     uploadsMetadata := uploadsMetadata st;
     isLoadingMetadata := isLoadingMetadata st; toasts := toasts st |}.

Definition setIsLoading (v : bool) (st : state) : state :=
  {| files := files st; selectedFiles := selectedFiles st; isLoading := v;
     isDeleting := isDeleting st; showDeleteConfirm := showDeleteConfirm st;
     currentPage := currentPage st; itemsPerPage := itemsPerPage st;
     dateFilter := dateFilter st; objectFilter := objectFilter st;
     sortBy := sortBy st; sortOrder := sortOrder st;
     uploadsMetadata := uploadsMetadata st;
     isLoadingMetadata := isLoadingMetadata st; toasts := toasts st |}.

Definition setIsDeleting (v : bool) (st : state) : state :=
  {| files := files st; selectedFiles := selectedFiles st;
     isLoading := isLoading st; isDeleting := v;
     showDeleteConfirm := showDeleteConfirm st;
     currentPage := currentPage st; itemsPerPage := itemsPerPage st;
     dateFilter := dateFilter st; objectFilter := objectFilter st;
     sortBy := sortBy st; sortOrder := sortOrder st;
     uploadsMetadata := uploadsMetadata st;
     isLoadingMetadata := isLoadingMetadata st; toasts := toasts st |}.

Definition setShowDeleteConfirm (v : bool) (st : state) : state :=
  {| files := files st; selectedFiles := selectedFiles st;
     isLoading := isLoading st; isDeleting := isDeleting st;
     showDeleteConfirm := v; currentPage := currentPage st;
     itemsPerPage := itemsPerPage st; dateFilter := dateFilter st;
     objectFilter := objectFilter st; sortBy := sortBy st;
     sortOrder := sortOrder st; uploadsMetadata := uploadsMetadata st;
     isLoadingMetadata := isLoadingMetadata st; toasts := toasts st |}.

Definition setCurrentPage (v : Z) (st : state) : state :=
  {| files := files st; selectedFiles := selectedFiles st;
     isLoading := isLoading st; isDeleting := isDeleting st;
     showDeleteConfirm := showDeleteConfirm st; currentPage := v;
     itemsPerPage := itemsPerPage st; dateFilter := dateFilter st;
     objectFilter := objectFilter st; sortBy := sortBy st;
     sortOrder := sortOrder st; uploadsMetadata := uploadsMetadata st;
     isLoadingMetadata := isLoadingMetadata st; toasts := toasts st |}.

Definition setItemsPerPage (v : Z) (st : state) : state :=
  {| files := files st; selectedFiles := selectedFiles st;
     isLoading := isLoading st; isDeleting := isDeleting st;
     showDeleteConfirm := showDeleteConfirm st;
     currentPage := currentPage st; itemsPerPage := v;
     dateFilter := dateFilter st; objectFilter := objectFilter st;
     sortBy := sortBy st; sortOrder := sortOrder st;
     uploadsMetadata := uploadsMetadata st;
     isLoadingMetadata := isLoadingMetadata st; toasts := toasts st |}.

Definition setDateFilter (v : dateRange) (st : state) : state :=
  {| files := files st; selectedFiles := selectedFiles st;
     isLoading := isLoading st; isDeleting := isDeleting st;
     showDeleteConfirm := showDeleteConfirm st;
     currentPage := currentPage st; itemsPerPage := itemsPerPage st;
     dateFilter := v; objectFilter := objectFilter st; sortBy := sortBy st;
     sortOrder := sortOrder st; uploadsMetadata := uploadsMetadata st;
     isLoadingMetadata := isLoadingMetadata st; toasts := toasts st |}.

Definition setObjectFilter (v : string) (st : state) : state :=
  {| files := files st; selectedFiles := selectedFiles st;
     isLoading := isLoading st; isDeleting := isDeleting st;
     showDeleteConfirm := showDeleteConfirm st;
     currentPage := currentPage st; itemsPerPage := itemsPerPage st;
     dateFilter := dateFilter st; objectFilter := v; sortBy := sortBy st;
     sortOrder := sortOrder st; uploadsMetadata := uploadsMetadata st;
     isLoadingMetadata := isLoadingMetadata st; toasts := toasts st |}.

Definition setSortBy (v : string) (st : state) : state :=
  {| files := files st; selectedFiles := selectedFiles st;
     isLoading := isLoading st; isDeleting := isDeleting st;
     showDeleteConfirm := showDeleteConfirm st;
     currentPage := currentPage st; itemsPerPage := itemsPerPage st;
     dateFilter := dateFilter st; objectFilter := objectFilter st;
     sortBy := v; sortOrder := sortOrder st;
     uploadsMetadata := uploadsMetadata st;
     isLoadingMetadata := isLoadingMetadata st; toasts := toasts st |}.

Definition setSortOrder (v : order) (st : state) : state :=
  {| files := files st; selectedFiles := selectedFiles st;
     isLoading := isLoading st; isDeleting := isDeleting st;
     showDeleteConfirm := showDeleteConfirm st;
     currentPage := currentPage st; itemsPerPage := itemsPerPage st;
     dateFilter := dateFilter st; objectFilter := objectFilter st;
     sortBy := sortBy st; sortOrder := v;
     uploadsMetadata := uploadsMetadata st;
     isLoadingMetadata := isLoadingMetadata st; toasts := toasts st |}.

Definition setUploadsMetadata (v : gmap string upload) (st : state) : state :=
  {| files := files st; selectedFiles := selectedFiles st;
     isLoading := isLoading st; isDeleting := isDeleting st;
     showDeleteConfirm := showDeleteConfirm st;
     currentPage := currentPage st; itemsPerPage := itemsPerPage st;
     dateFilter := dateFilter st; objectFilter := objectFilter st;
     sortBy := sortBy st; sortOrder := sortOrder st; uploadsMetadata := v;
     isLoadingMetadata := isLoadingMetadata st; toasts := toasts st |}.

Definition setIsLoadingMetadata (v : bool) (st : state) : state :=
  {| files := files st; selectedFiles := selectedFiles st;
     isLoading := isLoading st; isDeleting := isDeleting st;
     showDeleteConfirm := showDeleteConfirm st;
     currentPage := currentPage st; itemsPerPage := itemsPerPage st;
     dateFilter := dateFilter st; objectFilter := objectFilter st;
     sortBy := sortBy st; sortOrder := sortOrder st;
     uploadsMetadata := uploadsMetadata st; isLoadingMetadata := v;
     toasts := toasts st |}.

Definition pushToast (t : toastMessage) (st : state) : state :=
  {| files := files st; selectedFiles := selectedFiles st;
     isLoading := isLoading st; isDeleting := isDeleting st;
     showDeleteConfirm := showDeleteConfirm st;
     currentPage := currentPage st; itemsPerPage := itemsPerPage st;
     dateFilter := dateFilter st; objectFilter := objectFilter st;
     sortBy := sortBy st; sortOrder := sortOrder st;
     uploadsMetadata := uploadsMetadata st;
     isLoadingMetadata := isLoadingMetadata st;
     toasts := toasts st ++ [t] |}.

(** ** Handlers that only move state *)

Definition handleFileSelect (name : string) (isSelected : bool) (st : state)
    : state :=
  let newSelected := selectedFiles st in
  let newSelected :=
    if isSelected then Set_add newSelected name
    else Set_delete newSelected name in
  setSelectedFiles newSelected st.

Definition handleDeleteSelected (st : state) : state :=
  if (length (selectedFiles st) =? 0)%nat
  then pushToast (ErrorToast "No files selected") st
  else setShowDeleteConfirm true st.

Definition cancelDelete (st : state) : state := setShowDeleteConfirm false st.

Definition handlePageChange (page : Z) (st : state) : state :=
  setSelectedFiles [] (setCurrentPage page st).

Definition handleItemsPerPageChange (newItemsPerPage : Z) (st : state) : state :=
  setSelectedFiles [] (setCurrentPage 1 (setItemsPerPage newItemsPerPage st)).

(** [setDateFilter(prev => ({ ...prev, [field]: value }))]; a [field] other
    than the two the page reads adds a property nobody looks at. *)
Definition handleDateFilterChange (field value : string) (st : state) : state :=
  let prev := dateFilter st in
  let next :=
    if String.eqb field "fromDate"
    then {| fromDate := value; toDate := toDate prev |}
    else if String.eqb field "toDate"
    then {| fromDate := fromDate prev; toDate := value |}
    else prev in
  setSelectedFiles [] (setCurrentPage 1 (setDateFilter next st)).

Definition clearDateFilter (st : state) : state :=
  setSelectedFiles []
    (setCurrentPage 1 (setDateFilter {| fromDate := ""; toDate := "" |} st)).

Definition handleObjectFilterChange (value : string) (st : state) : state :=
  setSelectedFiles [] (setCurrentPage 1 (setObjectFilter value st)).

Definition clearObjectFilter (st : state) : state :=
  setSelectedFiles [] (setCurrentPage 1 (setObjectFilter "" st)).

Definition handleSortChange (newSortBy : string) (st : state) : state :=
  let st' :=
    if String.eqb (sortBy st) newSortBy
    then setSortOrder (if sortOrder st is asc then desc else asc) st
    else setSortOrder (if String.eqb newSortBy "filename" then asc else desc)
           (setSortBy newSortBy st) in
  setSelectedFiles [] (setCurrentPage 1 st').

(** ** loadFiles, loadMetadata, confirmDelete *)

(** What [getUploadedFiles()] and [deleteFiles(names)] turn out to be.
    [FilesResolved None] is an answer without a (truthy) [files]. *)
Inductive filesOutcome :=
  | FilesRejected (error : exn)
  | FilesResolved (response_files : option (list fileInfo)).

Inductive deleteOutcome :=
  | DeleteRejected (error : exn)
  | DeleteResolved (total_deleted : Z).

(** The answer to the request for [uploads-metadata.json]: a network
    failure, or a response whose body is not JSON ([inl]) or is JSON with
    or without [uploads]. *)
Inductive metadataOutcome :=
  | MetadataRejected (error : exn)
  | MetadataResponse (ok : bool) (json : exn + option (list upload)).

Definition loadFiles (getUploadedFiles : filesOutcome) (st : state) : state :=
  let st := setIsLoading true st in
  let st :=
    match getUploadedFiles with
    | FilesResolved response_files => setFiles (default [] response_files) st
    | FilesRejected error =>
        setFiles [] (pushToast (ErrorToast "Failed to load uploaded files") st)
    end in
  setIsLoading false st.

(** [metadataMap[upload.stored_filename] = upload] for each upload in
    turn. *)
Definition metadataMap (uploads : list upload) : gmap string upload :=
  foldl (λ m upload, <[ stored_filename upload := upload ]> m) ∅ uploads.

Definition loadMetadata (fetch : metadataOutcome) (st : state) : state :=
  let st := setIsLoadingMetadata true st in
  let st :=
    match fetch with
    | MetadataResponse true (inr uploads) =>
        setUploadsMetadata (metadataMap (default [] uploads)) st
    | _ => st
    end in
  setIsLoadingMetadata false st.

(** One run of [confirmDelete], no other event coming in between. *)
Definition confirmDelete (deleteFiles : list string → deleteOutcome)
    (getUploadedFiles : filesOutcome) (st : state) : state :=
  let filesToDelete := selectedFiles st in
  let st := setShowDeleteConfirm false (setIsDeleting true st) in
  let st :=
    match deleteFiles filesToDelete with
    | DeleteResolved total_deleted =>
        if (0 <? total_deleted)%Z then
          loadFiles getUploadedFiles
            (setSelectedFiles []
               (pushToast
                  (SuccessToast
                     ("Delete success: " +:+ stringOfZ total_deleted +:+ " file"
                      +:+ (if (total_deleted =? 1)%Z then "" else "s")
                      +:+ " deleted"))
                  st))
        else pushToast (ErrorToast "No files were deleted") st
    | DeleteRejected error => pushToast (ErrorToast "Failed to delete files") st
    end in
  setIsDeleting false st.

(** ** The files shown *)

Section Runtime.

(** Builtins whose result is engine- or locale-defined: the time value of
    [new Date(seconds * 1000)]; the time value of [new Date(text)] moved to
    the first, respectively the last, millisecond of its day ([NaN] for a
    text that is no date); [String.prototype.localeCompare]; and the case
    mapping. *)
Context {caseMapping : CaseMapping}.
Variable dateValue : Qc → number.
Variable startOfDay endOfDay : string → number.
Variable localeCompare : string → string → Z.

(** The callback of [files.filter]. *)
Definition keepsFile (st : state) (file : fileInfo) : bool :=
  let fromText := fromDate (dateFilter st) in
  let toText := toDate (dateFilter st) in
  if (negb (String.eqb fromText "") || negb (String.eqb toText ""))
     && ((negb (String.eqb fromText "")
          && num_lt (dateValue (modified file)) (startOfDay fromText))
         || (negb (String.eqb toText "")
             && num_lt (endOfDay toText) (dateValue (modified file))))
  then false
  else if negb (String.eqb (trim (objectFilter st)) "") then
    match uploadsMetadata st !! filename file with
    | Some metadata =>
        match objects metadata with
        | Some objs =>
            existsb
              (λ obj, includes (toLowerCase (label obj))
                        (trim (toLowerCase (objectFilter st))))
              objs
        | None => false
        end
    | None => false
    end
  else true.

(** The sign of a finite number, which is all [sort] reads of what the
    comparator returns. *)
Definition signOf (q : Qc) : Z :=
  match (q ?= 0)%Qc with
  | Lt => (-1)%Z
  | Eq => 0%Z
  | Gt => 1%Z
  end.

Definition comparison (by_ : string) (a b : fileInfo) : Qc :=
  if String.eqb by_ "date" then (modified a - modified b)%Qc
  else if String.eqb by_ "size" then Q2Qc (inject_Z (size a - size b))
  else if String.eqb by_ "filename" then
    Q2Qc (inject_Z (localeCompare (toLowerCase (filename a))
                      (toLowerCase (filename b))))
  else 0%Qc.

(** The comparator handed to [sort]. *)
Definition compareFiles (by_ : string) (ord : order) (a b : fileInfo) : Z :=
  signOf (if ord is asc then comparison by_ a b else (- comparison by_ a b)%Qc).

Definition filteredFiles (st : state) : list fileInfo :=
  sort (compareFiles (sortBy st) (sortOrder st))
       (List.filter (keepsFile st) (files st)).

(** [Math.ceil(filteredFiles.length / itemsPerPage)], for a positive page
    size. *)
Definition totalPages (st : state) : Z :=
  (- ((- Z.of_nat (length (filteredFiles st))) / itemsPerPage st))%Z.

Definition currentFiles (st : state) : list fileInfo :=
  let startIndex := ((currentPage st - 1) * itemsPerPage st)%Z in
  let endIndex := (startIndex + itemsPerPage st)%Z in
  slice (filteredFiles st) startIndex endIndex.

Definition handleSelectAll (checked : bool) (st : state) : state :=
  if checked
  then setSelectedFiles (Set_of (filename <$> currentFiles st)) st
  else setSelectedFiles [] st.

(** The [checked] attribute of the select-all box. *)
Definition selectAllChecked (st : state) : bool :=
  (length (selectedFiles st) =? length (currentFiles st))%nat
  && (0 <? length (currentFiles st))%nat.

(** The page numbers on the buttons of the pagination bar, which is
    rendered when [totalPages > 1]:
    [Array.from({ length: Math.min(totalPages, 5) }, (_, i) => ...)]. *)
Definition pageNum (st : state) (i : Z) : Z :=
  if (totalPages st <=? 5)%Z then (i + 1)%Z
  else if (currentPage st <=? 3)%Z then (i + 1)%Z
  else if (totalPages st - 2 <=? currentPage st)%Z then (totalPages st - 4 + i)%Z
  else (currentPage st - 2 + i)%Z.

Definition pageNumbers (st : state) : list Z :=
  pageNum st <$> seqZ 0 (Z.min (totalPages st) 5).

End Runtime.

End UploadList.

(* ===================================================================== *)
(** * UploadPage: selecting and uploading images                          *)
(* ===================================================================== *)

Module UploadPage.
Import JS.

(** The properties of a [File] the page reads. *)
Record file := { name : string; type : string; size : Z }.

Inductive toastMessage :=
  | SuccessToast (text : string)
  | ErrorToast (text : string).

Record state := {
  selectedFiles : list file;
  isUploading : bool;
  isDragOver : bool;
  dragCounter : Z;
  toasts : list toastMessage
}.

Definition initialState : state :=
  {| selectedFiles := []; isUploading := false; isDragOver := false;
     dragCounter := 0; toasts := [] |}.

Definition setSelectedFiles (l : list file) (st : state) : state :=
  {| selectedFiles := l; isUploading := isUploading st;
     isDragOver := isDragOver st; dragCounter := dragCounter st;
     toasts := toasts st |}.

Definition setIsUploading (b : bool) (st : state) : state :=
  {| selectedFiles := selectedFiles st; isUploading := b;
     isDragOver := isDragOver st; dragCounter := dragCounter st;
     toasts := toasts st |}.

Definition setIsDragOver (b : bool) (st : state) : state :=
  {| selectedFiles := selectedFiles st; isUploading := isUploading st;
     isDragOver := b; dragCounter := dragCounter st;
     toasts := toasts st |}.

Definition setDragCounter (n : Z) (st : state) : state :=
  {| selectedFiles := selectedFiles st; isUploading := isUploading st;
     isDragOver := isDragOver st; dragCounter := n;
     toasts := toasts st |}.

Definition pushToast (t : toastMessage) (st : state) : state :=
  {| selectedFiles := selectedFiles st; isUploading := isUploading st;
     isDragOver := isDragOver st; dragCounter := dragCounter st;
     toasts := toasts st ++ [t] |}.

(** ** processFiles *)

Definition allowedTypes : list string :=
  ["image/jpeg"; "image/jpg"; "image/png"; "image/gif"].

Definition maxFileSize : Z := 10 * 1024 * 1024.

(** [Array.prototype.join] on strings. *)
Fixpoint join (separator : string) (l : list string) : string :=
  match l with
  | [] => ""
  | [x] => x
  | x :: l' => x +:+ separator +:+ join separator l'
  end.

(** The three arrays the [forEach] fills. *)
Record sorting := {
  validFiles : list file;
  invalidFiles : list string;
  tooLargeFiles : list string
}.

Section Runtime.

(** The case mapping of the engine. *)
Context {caseMapping : CaseMapping}.

(** The callback of [files.forEach]. *)
Definition sortFile (acc : sorting) (f : file) : sorting :=
  if negb (bool_decide (toLowerCase (type f) ∈ allowedTypes)) then
    {| validFiles := validFiles acc;
       invalidFiles := invalidFiles acc ++ [name f];
       tooLargeFiles := tooLargeFiles acc |}
  else if (maxFileSize <? size f)%Z then
    {| validFiles := validFiles acc;
       invalidFiles := invalidFiles acc;
       tooLargeFiles := tooLargeFiles acc ++ [name f] |}
  else
    {| validFiles := validFiles acc ++ [f];
       invalidFiles := invalidFiles acc;
       tooLargeFiles := tooLargeFiles acc |}.

Definition processFiles (files : list file) (st : state) : state :=
  let sorted :=
    foldl sortFile
      {| validFiles := []; invalidFiles := []; tooLargeFiles := [] |} files in
  let st :=
    if (0 <? length (invalidFiles sorted))%nat then
      pushToast
        (ErrorToast ("Invalid file types: " +:+ join ", " (invalidFiles sorted)
                     +:+ ". Only JPG, PNG, and GIF formats are allowed.")) st
    else st in
  let st :=
    if (0 <? length (tooLargeFiles sorted))%nat then
      pushToast
        (ErrorToast ("Files too large: " +:+ join ", " (tooLargeFiles sorted)
                     +:+ ". Maximum file size is 10MB.")) st
    else st in
  if (0 <? length (validFiles sorted))%nat
  then setSelectedFiles (selectedFiles st ++ validFiles sorted) st
  else st.

(** A file that [processFiles] takes. *)
Definition valid (f : file) : bool :=
  bool_decide (toLowerCase (type f) ∈ allowedTypes)
  && negb (maxFileSize <? size f)%Z.

Definition handleFileSelect (files : list file) (st : state) : state :=
  processFiles files st.

(** ** Dragging *)

Definition handleDragOver (st : state) : state := setIsDragOver true st.

Definition handleDragEnter (st : state) : state :=
  setIsDragOver true (setDragCounter (dragCounter st + 1) st).

Definition handleDragLeave (st : state) : state :=
  let newCount := (dragCounter st - 1)%Z in
  let st := if (newCount =? 0)%Z then setIsDragOver false st else st in
  setDragCounter newCount st.

Definition handleDrop (files : list file) (st : state) : state :=
  let st := setDragCounter 0 (setIsDragOver false st) in
  if (length files =? 0)%nat
  then pushToast (ErrorToast "No files were dropped. Please try again.") st
  else processFiles files st.

(** The drag events of the drop zone. *)
Inductive dragEvent := DragEnter | DragOver | DragLeave | Drop (files : list file).

Definition handleDragEvent (st : state) (e : dragEvent) : state :=
  match e with
  | DragEnter => handleDragEnter st
  | DragOver => handleDragOver st
  | DragLeave => handleDragLeave st
  | Drop files => handleDrop files st
  end.

(** A sequence of drag events as a browser delivers it to one element:
    [depth] counts the elements entered and not yet left; nothing is left,
    hovered over or dropped on without having been entered, and a drop
    ends the drag. *)
Fixpoint nested (depth : nat) (events : list dragEvent) : bool :=
  match events with
  | [] => true
  | DragEnter :: events' => nested (S depth) events'
  | DragOver :: events' => (0 <? depth)%nat && nested depth events'
  | DragLeave :: events' =>
      match depth with
      | O => false
      | S depth' => nested depth' events'
      end
  | Drop _ :: events' => (0 <? depth)%nat && nested 0 events'
  end.

(** ** removeFile *)

(** [array.filter((element, index) => keep index element)] *)
Definition filterWithIndex {A} (keep : nat → A → bool) (l : list A) : list A :=
  omap id (imap (λ index x, if keep index x then Some x else None) l).

Definition removeFile (indexToRemove : nat) (st : state) : state :=
  setSelectedFiles
    (filterWithIndex (λ index _, negb (index =? indexToRemove)%nat)
       (selectedFiles st))
    st.

(** The "Clear all" button. *)
Definition clearAll (st : state) : state := setSelectedFiles [] st.

(** ** handleUpload *)

(** An entry of [result.files]. *)
Record uploadedFile := { saved_filename : string }.

(** The object thrown by [uploadImages], as far as the [catch] reads it:
    [error.response] with its [status] and a truthy
    [error.response.data?.detail]; whether [error.request] is truthy; and
    [error.code]. *)
Record errorResponse := { status : Z; detail : option string }.

Record uploadError := {
  response : option errorResponse;
  request : bool;
  code : option string
}.

Inductive uploadOutcome :=
  | UploadRejected (error : uploadError)
  | UploadResolved (result_files : option (list uploadedFile)).

Section Detection.

(** A detected box, opaque to the page. *)
Context {box : Type}.

Inductive detectionOutcome :=
  | DetectionsRejected (error : exn)
  | DetectionsResolved (boxes : option (list box)).

(** The calls the detection loop makes. *)
Inductive apiCall :=
  | GetDetections (saved_filename : string)
  | UpdateObjectsMetadata (saved_filename : string) (boxes : list box).

(** The loop [for (const fileInfo of result.files)]: each iteration is
    wrapped in its own [try]/[catch], which only logs. *)
Fixpoint detectObjects (getDetections : string → detectionOutcome)
    (updateObjectsMetadata : string → list box → option exn)
    (files : list uploadedFile) : list apiCall :=
  match files with
  | [] => []
  | fileInfo :: files' =>
      (match getDetections (saved_filename fileInfo) with
       | DetectionsResolved (Some boxes) =>
           match updateObjectsMetadata (saved_filename fileInfo) boxes with
           | None | Some _ =>
               [GetDetections (saved_filename fileInfo);
                UpdateObjectsMetadata (saved_filename fileInfo) boxes]
           end
       | DetectionsResolved None | DetectionsRejected _ =>
           [GetDetections (saved_filename fileInfo)]
       end)
      ++ detectObjects getDetections updateObjectsMetadata files'
  end.

(** The message the [catch] of [handleUpload] picks. *)
Definition errorMessage (error : uploadError) : string :=
  match response error with
  | Some r =>
      if (status r =? 413)%Z then
        "Files are too large. Please reduce file sizes and try again."
      else if (status r =? 400)%Z then
        "Invalid file format or corrupted files detected."
      else if (status r =? 500)%Z then
        "Server error occurred. Please try again later."
      else
        match detail r with
        | Some d => d
        | None => "Upload failed. Please try again."
        end
  | None =>
      if request error then
        "Network error. Please check your connection and try again."
      else if bool_decide (code error = Some "ECONNABORTED") then
        "Upload timeout. Please try with smaller files or check your connection."
      else "Upload failed. Please try again."
  end.

(** One run of [handleUpload], no other event coming in between: the state
    it leaves and the detection calls it has made. *)
Definition handleUpload (uploadImages : list file → uploadOutcome)
    (getDetections : string → detectionOutcome)
    (updateObjectsMetadata : string → list box → option exn)
    (st : state) : state * list apiCall :=
  if (length (selectedFiles st) =? 0)%nat || isUploading st then (st, [])
  else
    let st := setIsUploading true st in
    let '(st, calls) :=
      match uploadImages (selectedFiles st) with
      | UploadResolved result_files =>
          let '(st, calls) :=
            match result_files with
            | Some (fileInfo :: files') =>
                let n := Z.of_nat (length (fileInfo :: files')) in
                (pushToast
                   (SuccessToast
                      ("Upload complete! " +:+ stringOfZ n +:+ " image"
                       +:+ (if (n =? 1)%Z then "" else "s")
                       +:+ " uploaded successfully.")) st,
                 detectObjects getDetections updateObjectsMetadata
                   (fileInfo :: files'))
            | Some [] | None => (st, [])
            end in
          (setSelectedFiles [] st, calls)
      | UploadRejected error => (pushToast (ErrorToast (errorMessage error)) st, [])
      end in
    (setIsUploading false st, calls).

(** ** What the user can do to the page

    The buttons that select, remove and clear files and the upload button
    are [disabled] while [isUploading]; the drop zone is not. *)
Inductive step : state → state → Prop :=
  | step_handleFileSelect files st :
      isUploading st = false → step st (handleFileSelect files st)
  | step_dragEvent e st :
      step st (handleDragEvent st e)
  | step_removeFile i st :
      isUploading st = false → step st (removeFile i st)
  | step_clearAll st :
      isUploading st = false → step st (clearAll st)
  | step_handleUpload uploadImages getDetections updateObjectsMetadata st :
      step st (handleUpload uploadImages getDetections updateObjectsMetadata st).1.

Definition reachable (st : state) : Prop := rtc step initialState st.

End Detection.

End Runtime.

End UploadPage.

(* ===================================================================== *)
(** * UploadKnowledge: uploading a spreadsheet of machine data            *)
(* ===================================================================== *)

Module UploadKnowledge.
Import JS.

(** The properties of a [File] the page reads. *)
Record file := { name : string; type : string; size : Z }.

Inductive toastMessage :=
  | SuccessToast (text : string)
  | ErrorToast (text : string).

(** The [useState] cells the upload works on (the drop-down and the
    connection test have cells of their own), and the notifications shown
    so far. *)
Record state := {
  selectedFile : option file;
  selectedSystem : string;
  isUploading : bool;
  uploadProgress : Z;
  isDragOver : bool;
  toasts : list toastMessage
}.

Definition initialState : state :=
  {| selectedFile := None; selectedSystem := ""; isUploading := false;
     uploadProgress := 0; isDragOver := false; toasts := [] |}.

Definition setSelectedFile (f : option file) (st : state) : state :=
  {| selectedFile := f; selectedSystem := selectedSystem st;
     isUploading := isUploading st; uploadProgress := uploadProgress st;
     isDragOver := isDragOver st; toasts := toasts st |}.

Definition setSelectedSystem (s : string) (st : state) : state :=
  {| selectedFile := selectedFile st; selectedSystem := s;
     isUploading := isUploading st; uploadProgress := uploadProgress st;
     isDragOver := isDragOver st; toasts := toasts st |}.

Definition setIsUploading (b : bool) (st : state) : state :=
  {| selectedFile := selectedFile st; selectedSystem := selectedSystem st;
     isUploading := b; uploadProgress := uploadProgress st;
     isDragOver := isDragOver st; toasts := toasts st |}.

Definition setUploadProgress (p : Z) (st : state) : state :=
  {| selectedFile := selectedFile st; selectedSystem := selectedSystem st;
     isUploading := isUploading st; uploadProgress := p;
     isDragOver := isDragOver st; toasts := toasts st |}.

Definition pushToast (t : toastMessage) (st : state) : state :=
  {| selectedFile := selectedFile st; selectedSystem := selectedSystem st;
     isUploading := isUploading st; uploadProgress := uploadProgress st;
     isDragOver := isDragOver st; toasts := toasts st ++ [t] |}.

(** ** The answer of the backend *)

(** The JSON body of an answer, as far as the page reads it: a truthy
    [detail] (error answers), [success], a truthy [message], and the text
    the template literal makes of [records_processed] and
    [database_table]. *)
Record body := {
  detail : option string;
  success : bool;
  message : option string;
  records_processed : string;
  database_table : string
}.

(** What the [fetch] of [/api/upload-knowledge] turns out to be: a
    network failure, or a response with its [ok], [status], [statusText],
    [content-type] header and body ([inl]: the body is not JSON). *)
Inductive fetchOutcome :=
  | FetchRejected (error : exn)
  | Response (ok : bool) (status : Z) (statusText : string)
      (contentType : option string) (json : exn + body).

(** The result object the page goes on with. *)
Record uploadResult := {
  result_records_processed : string;
  result_database_table : string
}.

(** The inner [try] block: the [result] it assigns, or what it throws. *)
Definition callBackend (fetch : fetchOutcome) : exn + uploadResult :=
  match fetch with
  | FetchRejected error => inl error
  | Response false status statusText contentType json =>
      if match contentType with
         | Some ct => negb (String.eqb ct "") && includes ct "application/json"
         | None => false
         end
      then
        match json with
        | inl error => inl error
        | inr errorData =>
            if (status =? 500)%Z
               && match detail errorData with
                  | Some d => includes d "Database connection failed"
                  | None => false
                  end
            then inl (mkError "Database not available - using simulation mode")
            else
              inl (mkError
                     (default ("Upload failed: " +:+ statusText)
                        (detail errorData)))
        end
      else inl (mkError "Backend not available - using simulation mode")
  | Response true _ _ _ json =>
      match json with
      | inl error => inl error
      | inr result =>
          if success result then
            inr {| result_records_processed := records_processed result;
                   result_database_table := database_table result |}
          else inl (mkError (default "Upload failed" (message result)))
      end
  end.

(** The result made up in the inner [catch]. *)
Definition simulatedResult (f : file) (system : string) : uploadResult :=
  let fileSize := size f in
  let estimatedRecords := Z.max 10 (fileSize / 100) in
  let targetTable :=
    if String.eqb system "KOMTRAX" then "Machine_Tracking"
    else "InspectionData" in
  {| result_records_processed := stringOfZ estimatedRecords;
     result_database_table := targetTable |}.

(** The updater of the progress interval. *)
Definition progressTick (prev : Z) : Z :=
  if (90 <=? prev)%Z then 90%Z else (prev + 10)%Z.

(** One run of [handleUpload] up to its last timer, no other event coming
    in between.  The progress bar is moved by [ticks] firings of the
    interval before the timeout sets it to 100 and, half a second later,
    the form is reset. *)
Definition handleUpload (fetch : fetchOutcome) (ticks : nat) (st : state)
    : state :=
  match selectedFile st with
  | None => pushToast (ErrorToast "Please select a file first.") st
  | Some f =>
      if String.eqb (selectedSystem st) "" then
        pushToast (ErrorToast "Please select a system type.") st
      else
        let st := setUploadProgress 0 (setIsUploading true st) in
        let result :=
          match callBackend fetch with
          | inr result => result
          | inl fetchError => simulatedResult f (selectedSystem st)
          end in
        let st :=
          setUploadProgress (Nat.iter ticks progressTick (uploadProgress st)) st in
        let st := setUploadProgress 100 st in
        pushToast
          (SuccessToast
             ("Knowledge file uploaded successfully! "
              +:+ result_records_processed result
              +:+ " records processed to "
              +:+ result_database_table result +:+ " table."))
          (setSelectedSystem ""
             (setSelectedFile None
                (setUploadProgress 0 (setIsUploading false st))))
  end.

End UploadKnowledge.

(* ===================================================================== *)
(** * Properties                                                          *)
(* ===================================================================== *)

Module JSFacts.
Import JS.

Lemma relativeIndex_nonneg (len i : Z) :
  (0 ≤ i)%Z → relativeIndex len i = Z.min i len.
Proof.
  intros Hi. unfold relativeIndex.
  destruct (Z.ltb_spec i 0); [lia | done].
Qed.

Lemma take_min_length {A} (l : list A) (n : nat) :
  take (n `min` length l) l = take n l.
Proof.
  destruct (decide (n ≤ length l)) as [Hle | Hgt].
  - by rewrite Nat.min_l.
  - rewrite Nat.min_r by lia. rewrite !take_ge; [done | lia | lia].
Qed.

(** For indices that are not negative, [slice] is [take] after [drop]. *)
Lemma slice_take_drop {A} (l : list A) (start n : Z) :
  (0 ≤ start)%Z → (0 ≤ n)%Z →
  slice l start (start + n) = take (Z.to_nat n) (drop (Z.to_nat start) l).
Proof.
  intros Hs Hn. unfold slice.
  rewrite !relativeIndex_nonneg by lia.
  destruct (decide (Z.of_nat (length l) ≤ start)%Z) as [Hout | Hin].
  - rewrite (Z.min_r start) by lia. rewrite (Z.min_r (start + n)) by lia.
    rewrite Z.sub_diag. simpl.
    rewrite (drop_ge l (Z.to_nat start)) by lia.
    by rewrite take_nil.
  - rewrite (Z.min_l start) by lia.
    rewrite <- (take_min_length (drop (Z.to_nat start) l) (Z.to_nat n)).
    rewrite length_drop. f_equal. lia.
Qed.

(** Cutting a list into consecutive windows of [n] elements and gluing
    the first [m] windows back gives its first [m * n] elements. *)
Lemma concat_windows {A} (l : list A) (n m : nat) :
  concat ((λ i, take n (drop (i * n) l)) <$> seq 0 m) = take (m * n) l.
Proof.
  induction m as [| m IH].
  - by rewrite take_0.
  - rewrite seq_S, fmap_app, concat_app, IH. simpl.
    rewrite app_nil_r, take_take_drop. f_equal. lia.
Qed.

(** ** The builtins at a few inputs *)

Example slice_examples :
  slice [1; 2; 3; 4; 5] 1 3 = [2; 3]
  ∧ slice [1; 2; 3; 4; 5] (-2) 10 = [4; 5]
  ∧ slice [1; 2; 3; 4; 5] 4 2 = []
  ∧ slice [1; 2; 3; 4; 5] 0 (-1) = [1; 2; 3; 4].
Proof. by vm_compute. Qed.

Example units_examples :
  units "a.b" = [0x61; 0x2E; 0x62]%N
  ∧ units "İ.PDF" = [0x130; 0x2E; 0x50; 0x44; 0x46]%N
  ∧ units "€" = [0x20AC]%N
  ∧ units "😀" = [0xD83D; 0xDE00]%N
  ∧ ofUnits [0x130; 0x2E]%N = "İ."
  ∧ ofUnits [0xD83D; 0xDE00; 0x20AC]%N = "😀€"
  ∧ units (ofUnits [0xDE00; 0x61; 0xD83D]%N) = [0xDE00; 0x61; 0xD83D]%N.
Proof. by vm_compute. Qed.

Example string_examples :
  trim "  a b  " = "a b"
  ∧ trim (ofUnits [0xA0; 0x61; 0x3000; 0x62; 0x2028; 0xFEFF]%N)
    = ofUnits [0x61; 0x3000; 0x62]%N
  ∧ lastIndexOf "a.b.c" "." = 3%Z
  ∧ lastIndexOf "abc" "." = (-1)%Z
  ∧ lastIndexOf "İ.PDF" "." = 1%Z
  ∧ substring "hello" 2 = "llo"
  ∧ substring "hello" (-1) = "hello"
  ∧ substring "😀.txt" 2 = ".txt"
  ∧ includes "hello world" "o w" = true
  ∧ includes "abc" "abcd" = false
  ∧ str_lt "Z" "a" = true
  ∧ str_lt "😀" (ofUnits [0xFF5A]%N) = true
  ∧ padStart (stringOfZ 7) 4 "0" = "0007"
  ∧ fromCharCode 66 = "B"
  ∧ substringTo "InspectionData" 3 = "Ins".
Proof. by vm_compute. Qed.

Example sampleCaseMapping_examples :
  @toLowerCase sampleCaseMapping "Report.PDF" = "report.pdf"
  ∧ units (@toLowerCase sampleCaseMapping "İ.PDF")
    = [0x69; 0x307; 0x2E; 0x70; 0x64; 0x66]%N
  ∧ @toUpperCase sampleCaseMapping "Ins" = "INS".
Proof. by vm_compute. Qed.

Example sort_example :
  sort (λ a b, (a - b)%Z) [3; 1; 2; 1]%Z = [1; 1; 2; 3]%Z.
Proof. by vm_compute. Qed.

(** ** Numbers and strings under [<] *)

Lemma orZero_not_NaN (n : number) : orZero n ≠ NaN.
Proof.
  unfold orZero, ofZ. destruct n; simpl; try done.
  by destruct (bool_decide _).
Qed.

Lemma num_lt_irrefl (a : number) : num_lt a a = false.
Proof.
  destruct a; simpl; try done.
  apply bool_decide_eq_false. intros Hlt. by apply Qclt_not_eq in Hlt.
Qed.

Lemma num_lt_trans (a b c : number) :
  num_lt a b = true → num_lt b c = true → num_lt a c = true.
Proof.
  destruct a, b, c; simpl; try done.
  rewrite !bool_decide_eq_true. apply Qclt_trans.
Qed.

(** Any number that is not [NaN] falls on one side of a strict
    inequality. *)
Lemma num_lt_cotrans (a b c : number) :
  b ≠ NaN → num_lt a c = true → num_lt a b = true ∨ num_lt b c = true.
Proof.
  intros Hb. destruct a, b, c; simpl; try done; auto.
  rewrite !bool_decide_eq_true. intros Hac.
  destruct (Qclt_le_dec q q0) as [Hlt | Hle]; [by left |].
  right. by apply Qcle_lt_trans with q.
Qed.

Lemma units_lt_irrefl (a : list N) : units_lt a a = false.
Proof.
  induction a as [| x a IH]; simpl; [done |].
  by rewrite N.ltb_irrefl, N.eqb_refl, IH.
Qed.

Lemma units_lt_cons (x y : N) (a b : list N) :
  units_lt (x :: a) (y :: b) = true
  ↔ (x < y)%N ∨ (x = y ∧ units_lt a b = true).
Proof.
  simpl. rewrite orb_true_iff, andb_true_iff, N.ltb_lt, N.eqb_eq. tauto.
Qed.

Lemma units_lt_trans (a b c : list N) :
  units_lt a b = true → units_lt b c = true → units_lt a c = true.
Proof.
  revert b c. induction a as [| x a IH]; intros [| y b] [| z c]; try done.
  rewrite !units_lt_cons.
  intros [Hxy | [-> Hab]] [Hyz | [-> Hbc]]; [left; lia | by left | by left |].
  right. split; [done |]. by apply IH with b.
Qed.

Lemma units_lt_cotrans (a b c : list N) :
  units_lt a c = true → units_lt a b = true ∨ units_lt b c = true.
Proof.
  revert b c. induction a as [| x a IH]; intros [| y b] [| z c]; try done;
    try (by left); try (by right).
  rewrite !units_lt_cons. intros [Hxz | [-> Hac]].
  - destruct (N.lt_trichotomy x y) as [Hxy | [-> | Hyx]];
      [by left; left | by right; left | right; left; lia].
  - destruct (N.lt_trichotomy z y) as [Hzy | [-> | Hyz]];
      [by left; left | | by right; left].
    destruct (IH b c Hac) as [Hab | Hbc]; [left | right]; by right.
Qed.

Lemma str_lt_irrefl (a : string) : str_lt a a = false.
Proof. apply units_lt_irrefl. Qed.

Lemma str_lt_cotrans (a b c : string) :
  str_lt a c = true → str_lt a b = true ∨ str_lt b c = true.
Proof. apply units_lt_cotrans. Qed.

Lemma str_lt_trans (a b c : string) :
  str_lt a b = true → str_lt b c = true → str_lt a c = true.
Proof. apply units_lt_trans. Qed.

(** ** The stable sort *)

Section StableSort.

Context {A : Type}.

(** [lt a b]: the comparator puts [a] strictly before [b]. *)
Variable lt : A → A → bool.
Variable compareFn : A → A → Z.

Hypothesis lt_irrefl : ∀ a, lt a a = false.
Hypothesis lt_trans : ∀ a b c, lt a b = true → lt b c = true → lt a c = true.
Hypothesis lt_cotrans :
  ∀ a b c, lt a c = true → lt a b = true ∨ lt b c = true.
Hypothesis compareFn_sign :
  ∀ a b, (compareFn a b <=? 0)%Z = negb (lt b a).

Lemma lt_asym (a b : A) : lt a b = true → lt b a = false.
Proof.
  intros Hab. destruct (lt b a) eqn:Hba; [| done].
  by rewrite <- (lt_irrefl a), <- (lt_trans a b a Hab Hba).
Qed.

Lemma insertBy_Permutation (x : A) (l : list A) :
  insertBy compareFn x l ≡ₚ x :: l.
Proof.
  induction l as [| y l IH]; simpl; [done |].
  destruct (compareFn x y <=? 0)%Z; [done |].
  rewrite IH. apply Permutation_swap.
Qed.

Lemma sort_Permutation (l : list A) : sort compareFn l ≡ₚ l.
Proof.
  induction l as [| x l IH]; simpl; [done |].
  by rewrite insertBy_Permutation, IH.
Qed.

#[local] Abbreviation ordered := (ordered lt).
#[local] Abbreviation tied := (tied lt).

Lemma insertBy_ordered (x : A) (l : list A) :
  ordered l → ordered (insertBy compareFn x l).
Proof.
  unfold JS.ordered. induction 1 as [| y l Hl IH Hy]; simpl.
  - repeat constructor.
  - rewrite compareFn_sign. destruct (lt y x) eqn:Hyx; simpl.
    + constructor; [exact IH |].
      rewrite insertBy_Permutation. constructor; [| exact Hy].
      by apply lt_asym.
    + constructor; [by constructor |].
      constructor; [exact Hyx |].
      eapply Forall_impl; [exact Hy |]. intros z Hzy. simpl in Hzy.
      destruct (lt z x) eqn:Hzx; [| done].
      destruct (lt_cotrans z y x Hzx) as [H1 | H1]; congruence.
Qed.

Lemma sort_ordered (l : list A) : ordered (sort compareFn l).
Proof.
  induction l as [| x l IH]; simpl.
  - constructor.
  - by apply insertBy_ordered.
Qed.

Lemma insertBy_tied (x a : A) (l : list A) :
  List.filter (tied x) (insertBy compareFn a l) = List.filter (tied x) (a :: l).
Proof.
  induction l as [| y l IH]; [done |].
  cbn [insertBy]. rewrite compareFn_sign.
  destruct (lt y a) eqn:Hya; [| done].
  cbn [negb List.filter]. rewrite IH. cbn [List.filter].
  destruct (tied x a) eqn:Hxa, (tied x y) eqn:Hxy; try done.
  exfalso. unfold JS.tied in Hxa, Hxy.
  apply andb_prop in Hxa as [Hxa _], Hxy as [_ Hyx].
  apply negb_true_iff in Hxa, Hyx.
  destruct (lt_cotrans y x a Hya); congruence.
Qed.

Lemma sort_stable (x : A) (l : list A) :
  List.filter (tied x) (sort compareFn l) = List.filter (tied x) l.
Proof.
  induction l as [| a l IH]; [done |].
  cbn [sort foldr]. fold (sort compareFn l).
  rewrite insertBy_tied. cbn [List.filter]. by rewrite IH.
Qed.

(** Two arrangements that are both ordered and agree on every class of
    tied elements are the same list: the outcome of a stable sort does not
    depend on the algorithm. *)
Lemma ordered_stable_unique (l1 l2 : list A) :
  ordered l1 → ordered l2 →
  (∀ x, List.filter (tied x) l1 = List.filter (tied x) l2) →
  l1 = l2.
Proof.
  assert (Hself : ∀ a, tied a a = true).
  { intros a. unfold JS.tied. by rewrite lt_irrefl. }
  intros Hl1. revert l2.
  induction Hl1 as [| a l1 Hl1 IH Ha]; intros l2 Hl2 Hfilter.
  - destruct l2 as [| b l2]; [done |].
    specialize (Hfilter b). cbn [List.filter] in Hfilter.
    by rewrite Hself in Hfilter.
  - destruct Hl2 as [| b l2 Hl2 Hb].
    { specialize (Hfilter a). cbn [List.filter] in Hfilter.
      by rewrite Hself in Hfilter. }
    assert (Hba : lt b a = false).
    { pose proof (Hfilter b) as Hfb. cbn [List.filter] in Hfb.
      rewrite Hself in Hfb.
      assert (Hin : In b (List.filter (tied b) (a :: l1))).
      { cbn [List.filter]. rewrite Hfb. by left. }
      apply filter_In in Hin as [[<- | Hin] _]; [apply lt_irrefl |].
      rewrite Forall_forall in Ha. by apply Ha, list_elem_of_In. }
    assert (Hab : lt a b = false).
    { pose proof (Hfilter a) as Hfa. cbn [List.filter] in Hfa.
      rewrite Hself in Hfa.
      assert (Hin : In a (List.filter (tied a) (b :: l2))).
      { cbn [List.filter]. rewrite <- Hfa. by left. }
      apply filter_In in Hin as [[<- | Hin] _]; [apply lt_irrefl |].
      rewrite Forall_forall in Hb. by apply Hb, list_elem_of_In. }
    assert (Heq : a = b).
    { pose proof (Hfilter a) as Hfa. cbn [List.filter] in Hfa.
      rewrite Hself in Hfa. unfold JS.tied in Hfa at 2.
      rewrite Hab, Hba in Hfa. by injection Hfa. }
    subst b. f_equal. apply IH; [exact Hl2 |].
    intros x. specialize (Hfilter x). cbn [List.filter] in Hfilter.
    destruct (tied x a); [by injection Hfilter | exact Hfilter].
Qed.

(** Hence any stable sort by [compareFn] returns what [sort] returns. *)
Lemma sort_unique (l l' : list A) :
  ordered l' →
  (∀ x, List.filter (tied x) l' = List.filter (tied x) l) →
  l' = sort compareFn l.
Proof.
  intros Hl' Hstable. apply ordered_stable_unique; [done | apply sort_ordered |].
  intros x. by rewrite Hstable, sort_stable.
Qed.

Lemma ordered_lookup (l : list A) (i j : nat) (a b : A) :
  ordered l → i < j → l !! i = Some a → l !! j = Some b → lt b a = false.
Proof.
  unfold JS.ordered. intros Hl. revert i j.
  induction Hl as [| y l Hl IH Hy]; intros i j Hij Hi Hj; [done |].
  destruct i as [| i], j as [| j]; try lia; simpl in *.
  - injection Hi as ->.
    rewrite Forall_forall in Hy. apply Hy.
    by apply list_elem_of_lookup_2 in Hj.
  - apply (IH i j); [lia | done | done].
Qed.

End StableSort.

Lemma sort_short {A} (compareFn : A → A → Z) (l : list A) :
  length l < 2 → sort compareFn l = l.
Proof. destruct l as [| x [| y l]]; simpl; [done | done | lia]. Qed.

End JSFacts.

Module ManageSourceFacts.
Import JS JSFacts ManageSource.

(** C9: toggling the selection of a row twice with the same id gives back
    the original state (hence the original selection set), and one toggle
    flips the membership of that id and of no other id. *)
Theorem handleSelectRow_involution (id : value) (st : state) :
  handleSelectRow id (handleSelectRow id st) = st
  ∧ (id ∈ selectedRows (handleSelectRow id st) ↔ id ∉ selectedRows st)
  ∧ (∀ j, j ≠ id →
       (j ∈ selectedRows (handleSelectRow id st) ↔ j ∈ selectedRows st)).
Proof.
  split; [| split].
  - destruct st as [t td fd ld sr se sc sd cp rp ts].
    unfold handleSelectRow, setSelectedRows; simpl. f_equal.
    destruct (decide (id ∈ sr)) as [Hin | Hout].
    + rewrite (bool_decide_eq_true_2 _ Hin).
      rewrite bool_decide_eq_false_2 by set_solver.
      apply set_eq. intros j. destruct (decide (j = id)); set_solver.
    + rewrite (bool_decide_eq_false_2 _ Hout).
      rewrite bool_decide_eq_true_2 by set_solver.
      set_solver.
  - unfold handleSelectRow; simpl. case_bool_decide; set_solver.
  - intros j Hj. unfold handleSelectRow; simpl. case_bool_decide; set_solver.
Qed.

Lemma seqZ_pages (m : Z) :
  seqZ 1 m = (λ i : nat, (1 + Z.of_nat i)%Z) <$> seq 0 (Z.to_nat m).
Proof. unfold seqZ. apply list_fmap_ext. intros; lia. Qed.

Lemma ceil_pages_cover (len rpp : Z) :
  (0 ≤ len)%Z → (0 < rpp)%Z →
  (0 ≤ - (- len / rpp))%Z ∧ (len ≤ - (- len / rpp) * rpp)%Z.
Proof.
  intros Hlen Hrpp.
  pose proof (Z.div_mod (- len) rpp ltac:(lia)) as Hdm.
  pose proof (Z.mod_pos_bound (- len) rpp Hrpp) as Hb.
  split; nia.
Qed.

(** C8: for a page number of at least 1 and a positive page size,
    [getPaginatedData] is the slice of [filteredData] from index
    [(currentPage-1)*rowsPerPage] up to [currentPage*rowsPerPage]: it has
    at most [rowsPerPage] rows, its [i]-th row is row
    [(currentPage-1)*rowsPerPage + i] of [filteredData], and the pages 1 to
    [ceil(length/rowsPerPage)] put one after the other are [filteredData]
    again. *)
Theorem getPaginatedData_partition (st : state) :
  (1 ≤ currentPage st)%Z → (0 < rowsPerPage st)%Z →
  getPaginatedData st
    = take (Z.to_nat (rowsPerPage st))
        (drop (Z.to_nat ((currentPage st - 1) * rowsPerPage st)) (filteredData st))
  ∧ (Z.of_nat (length (getPaginatedData st)) ≤ rowsPerPage st)%Z
  ∧ (∀ i : nat,
       getPaginatedData st !! i
       = if decide (Z.of_nat i < rowsPerPage st)%Z
         then filteredData st
                !! (Z.to_nat ((currentPage st - 1) * rowsPerPage st) + i)%nat
         else None)
  ∧ concat ((λ p, getPaginatedData (setCurrentPage p st))
              <$> seqZ 1 (totalPages st))
    = filteredData st.
Proof.
  intros Hp Hr.
  assert (Hslice : ∀ p, (1 ≤ p)%Z →
            getPaginatedData (setCurrentPage p st)
            = take (Z.to_nat (rowsPerPage st))
                (drop (Z.to_nat ((p - 1) * rowsPerPage st)) (filteredData st))).
  { intros p Hp'. unfold getPaginatedData; simpl.
    apply slice_take_drop; nia. }
  assert (Hme : getPaginatedData st
            = take (Z.to_nat (rowsPerPage st))
                (drop (Z.to_nat ((currentPage st - 1) * rowsPerPage st))
                   (filteredData st))).
  { unfold getPaginatedData. apply slice_take_drop; nia. }
  split; [exact Hme |]. split; [| split].
  - rewrite Hme, length_take. lia.
  - intros i. rewrite Hme. case_decide as Hi.
    + rewrite lookup_take_lt by lia. by rewrite lookup_drop.
    + apply lookup_take_ge. lia.
  - unfold totalPages.
    destruct (ceil_pages_cover (Z.of_nat (length (filteredData st)))
                (rowsPerPage st) ltac:(lia) Hr) as [Hnn Hcover].
    set (m := (- (- Z.of_nat (length (filteredData st)) / rowsPerPage st))%Z) in *.
    rewrite seqZ_pages, <- list_fmap_compose.
    rewrite (list_fmap_ext _
               (λ i, take (Z.to_nat (rowsPerPage st))
                       (drop (i * Z.to_nat (rowsPerPage st)) (filteredData st)))).
    + rewrite concat_windows. apply take_ge. nia.
    + intros i x _. simpl. rewrite Hslice by lia. do 2 f_equal. nia.
Qed.

(** The state [initialState] with three rows loaded, used as an input. *)
Lemma getPaginatedData_partition_witness :
  let st := setRowsPerPage 2 (setFilteredData [∅; ∅; ∅] initialState) in
  (1 ≤ currentPage st)%Z ∧ (0 < rowsPerPage st)%Z
  ∧ concat ((λ p, getPaginatedData (setCurrentPage p st))
              <$> seqZ 1 (totalPages st))
    = filteredData st.
Proof.
  intros st.
  assert (H1 : (1 ≤ currentPage st)%Z) by (simpl; lia).
  assert (H2 : (0 < rowsPerPage st)%Z) by (simpl; lia).
  split; [exact H1 |]. split; [exact H2 |].
  apply (getPaginatedData_partition st H1 H2).
Defined.

(** ** The selected table, the request and the loaded rows *)

Section RuntimeFacts.

Context {caseMapping : CaseMapping}.
Variable numberToString : number → string.
Variable parseFloat dateGetTime : value → number.
Variable typeErrorMessage : string → string.

#[local] Abbreviation configProp := (configProp typeErrorMessage).
#[local] Abbreviation loadTableData := (loadTableData typeErrorMessage).
#[local] Abbreviation filterAndSortData :=
  (filterAndSortData numberToString parseFloat dateGetTime typeErrorMessage).
#[local] Abbreviation handleDeleteSelected := (handleDeleteSelected typeErrorMessage).
#[local] Abbreviation step :=
  (step numberToString parseFloat dateGetTime typeErrorMessage).
#[local] Abbreviation reachable :=
  (reachable numberToString parseFloat dateGetTime typeErrorMessage).

Lemma keepsTable_ret {A} (a : A) : keepsTable (ret a).
Proof. intros st r st' [= <- <-]. done. Qed.

Lemma keepsTable_throw {A} (e : exn) : keepsTable (@throw A e).
Proof. intros st r st' [= <- <-]. done. Qed.

Lemma keepsTable_get : keepsTable get.
Proof. intros st r st' [= <- <-]. done. Qed.

Lemma keepsTable_modify (f : state → state) :
  (∀ st, selectedTable (f st) = selectedTable st) → keepsTable (modify f).
Proof. intros Hf st r st' [= <- <-]. apply Hf. Qed.

Lemma keepsTable_bind {A B} (m : M A) (k : A → M B) :
  keepsTable m → (∀ a, keepsTable (k a)) → keepsTable (bind m k).
Proof.
  intros Hm Hk st r st'. unfold bind.
  destruct (m st) as [[a | e] st1] eqn:Em; intros Hr.
  - rewrite (Hk a _ _ _ Hr). eauto.
  - injection Hr as <- <-. eauto.
Qed.

Lemma keepsTable_try_catch {A} (m : M A) (h : exn → M A) :
  keepsTable m → (∀ e, keepsTable (h e)) → keepsTable (try_catch m h).
Proof.
  intros Hm Hh st r st'. unfold try_catch.
  destruct (m st) as [[a | e] st1] eqn:Em; intros Hr.
  - injection Hr as <- <-. eauto.
  - rewrite (Hh e _ _ _ Hr). eauto.
Qed.

Lemma keepsTable_try_finally {A} (m : M A) (c : M unit) :
  keepsTable m → keepsTable c → keepsTable (try_finally m c).
Proof.
  intros Hm Hc st r st'. unfold try_finally.
  destruct (m st) as [r1 st1] eqn:Em.
  destruct (c st1) as [[[] | e] st2] eqn:Ec; intros [= <- <-];
    rewrite (Hc _ _ _ Ec); eauto.
Qed.

Lemma keepsTable_configProp {A} (t : string) (f : tableConfig → A) :
  keepsTable (configProp t f).
Proof.
  unfold ManageSource.configProp. destruct (prop TABLE_CONFIGS t).
  - apply keepsTable_ret.
  - apply keepsTable_throw.
Qed.

Create HintDb keeps discriminated.
#[local] Hint Resolve keepsTable_ret keepsTable_throw keepsTable_get
  keepsTable_configProp : keeps.
#[local] Hint Extern 2 (keepsTable (bind _ _)) =>
  apply keepsTable_bind; [| intros ?] : keeps.
#[local] Hint Extern 2 (keepsTable (try_catch _ _)) =>
  apply keepsTable_try_catch; [| intros ?] : keeps.
#[local] Hint Extern 2 (keepsTable (try_finally _ _)) =>
  apply keepsTable_try_finally : keeps.
#[local] Hint Extern 2 (keepsTable (modify _)) =>
  apply keepsTable_modify; intros ?; reflexivity : keeps.
#[local] Hint Extern 3 (keepsTable (match ?x with _ => _ end)) =>
  destruct x : keeps.
#[local] Hint Extern 1 (keepsTable (toast_success _)) =>
  unfold toast_success : keeps.
#[local] Hint Extern 1 (keepsTable (toast_error _)) =>
  unfold toast_error : keeps.
#[local] Hint Extern 1 (keepsTable (toast_info _ _)) =>
  unfold toast_info : keeps.

Lemma keepsTable_loadTableData fetch random :
  keepsTable (loadTableData fetch random).
Proof.
  unfold ManageSource.loadTableData, fetchRealData, generateSampleData.
  auto 30 with keeps.
Qed.

Lemma keepsTable_filterAndSortData : keepsTable filterAndSortData.
Proof.
  unfold ManageSource.filterAndSortData.
  auto 30 with keeps.
Qed.

Lemma keepsTable_handleDeleteSelected : keepsTable handleDeleteSelected.
Proof.
  unfold ManageSource.handleDeleteSelected.
  auto 30 with keeps.
Qed.

(** A step keeps the selected table or moves to a configured one. *)
Lemma step_selectedTable (st st' : state) :
  step st st' →
  selectedTable st' = selectedTable st
  ∨ selectedTable st' ∈ Object_keys TABLE_CONFIGS.
Proof.
  destruct 1; auto.
  - left. eapply keepsTable_loadTableData; eauto.
  - left. eapply keepsTable_filterAndSortData; eauto.
  - left. unfold handleSelectAll. by destruct (_ && _).
  - left. eapply keepsTable_handleDeleteSelected; eauto.
Qed.

Lemma reachable_selectedTable (st : state) :
  reachable st → selectedTable st ∈ Object_keys TABLE_CONFIGS.
Proof.
  unfold ManageSource.reachable. revert st. apply rtc_ind_r.
  - set_solver.
  - intros mid st' _ Hstep IH.
    destruct (step_selectedTable _ _ Hstep) as [-> | Hin]; auto.
Qed.

Ltac norm_state :=
  cbn [selectedTable tableData filteredData loading selectedRows searchTerm
       sortConfig showDeleteConfirm currentPage rowsPerPage toasts
       setLoading setSelectedRows setTableData pushToast setSearchTerm
       fst snd success data andb].

(** The search term plays no part in a run of [loadTableData]: the same
    run from a state that differs in the search term sends the same
    request and ends the same way, in a state that differs in the search
    term only. *)
Lemma loadTableData_searchTerm fetch random term (st : state) :
  loadTableData fetch random (setSearchTerm term st)
  = ((loadTableData fetch random st).1,
     setSearchTerm term (loadTableData fetch random st).2).
Proof.
  destruct st as [t td fd ld sr se sc sd cp rp ts].
  unfold ManageSource.loadTableData, fetchRealData, generateSampleData,
    ManageSource.configProp, toast_info, toast_error, toast_success,
    try_finally, try_catch, bind, modify, get, ret, throw,
    loadTableData_request.
  generalize (@prop tableConfig TABLE_CONFIGS). intros lookup.
  norm_state.
  destruct (fetch _) as [e | [] [e | [[] [records |]]]]; norm_state;
    try destruct (0 <? length records)%nat;
    destruct (lookup t) eqn:E; norm_state;
    repeat (rewrite E; norm_state); reflexivity.
Qed.


Lemma configured_table (t : string) :
  t ∈ Object_keys TABLE_CONFIGS → ∃ c, prop TABLE_CONFIGS t = Some c.
Proof.
  intros Hin. change (Object_keys TABLE_CONFIGS)
    with ["InspectionData"; "Machine_Tracking"; "UC_Life_Time"] in Hin.
  repeat (apply elem_of_cons in Hin as [-> | Hin]);
    [eexists; reflexivity .. |].
  by apply elem_of_nil in Hin.
Qed.

(** With fuel for all the iterations that remain, the loop pushes the
    rows of the counter values [i], [i+1], ..., [sampleSize], in order. *)
Lemma pushRows_seqZ (mkRow : Z → row) (fuel : nat) (i : Z) (data : list row) :
  (sampleSize - i + 1 < Z.of_nat fuel + 1)%Z →
  pushRows mkRow fuel i data = data ++ (mkRow <$> seqZ i (sampleSize - i + 1)).
Proof.
  revert i data.
  induction fuel as [| fuel IH]; intros i data Hfuel; cbn [pushRows].
  - rewrite seqZ_nil by lia. by rewrite app_nil_r.
  - destruct (Z.leb_spec i sampleSize) as [Hle | Hgt].
    + rewrite IH by lia. rewrite (seqZ_cons i) by lia.
      rewrite <- app_assoc, fmap_cons. cbn [app].
      replace (i + 1)%Z with (Z.succ i) by lia.
      replace (sampleSize - Z.succ i + 1)%Z
        with (Z.pred (sampleSize - i + 1)) by lia.
      reflexivity.
    + rewrite seqZ_nil by lia. by rewrite app_nil_r.
Qed.

(** The generator returns one row per iteration of its loop. *)
Lemma generateSampleData_rows random (t : string) (c : tableConfig) (st : state) :
  prop TABLE_CONFIGS t = Some c →
  generateSampleData typeErrorMessage random t st
  = (Normal (sampleRow random t (columns c) <$> seqZ 1 sampleSize), st)
  ∧ length (sampleRow random t (columns c) <$> seqZ 1 sampleSize) = 1000.
Proof.
  intros Hc. split.
  - unfold generateSampleData, ManageSource.configProp, bind, ret.
    rewrite Hc. by rewrite pushRows_seqZ by (unfold sampleSize; lia).
  - by rewrite length_fmap, length_seqZ.
Qed.

(** What a run of [loadTableData] comes to for a configured table: real
    data when the answer is accepted; otherwise the sample rows are
    generated and stored, the call of [toast.info] throws, and the outer
    [catch] reports the error and empties the table. *)
Lemma loadTableData_run fetch random (st : state) (c : tableConfig) :
  prop TABLE_CONFIGS (selectedTable st) = Some c →
  loadTableData fetch random st
  = match acceptedRecords (fetch (loadTableData_request st)) with
    | Some records =>
        (Normal tt,
         setLoading false
           (pushToast
              (SuccessToast
                 ("✅ REAL DATA: Loaded "
                  +:+ stringOfZ (Z.of_nat (length records))
                  +:+ " records from " +:+ name c))
              (setTableData records
                 (setSelectedRows ∅ (setLoading true st)))))
    | None =>
        (Normal tt,
         setLoading false
           (setTableData []
              (pushToast
                 (ErrorToast
                    ("Failed to load " +:+ name c +:+ " data: "
                     +:+ typeErrorMessage "toast.info"))
                 (setTableData
                    (sampleRow random (selectedTable st) (columns c)
                       <$> seqZ 1 sampleSize)
                    (setSelectedRows ∅ (setLoading true st))))))
    end.
Proof.
  assert (Hrows : ∀ t,
            pushRows (sampleRow random t (columns c))
              (S (Z.to_nat sampleSize)) 1 []
            = sampleRow random t (columns c) <$> seqZ 1 sampleSize).
  { intros t. by rewrite pushRows_seqZ by (unfold sampleSize; lia). }
  destruct st as [t td fd ld sr se sc sd cp rp ts].
  cbn [selectedTable]. intros Hc.
  unfold ManageSource.loadTableData, fetchRealData, generateSampleData,
    ManageSource.configProp, toast_info, toast_error, toast_success,
    try_finally, try_catch, bind, modify, get, ret, throw, acceptedRecords.
  norm_state.
  destruct (fetch _) as [e | [] [e | [[] [records |]]]]; norm_state;
    try destruct (0 <? length records)%nat;
    norm_state; repeat (rewrite Hc; norm_state); rewrite ?Hrows;
    reflexivity.
Qed.

(** C3 (amended): the query [loadTableData] sends asks for at most 1000
    rows ([SELECT TOP 1000]), and [generateSampleData] returns exactly 1000
    rows for the selected table; the page sets no limit of its own on the
    answer: when the answer is accepted, the table data left by the run is
    the list of records received, as long as that list is, whichever table
    of [TABLE_CONFIGS] is selected. *)
Theorem loadTableData_stores_accepted_records fetch random (st : state) :
  selectedTable st ∈ Object_keys TABLE_CONFIGS →
  query (loadTableData_request st)
  = "SELECT TOP 1000 * FROM " +:+ selectedTable st
  ∧ (∃ sampleData,
       generateSampleData typeErrorMessage random (selectedTable st) st
       = (Normal sampleData, st)
       ∧ length sampleData = 1000)
  ∧ (∀ records,
       acceptedRecords (fetch (loadTableData_request st)) = Some records →
       tableData (loadTableData fetch random st).2 = records).
Proof.
  intros Hin.
  destruct (configured_table _ Hin) as [c Hc].
  split; [done |]. split.
  - eexists. apply generateSampleData_rows, Hc.
  - intros records Hacc.
    by rewrite (loadTableData_run fetch random st c Hc), Hacc.
Qed.

(** C7 (the table page): for a configured table, when the query fails in
    any way (network error, response not ok, body not JSON, [success]
    false, no rows), [loadTableData] does complete, but it ends with an
    empty table and an error notification that carries the TypeError of
    the missing [toast.info]: the generated sample rows are discarded and
    nothing tells the user where the data comes from. *)
Theorem loadTableData_failed_query fetch random (st : state) (c : tableConfig) :
  prop TABLE_CONFIGS (selectedTable st) = Some c →
  acceptedRecords (fetch (loadTableData_request st)) = None →
  (loadTableData fetch random st).1 = Normal tt
  ∧ loading (loadTableData fetch random st).2 = false
  ∧ tableData (loadTableData fetch random st).2 = []
  ∧ toasts (loadTableData fetch random st).2
    = toasts st
      ++ [ErrorToast ("Failed to load " +:+ name c +:+ " data: "
                      +:+ typeErrorMessage "toast.info")].
Proof.
  intros Hc Hfail.
  rewrite (loadTableData_run fetch random st c Hc), Hfail. done.
Qed.

(** ** filterAndSortData *)

Lemma key_lt_irrefl (x : sortingKey) : key_lt x x = false.
Proof. destruct x; simpl; [apply num_lt_irrefl | apply str_lt_irrefl]. Qed.

Lemma key_lt_trans (x y z : sortingKey) :
  key_lt x y = true → key_lt y z = true → key_lt x z = true.
Proof.
  destruct x, y, z; simpl; try done;
    [apply num_lt_trans | apply str_lt_trans].
Qed.

(** The keys of the rows of one column are all numbers that are not [NaN]
    or all strings, so each of them is on one side of a strict
    inequality between two others. *)
Lemma keyLess_cotrans cols k (a b c : row) :
  keyLess numberToString parseFloat dateGetTime cols k a c = true →
  keyLess numberToString parseFloat dateGetTime cols k a b = true
  ∨ keyLess numberToString parseFloat dateGetTime cols k b c = true.
Proof.
  unfold keyLess, rowKey.
  destruct (isNumberType _); [| destruct (isDateType _)]; simpl.
  - apply num_lt_cotrans, orZero_not_NaN.
  - apply num_lt_cotrans, orZero_not_NaN.
  - apply str_lt_cotrans.
Qed.

#[local] Abbreviation keyLess :=
  (keyLess numberToString parseFloat dateGetTime).
#[local] Abbreviation before :=
  (before numberToString parseFloat dateGetTime).
#[local] Abbreviation sameKey :=
  (sameKey numberToString parseFloat dateGetTime).
#[local] Abbreviation compareRows :=
  (compareRows numberToString parseFloat dateGetTime).
#[local] Abbreviation searchResult := (searchResult numberToString).

Lemma before_irrefl dir cols k (a : row) : before dir cols k a a = false.
Proof. destruct dir; apply key_lt_irrefl. Qed.

Lemma before_trans dir cols k (a b c : row) :
  before dir cols k a b = true → before dir cols k b c = true →
  before dir cols k a c = true.
Proof.
  destruct dir; simpl; unfold ManageSource.keyLess.
  - apply key_lt_trans.
  - intros H1 H2. by apply (key_lt_trans _ _ _ H2 H1).
Qed.

Lemma before_cotrans dir cols k (a b c : row) :
  before dir cols k a c = true →
  before dir cols k a b = true ∨ before dir cols k b c = true.
Proof.
  destruct dir; simpl.
  - apply keyLess_cotrans.
  - intros H. destruct (keyLess_cotrans cols k c b a H); auto.
Qed.

(** The comparator is the sign of the key order. *)
Lemma compareRows_keyLess cols k dir (a b : row) :
  compareRows cols k dir a b
  = sign dir (keyLess cols k a b) (keyLess cols k b a).
Proof.
  unfold ManageSource.compareRows, ManageSource.keyLess, rowKey.
  destruct (isNumberType _); [done |]. by destruct (isDateType _).
Qed.

Lemma compareRows_sign cols k dir (a b : row) :
  (compareRows cols k dir a b <=? 0)%Z = negb (before dir cols k b a).
Proof.
  rewrite compareRows_keyLess. unfold sign.
  destruct (keyLess cols k a b) eqn:Hab.
  - assert (Hba : keyLess cols k b a = false).
    { exact (lt_asym (before asc cols k) (before_irrefl asc cols k)
               (before_trans asc cols k) a b Hab). }
    destruct dir; simpl; by rewrite ?Hab, ?Hba.
  - destruct (keyLess cols k b a) eqn:Hba;
      destruct dir; simpl; by rewrite ?Hab, ?Hba.
Qed.

Lemma tied_sameKey dir cols k (x a : row) :
  tied (before dir cols k) x a = sameKey cols k x a.
Proof.
  unfold tied, ManageSource.sameKey. destruct dir; simpl; [done |].
  apply andb_comm.
Qed.

(** What a run of [filterAndSortData] comes to when a sort key is set. *)
Lemma filterAndSortData_run (st : state) (c : tableConfig) (k : string) :
  prop TABLE_CONFIGS (selectedTable st) = Some c →
  sortKey (sortConfig st) = Some k → k ≠ "" →
  filterAndSortData st
  = (Normal tt,
     setFilteredData
       (sort (compareRows (columns c) k (sortDirection (sortConfig st)))
             (searchResult (columns c) st))
       st).
Proof.
  destruct st as [t td fd ld sr se [sk dir] sd cp rp ts].
  cbn [selectedTable sortConfig sortKey sortDirection].
  intros Hc -> Hk.
  unfold ManageSource.filterAndSortData, ManageSource.configProp,
    ManageSource.searchResult, bind, get, ret, modify.
  cbn [selectedTable sortConfig sortKey sortDirection searchTerm tableData].
  rewrite Hc, (bool_decide_eq_true_2 _ Hk).
  set (cmp := compareRows (columns c) k dir).
  assert (Hshort : ∀ l : list row,
            (if (length l <? 2)%nat then l else sort cmp l) = sort cmp l).
  { intros l. destruct (Nat.ltb_spec (length l) 2) as [Hlt | Hge]; [| done].
    symmetry. by apply sort_short. }
  destruct (bool_decide (se ≠ "")).
  - destruct td as [| r td].
    + reflexivity.
    + cbn beta iota.
      set (l := List.filter _ (r :: td)).
      rewrite <- (Hshort l). by destruct (length l <? 2)%nat.
  - rewrite <- (Hshort td). by destruct (length td <? 2)%nat.
Qed.


End RuntimeFacts.

(** ** The theorems at concrete inputs

    The engine-defined builtins are instantiated by simple stand-ins: a
    [parseFloat] that knows numbers only, dates that never parse, a
    TypeError message made of the faulty expression, and the case mapping
    [sampleCaseMapping]. *)

Section GivenInputs.

#[local] Existing Instance sampleCaseMapping.


Lemma loadTableData_stores_accepted_records_witness :
  let typeErrorMessage := λ e : string, e +:+ " is not a function" in
  let records : list row :=
    [ {[ "ID" := Num (ofZ 1) ]}; {[ "ID" := Num (ofZ 2) ]} ] in
  let fetch := λ _ : request,
    Response true (inr {| success := true; data := Some records |}) in
  let random := λ (_ : string) (_ : Z), Null in
  selectedTable initialState ∈ Object_keys TABLE_CONFIGS
  ∧ acceptedRecords (fetch (loadTableData_request initialState))
    = Some records
  ∧ tableData (loadTableData typeErrorMessage fetch random initialState).2
    = records.
Proof.
  intros typeErrorMessage records fetch random.
  assert (Hin : selectedTable initialState ∈ Object_keys TABLE_CONFIGS).
  { change (Object_keys TABLE_CONFIGS)
      with ["InspectionData"; "Machine_Tracking"; "UC_Life_Time"].
    repeat constructor. }
  assert (Hacc : acceptedRecords (fetch (loadTableData_request initialState))
                 = Some records) by reflexivity.
  split; [exact Hin |]. split; [exact Hacc |].
  destruct (loadTableData_stores_accepted_records typeErrorMessage fetch
              random initialState Hin) as (_ & _ & Hrows).
  exact (Hrows records Hacc).
Defined.

(** No bound of 1000 rows holds on the page: an endpoint that answers the
    query for [InspectionData] with 1001 rows is taken at its word, and
    the table holds 1001 rows after the run. *)
Lemma loadTableData_exceeds_row_limit :
  let typeErrorMessage := λ e : string, e +:+ " is not a function" in
  let records : list row := replicate 1001 {[ "ID" := Num (ofZ 1) ]} in
  let fetch := λ _ : request,
    Response true (inr {| success := true; data := Some records |}) in
  let random := λ (_ : string) (_ : Z), Null in
  selectedTable initialState ∈ Object_keys TABLE_CONFIGS
  ∧ query (loadTableData_request initialState)
    = "SELECT TOP 1000 * FROM InspectionData"
  ∧ length (tableData
              (loadTableData typeErrorMessage fetch random initialState).2)
    = 1001
  ∧ ¬ (length (tableData
                 (loadTableData typeErrorMessage fetch random initialState).2)
       ≤ 1000).
Proof.
  intros typeErrorMessage records fetch random.
  assert (Hin : selectedTable initialState ∈ Object_keys TABLE_CONFIGS).
  { change (Object_keys TABLE_CONFIGS)
      with ["InspectionData"; "Machine_Tracking"; "UC_Life_Time"].
    repeat constructor. }
  assert (Hc : ∃ c, prop TABLE_CONFIGS (selectedTable initialState) = Some c)
    by (eexists; reflexivity).
  destruct Hc as [c Hc].
  assert (Hrows : tableData
                    (loadTableData typeErrorMessage fetch random
                       initialState).2 = records).
  { rewrite (loadTableData_run typeErrorMessage fetch random initialState c Hc).
    reflexivity. }
  split; [exact Hin |]. split; [reflexivity |].
  rewrite Hrows. unfold records. rewrite length_replicate.
  split; [reflexivity | lia].
Qed.


Lemma loadTableData_failed_query_witness :
  let typeErrorMessage := λ e : string, e +:+ " is not a function" in
  let fetch := λ _ : request, FetchRejected (mkError "Failed to fetch") in
  let random := λ (_ : string) (_ : Z), Null in
  ∃ c,
    prop TABLE_CONFIGS (selectedTable initialState) = Some c
    ∧ acceptedRecords (fetch (loadTableData_request initialState)) = None
    ∧ tableData (loadTableData typeErrorMessage fetch random initialState).2
      = []
    ∧ toasts (loadTableData typeErrorMessage fetch random initialState).2
      = [ErrorToast
           "Failed to load Inspection Data data: toast.info is not a function"].
Proof.
  intros typeErrorMessage fetch random.
  destruct (prop TABLE_CONFIGS (selectedTable initialState)) as [c |] eqn:Hc;
    [| discriminate Hc].
  exists c.
  assert (Hfail : acceptedRecords (fetch (loadTableData_request initialState))
                  = None) by reflexivity.
  split; [reflexivity |]. split; [exact Hfail |].
  destruct (loadTableData_failed_query typeErrorMessage fetch random
              initialState c Hc Hfail) as (_ & _ & Hdata & Htoasts).
  split; [exact Hdata |].
  rewrite Htoasts. injection Hc as <-. reflexivity.
Defined.

End GivenInputs.

End ManageSourceFacts.

Module UploadDocumentFacts.
Import JS JSFacts UploadDocument.

Section RuntimeFacts.

Context {caseMapping : CaseMapping}.

(** [processFile] selects the offered file exactly when its MIME type is
    [application/pdf] or [text/plain] or [fileExtension] finds [.pdf] or
    [.txt], and moreover its size is at most 50*1024*1024 bytes; otherwise
    it only reports an error and the selected file stays what it was. *)
Lemma processFile_selects_iff (f : file) (st : state) :
  let accepted :=
    (type f = "application/pdf" ∨ type f = "text/plain"
     ∨ fileExtension f = ".pdf" ∨ fileExtension f = ".txt")
    ∧ (size f ≤ 50 * 1024 * 1024)%Z in
  (accepted ∧
   processFile f st
   = pushToast (SuccessToast "File selected successfully!")
       (setSelectedFile (Some f) st)
   ∧ selectedFile (processFile f st) = Some f)
  ∨ (¬ accepted ∧
     (∃ text, processFile f st = pushToast (ErrorToast text) st)
     ∧ selectedFile (processFile f st) = selectedFile st).
Proof.
  simpl.
  unfold processFile, allowedTypes, allowedExtensions, maxFileSize.
  destruct (decide (type f ∈ ["application/pdf"; "text/plain"])) as [Ht | Ht];
  destruct (decide (fileExtension f ∈ [".pdf"; ".txt"])) as [He | He];
  rewrite ?(bool_decide_eq_true_2 _ Ht), ?(bool_decide_eq_false_2 _ Ht),
          ?(bool_decide_eq_true_2 _ He), ?(bool_decide_eq_false_2 _ He);
  simpl;
  try (destruct (Z.ltb_spec (50 * 1024 * 1024) (size f)) as [Hbig | Hok];
       [ right; split; [lia |]; split; [eauto | done]
       | left; split; [| done]; split; [| lia]; set_solver ]).
  right. split; [| split; [eauto | done]].
  intros [Hany _]. set_solver.
Qed.

(** [fileExtension] cuts the lower-cased name at the index the last dot
    has in the name as typed.  Where lower-casing leaves that index in
    place, the cut is the extension of the lower-cased name. *)
Lemma fileExtension_lowercased (f : file) :
  lastIndexOf (toLowerCase (name f)) "." = lastIndexOf (name f) "." →
  fileExtension f = lowercasedExtension (name f).
Proof.
  intros Hdot. unfold fileExtension, lowercasedExtension. by rewrite Hdot.
Qed.

(** X30: for a file whose name has its last dot at the same index before
    and after lower-casing, [processFile] selects the file exactly when
    its MIME type is [application/pdf] or [text/plain] or the extension
    of its lower-cased name is [.pdf] or [.txt], and moreover its size is
    at most 50*1024*1024 bytes; otherwise it only reports an error and the
    selected file stays what it was. *)
Theorem processFile_accepts_iff_dot_in_place (f : file) (st : state) :
  lastIndexOf (toLowerCase (name f)) "." = lastIndexOf (name f) "." →
  let accepted :=
    (type f = "application/pdf" ∨ type f = "text/plain"
     ∨ lowercasedExtension (name f) = ".pdf"
     ∨ lowercasedExtension (name f) = ".txt")
    ∧ (size f ≤ 50 * 1024 * 1024)%Z in
  (accepted ∧
   processFile f st
   = pushToast (SuccessToast "File selected successfully!")
       (setSelectedFile (Some f) st)
   ∧ selectedFile (processFile f st) = Some f)
  ∨ (¬ accepted ∧
     (∃ text, processFile f st = pushToast (ErrorToast text) st)
     ∧ selectedFile (processFile f st) = selectedFile st).
Proof.
  intros Hdot. cbv zeta. rewrite <- (fileExtension_lowercased f Hdot).
  apply processFile_selects_iff.
Qed.

(** C10 (the code departs from the claim): lower-casing the name [İ.PDF]
    (U+0130, then [.PDF]) gives [i], U+0307, [.pdf], one code unit longer
    in front of the dot.  The lower-cased name has the extension [.pdf]
    and the size is in range, yet [fileExtension], cutting at the index
    the dot has in the name as typed, finds U+0307 followed by [.pdf]:
    unless the MIME type is listed, [processFile] turns the file down as
    of an invalid type and leaves the selected file as it was. *)
Theorem processFile_rejects_pdf_with_longer_lower_case (f : file) (st : state) :
  name f = "İ.PDF" →
  toLowerCase (name f) = ofUnits [0x69; 0x307; 0x2E; 0x70; 0x64; 0x66]%N →
  type f ∉ allowedTypes →
  (size f ≤ maxFileSize)%Z →
  lowercasedExtension (name f) = ".pdf"
  ∧ fileExtension f = ofUnits [0x307; 0x2E; 0x70; 0x64; 0x66]%N
  ∧ processFile f st
    = pushToast
        (ErrorToast "Invalid file type. Only PDF and TXT files are allowed.")
        st
  ∧ selectedFile (processFile f st) = selectedFile st.
Proof.
  intros Hname Hlower Htype Hsize.
  assert (Hext : fileExtension f = ofUnits [0x307; 0x2E; 0x70; 0x64; 0x66]%N).
  { unfold fileExtension. rewrite Hlower, Hname. by vm_compute. }
  assert (Hrun : processFile f st
                 = pushToast
                     (ErrorToast
                        "Invalid file type. Only PDF and TXT files are allowed.")
                     st).
  { unfold processFile.
    rewrite (bool_decide_eq_false_2 _ Htype), Hext.
    reflexivity. }
  split; [| split; [exact Hext | split; [exact Hrun |]]].
  - unfold lowercasedExtension. rewrite Hlower. by vm_compute.
  - by rewrite Hrun.
Qed.

End RuntimeFacts.

(** ** At concrete inputs, with the case mapping [sampleCaseMapping] *)

Section GivenInputs.

#[local] Existing Instance sampleCaseMapping.

Example fileExtension_examples :
  fileExtension {| name := "Report.PDF"; type := ""; size := 1 |} = ".pdf"
  ∧ fileExtension {| name := "notes.v2.TxT"; type := ""; size := 1 |} = ".txt"
  ∧ fileExtension {| name := "noext"; type := ""; size := 1 |} = "noext"
  ∧ units (fileExtension {| name := "İ.PDF"; type := ""; size := 1 |})
    = [0x307; 0x2E; 0x70; 0x64; 0x66]%N
  ∧ lowercasedExtension "İ.PDF" = ".pdf".
Proof. by vm_compute. Qed.

Lemma processFile_accepts_iff_dot_in_place_witness :
  let f := {| name := "Report.v2.PDF"; type := ""; size := 2048 |} in
  let g := {| name := "Report.doc"; type := ""; size := 2048 |} in
  lastIndexOf (toLowerCase (name f)) "." = lastIndexOf (name f) "."
  ∧ lastIndexOf (toLowerCase (name g)) "." = lastIndexOf (name g) "."
  ∧ selectedFile (processFile f initialState) = Some f
  ∧ selectedFile (processFile g (processFile f initialState)) = Some f.
Proof.
  intros f g.
  assert (Hf : lastIndexOf (toLowerCase (name f)) "." = lastIndexOf (name f) ".")
    by (by vm_compute).
  assert (Hg : lastIndexOf (toLowerCase (name g)) "." = lastIndexOf (name g) ".")
    by (by vm_compute).
  split; [exact Hf |]. split; [exact Hg |].
  assert (Hsel : selectedFile (processFile f initialState) = Some f).
  { destruct (processFile_accepts_iff_dot_in_place f initialState Hf)
      as [(_ & _ & Hsel) | (Hno & _)]; [exact Hsel |].
    exfalso. apply Hno. split; [| by vm_compute].
    right. right. left. by vm_compute. }
  split; [exact Hsel |].
  destruct (processFile_accepts_iff_dot_in_place g (processFile f initialState)
              Hg) as [([[Ht | [Ht | [He | He]]] _] & _) | (_ & _ & Hkeep)];
    [discriminate Ht | discriminate Ht | | |].
  - exfalso. revert He. by vm_compute.
  - exfalso. revert He. by vm_compute.
  - by rewrite Hkeep.
Defined.

Lemma processFile_rejects_pdf_with_longer_lower_case_witness :
  let f := {| name := "İ.PDF"; type := ""; size := 1024 |} in
  units (name f) = [0x130; 0x2E; 0x50; 0x44; 0x46]%N
  ∧ units (toLowerCase (name f)) = [0x69; 0x307; 0x2E; 0x70; 0x64; 0x66]%N
  ∧ (type f ∉ allowedTypes)
  ∧ (size f ≤ maxFileSize)%Z
  ∧ lowercasedExtension (name f) = ".pdf"
  ∧ processFile f initialState
    = pushToast
        (ErrorToast "Invalid file type. Only PDF and TXT files are allowed.")
        initialState.
Proof.
  intros f.
  assert (Hname : name f = "İ.PDF") by reflexivity.
  assert (Hlower : toLowerCase (name f)
                   = ofUnits [0x69; 0x307; 0x2E; 0x70; 0x64; 0x66]%N)
    by (by vm_compute).
  assert (Htype : type f ∉ allowedTypes).
  { unfold allowedTypes. intros Hin.
    repeat (apply elem_of_cons in Hin as [Hin | Hin]; [discriminate Hin |]).
    by apply elem_of_nil in Hin. }
  assert (Hsize : (size f ≤ maxFileSize)%Z) by (vm_compute; discriminate).
  destruct (processFile_rejects_pdf_with_longer_lower_case f initialState
              Hname Hlower Htype Hsize) as (Hclaim & _ & Hrun & _).
  split; [by vm_compute |]. split; [by vm_compute |].
  split; [exact Htype |]. split; [exact Hsize |].
  split; [exact Hclaim | exact Hrun].
Defined.

End GivenInputs.

End UploadDocumentFacts.

Module ChatAskFacts.
Import JS ChatAsk.

(** An accepted submission puts the question and then the reply (or the
    error reply) after the messages already there. *)
Lemma handleSubmit_accepted rag plain (st : state) :
  trim (currentInput st) ≠ "" → isLoading st = false →
  ∃ reply,
    messages (handleSubmit rag plain st)
    = messages st ++ [userMessage (currentInput st); reply]
    ∧ role reply = "assistant"
    ∧ isLoading (handleSubmit rag plain st) = false.
Proof.
  intros Hin Hload. unfold handleSubmit, handleSubmit_send.
  rewrite (bool_decide_eq_false_2 _ Hin), Hload. cbn [orb].
  cbn [viaRAG updatedMessages].
  destruct (if useRAG st then _ else _) as [r | err];
    eexists; (split; [| split]); cbn; rewrite <- ?app_assoc; done.
Qed.

(** The chat page on a failed answer request: the question stays in the
    log, an explicit error reply is appended after it, the error banner is
    set and the page is ready for the next question. *)
Lemma handleSubmit_rejected rag plain (st : state) (err : exn) :
  trim (currentInput st) ≠ "" → isLoading st = false →
  (∀ history, rag history = Rejected err) →
  (∀ history, plain history = Rejected err) →
  messages (handleSubmit rag plain st)
  = messages st
    ++ [userMessage (currentInput st);
        {| role := "assistant";
           content := "Sorry, I encountered an error. Please try asking your question again.";
           contextInfo := None |}]
  ∧ error (handleSubmit rag plain st)
    = Some "Failed to get response. Please try again."
  ∧ isLoading (handleSubmit rag plain st) = false.
Proof.
  intros Hin Hload Hrag Hplain. unfold handleSubmit, handleSubmit_send.
  rewrite (bool_decide_eq_false_2 _ Hin), Hload. cbn [orb].
  cbn [viaRAG updatedMessages]. rewrite Hrag, Hplain.
  destruct (useRAG st); cbn; rewrite <- ?app_assoc; done.
Qed.

Lemma ask_accepted api (st : state) (question : string) :
  trim question ≠ "" → isLoading st = false →
  ∃ reply,
    messages (ask api st question)
    = messages st ++ [userMessage question; reply]
    ∧ isLoading (ask api st question) = false.
Proof.
  intros Hq Hload. unfold ask.
  destruct (handleSubmit_accepted api api (handleInputChange question st))
    as (reply & Hm & _ & Hl); [done | done |].
  exists reply. by rewrite Hm.
Qed.

(** A run of questions from any idle state: the log grows by two messages
    per question and keeps everything it had, each question sitting where
    it was appended. *)
Lemma foldl_ask api (questions : list string) (st : state) :
  Forall (λ q, trim q ≠ "") questions → isLoading st = false →
  let st' := foldl (ask api) st questions in
  isLoading st' = false
  ∧ length (messages st') = length (messages st) + 2 * length questions
  ∧ messages st `prefix_of` messages st'
  ∧ ∀ i q, questions !! i = Some q →
      messages st' !! (length (messages st) + 2 * i) = Some (userMessage q).
Proof.
  intros Hqs. revert st.
  induction Hqs as [| q qs Hq Hqs IH]; intros st Hload; simpl.
  - split; [done |]. split; [lia |]. split; [done |]. intros i q [=].
  - destruct (ask_accepted api st q Hq Hload) as (reply & Hm & Hl).
    destruct (IH (ask api st q) Hl) as (Hl' & Hlen & Hpre & Hat).
    rewrite Hm in Hlen, Hpre, Hat. rewrite length_app in Hlen, Hat.
    simpl in Hlen, Hat.
    split; [done |]. split; [lia |]. split.
    + etrans; [| exact Hpre]. by apply prefix_app_r.
    + intros [| i] q' Hi; simpl in Hi.
      * injection Hi as <-.
        eapply prefix_lookup_Some; [| exact Hpre].
        rewrite lookup_app_r by lia.
        match goal with |- _ !! ?n = _ => replace n with 0 by lia end.
        done.
      * rewrite <- (Hat i q' Hi). f_equal. lia.
Qed.




(** ** The operations of the page *)

Lemma handleSubmit_send_Some (st st' : state) (call : pendingCall) :
  handleSubmit_send st = Some (call, st') →
  isLoading st = false
  ∧ isLoading st' = true
  ∧ updatedMessages call = messages st'
  ∧ messages st `prefix_of` messages st'.
Proof.
  unfold handleSubmit_send.
  destruct (bool_decide _); [done |]. destruct (isLoading st) eqn:Hl; [done |].
  intros [= <- <-]. cbn. repeat split; try done. by apply prefix_app_r.
Qed.

Lemma handleSubmit_settle_messages call outcome (st : state) :
  updatedMessages call `prefix_of`
    messages (handleSubmit_settle call outcome st)
  ∧ isLoading (handleSubmit_settle call outcome st) = false.
Proof.
  unfold handleSubmit_settle.
  destruct outcome as [r | err]; cbn; split; try done;
    by apply prefix_app_r.
Qed.

Lemma step_consistent (s s' : session) (op : operation) :
  consistent s → step s op s' → consistent s'.
Proof.
  intros Hs Hstep. destruct Hstep as
    [s Hsend | s call st' Hsend | s i call outcome Hi | s v | s b | s Hidle].
  - exact Hs.
  - apply handleSubmit_send_Some in Hsend as (Hidle & Hload & Hcall & _).
    destruct Hs as [[_ Hnone] | [Hl _]]; [| congruence].
    right. split; [done |]. exists call. by rewrite Hnone.
  - left. cbn [page inFlight].
    split; [apply handleSubmit_settle_messages |].
    destruct Hs as [[_ Hnone] | (_ & call' & Hone & _)].
    + by rewrite Hnone in Hi.
    + rewrite Hone in Hi |- *. by destruct i.
  - unfold consistent in *. cbn. exact Hs.
  - unfold consistent in *. cbn. exact Hs.
  - destruct Hs as [[Hl Hnone] | (Hl & _)]; [| congruence].
    left. by split.
Qed.

Lemma reachable_consistent (s : session) : reachable s → consistent s.
Proof.
  induction 1 as [| s op s' _ IH Hstep].
  - by left.
  - by eapply step_consistent.
Qed.

Lemma afterFailedQuestion_reachable : reachable afterFailedQuestion.
Proof.
  pose (s1 := {| page := handleInputChange "hi" initialState;
                 inFlight := [] |}).
  pose (call := {| updatedMessages := [userMessage "hi"]; viaRAG := true |}).
  pose (st2 := setError None
                 (setIsLoading true
                    (setCurrentInput ""
                       (setMessages [userMessage "hi"] (page s1))))).
  assert (H1 : reachable s1).
  { apply (reachable_step initialSession (InputChange "hi"));
      [apply reachable_init | apply (step_input initialSession "hi")]. }
  assert (H2 : reachable {| page := st2; inFlight := [call] |}).
  { apply (reachable_step s1 Submit); [exact H1 |].
    apply (step_submit_sent s1 call st2). by vm_compute. }
  apply (reachable_step _ (Settle 0 (Rejected (mkError "offline"))) _ H2).
  exact (step_settle {| page := st2; inFlight := [call] |} 0 call
           (Rejected (mkError "offline")) eq_refl).
Qed.

(** Not every operation keeps the stored messages: after [clearHistory]
    a message that was stored is no longer at its position. *)
Lemma clearHistory_discards_messages :
  ¬ ∀ (s s' : session) (op : operation), reachable s → step s op s' →
      ∀ i m, messages (page s) !! i = Some m →
             messages (page s') !! i = Some m.
Proof.
  intros Hkept.
  specialize (Hkept afterFailedQuestion _ ClearHistory
                afterFailedQuestion_reachable
                (step_clear afterFailedQuestion eq_refl)
                0 (userMessage "hi") eq_refl).
  discriminate Hkept.
Qed.

(** C5, as the code has it: every operation other than [clearHistory]
    leaves each stored message unchanged at its position and adds new
    messages at the end only; [clearHistory], which can only run while no
    request is loading, empties the log. *)
Theorem messages_appended_or_cleared (s s' : session) (op : operation) :
  reachable s → step s op s' →
  (op ≠ ClearHistory →
     messages (page s) `prefix_of` messages (page s')
     ∧ ∀ i m, messages (page s) !! i = Some m →
              messages (page s') !! i = Some m)
  ∧ (op = ClearHistory →
     isLoading (page s) = false ∧ messages (page s') = []).
Proof.
  intros Hreach Hstep.
  assert (Hpre : op ≠ ClearHistory →
            messages (page s) `prefix_of` messages (page s')).
  { pose proof (reachable_consistent s Hreach) as Hs.
    destruct Hstep as
      [s Hsend | s call st' Hsend | s i call outcome Hi | s v | s b | s Hidle];
      intros Hop; try done.
    - by apply handleSubmit_send_Some in Hsend as (_ & _ & _ & Hp).
    - cbn. destruct Hs as [[_ Hnone] | (_ & call' & Hone & Hcall)].
      + by rewrite Hnone in Hi.
      + rewrite Hone in Hi. destruct i; [| done]. injection Hi as <-.
        rewrite <- Hcall. apply handleSubmit_settle_messages. }
  split.
  - intros Hop. split; [by apply Hpre |].
    intros i m Hi. by eapply prefix_lookup_Some; [| apply Hpre].
  - intros ->. by inversion Hstep; subst.
Qed.

Lemma messages_appended_or_cleared_witness :
  reachable afterFailedQuestion
  ∧ step afterFailedQuestion (InputChange "next")
      {| page := handleInputChange "next" (page afterFailedQuestion);
         inFlight := inFlight afterFailedQuestion |}
  ∧ messages (page afterFailedQuestion)
      `prefix_of` messages (handleInputChange "next" (page afterFailedQuestion)).
Proof.
  split; [exact afterFailedQuestion_reachable |].
  split; [apply step_input |].
  refine (proj1 (proj1 (messages_appended_or_cleared afterFailedQuestion _
                   (InputChange "next") afterFailedQuestion_reachable
                   (step_input _ _)) _)).
  discriminate.
Defined.

End ChatAskFacts.

Module IngestionFacts.
Import Ingestion.

(** In a list without two elements of the same image, an element is
    determined by its image. *)
Lemma NoDup_fmap_unique {A B} (f : A → B) (l : list A) (x y : A) :
  NoDup (f <$> l) → x ∈ l → y ∈ l → f x = f y → x = y.
Proof.
  induction l as [| a l IH]; simpl; intros Hnd Hx Hy Hf.
  - by apply elem_of_nil in Hx.
  - apply NoDup_cons in Hnd as [Ha Hl].
    apply elem_of_cons in Hx as [-> | Hx], Hy as [-> | Hy]; auto.
    + exfalso. apply Ha. rewrite Hf. by apply list_elem_of_fmap_2.
    + exfalso. apply Ha. rewrite <- Hf. by apply list_elem_of_fmap_2.
Qed.

Section PipelineFacts.

Context {digest vector : Type} `{EqDecision digest}.
Variable hash : list Byte.byte → digest.
Variable extract : list Byte.byte → string → extraction.
Variable chunk : list string → list string.
Variable embed : list string → option (list vector).
Variable locate : digest → string.

#[local] Abbreviation ingest := (ingest hash extract chunk embed locate).
#[local] Abbreviation reachable :=
  (reachable hash extract chunk embed locate).
#[local] Abbreviation step := (step hash extract chunk embed locate).
#[local] Abbreviation store := (@store digest vector).

Lemma findByHash_Some (h : digest) (s : store) (d : Document) :
  findByHash h s = Some d → d ∈ documents s ∧ contentHash d = h.
Proof.
  unfold findByHash. intros Hfind.
  apply find_some in Hfind as [Hin Hh].
  split; [by apply list_elem_of_In | by apply bool_decide_eq_true in Hh].
Qed.

Lemma findByHash_None (h : digest) (s : store) :
  findByHash h s = None → h ∉ contentHash <$> documents s.
Proof.
  unfold findByHash. intros Hfind Hin.
  apply list_elem_of_fmap in Hin as (d & -> & Hd).
  apply list_elem_of_In in Hd.
  pose proof (find_none _ _ Hfind d Hd) as Hno.
  by apply bool_decide_eq_false in Hno.
Qed.

(** A stored digest is found again. *)
Lemma findByHash_stored (h : digest) (s : store) :
  h ∈ contentHash <$> documents s →
  ∃ d, findByHash h s = Some d.
Proof.
  intros Hin. destruct (findByHash h s) as [d |] eqn:Hfind; [by exists d |].
  by apply findByHash_None in Hfind.
Qed.

(** The pipeline answers an upload whose digest is already stored with
    [DuplicateContent] naming that digest, and touches nothing. *)
Lemma ingest_stored_digest bytes name now (s : store) :
  hash bytes ∈ contentHash <$> documents s →
  ingest bytes name now s = (DuplicateContent (hash bytes), s).
Proof.
  intros Hin. destruct (findByHash_stored _ _ Hin) as [d Hd].
  unfold Ingestion.ingest. rewrite Hd.
  by destruct (findByHash_Some _ _ _ Hd) as [_ ->].
Qed.

(** Whatever an upload that was not rejected leaves behind holds a
    Document with the digest of its bytes. *)
Lemma ingest_stored bytes name now (s : store) :
  stored (ingest bytes name now s).1 →
  hash bytes ∈ contentHash <$> documents (ingest bytes name now s).2.
Proof.
  unfold Ingestion.ingest.
  destruct (findByHash (hash bytes) s) as [d |] eqn:Hfind; simpl.
  - intros _. destruct (findByHash_Some _ _ _ Hfind) as [Hin <-].
    by apply list_elem_of_fmap_2.
  - destruct (extract bytes name); simpl; try done.
    destruct (embed _); simpl; [| done]. intros _.
    rewrite fmap_app. apply elem_of_app. right. simpl. set_solver.
Qed.

Lemma ingest_NoDup bytes name now (s : store) :
  NoDup (contentHash <$> documents s) →
  NoDup (contentHash <$> documents (ingest bytes name now s).2).
Proof.
  intros Hs. unfold Ingestion.ingest.
  destruct (findByHash (hash bytes) s) as [d |] eqn:Hfind; simpl; [done |].
  destruct (extract bytes name); simpl; try done.
  destruct (embed _); simpl; [| done].
  rewrite fmap_app. apply NoDup_app. split; [done |]. split.
  - intros h Hh Hnew. apply list_elem_of_singleton in Hnew as ->.
    by apply findByHash_None in Hfind.
  - apply NoDup_singleton.
Qed.

Lemma deleteDocument_NoDup (h : digest) (s : store) :
  NoDup (contentHash <$> documents s) →
  NoDup (contentHash <$> documents (deleteDocument h s).2).
Proof.
  intros Hs. unfold deleteDocument.
  destruct (findByHash h s); simpl; [| done].
  induction (documents s) as [| d0 l IH]; simpl; [constructor |].
  apply NoDup_cons in Hs as [Hd Hl].
  destruct (negb _); simpl; [| by apply IH].
  apply NoDup_cons. split; [| by apply IH].
  intros Hin. apply Hd.
  apply list_elem_of_fmap in Hin as (d' & -> & Hd').
  apply list_elem_of_In, filter_In in Hd' as [Hd' _].
  apply list_elem_of_fmap_2. by apply list_elem_of_In.
Qed.

Lemma reachable_NoDup (s : store) :
  reachable s → NoDup (contentHash <$> documents s).
Proof.
  unfold Ingestion.reachable. revert s. apply rtc_ind_r.
  - constructor.
  - intros s s' _ Hstep IH. destruct Hstep.
    + by apply ingest_NoDup.
    + by apply deleteDocument_NoDup.
Qed.

Lemma ingest_keeps (h : digest) bytes name now (s : store) :
  h ∈ contentHash <$> documents s →
  h ∈ contentHash <$> documents (ingest bytes name now s).2.
Proof.
  intros Hin. unfold Ingestion.ingest.
  destruct (findByHash (hash bytes) s); simpl; [done |].
  destruct (extract bytes name); simpl; try done.
  destruct (embed _); simpl; [| done].
  rewrite fmap_app. apply elem_of_app. by left.
Qed.

Lemma deleteDocument_keeps (h h' : digest) (s : store) :
  h' ≠ h →
  h ∈ contentHash <$> documents s →
  h ∈ contentHash <$> documents (deleteDocument h' s).2.
Proof.
  intros Hne Hin. unfold deleteDocument.
  destruct (findByHash h' s); simpl; [| done].
  apply list_elem_of_fmap in Hin as (d0 & -> & Hd).
  apply list_elem_of_fmap_2, list_elem_of_In, filter_In.
  split; [by apply list_elem_of_In |].
  apply negb_true_iff. by apply bool_decide_eq_false.
Qed.

Lemma stepKeeping_keeps (h : digest) (s s' : store) :
  rtc (stepKeeping hash extract chunk embed locate h) s s' →
  h ∈ contentHash <$> documents s →
  h ∈ contentHash <$> documents s'.
Proof.
  induction 1 as [| s mid s' Hstep _ IH]; [done |].
  intros Hin. apply IH. destruct Hstep.
  - by apply ingest_keeps.
  - by apply deleteDocument_keeps.
Qed.

Lemma stepKeeping_step (h : digest) (s s' : store) :
  stepKeeping hash extract chunk embed locate h s s' → step s s'.
Proof. destruct 1; constructor. Qed.

Lemma stepKeeping_reachable (h : digest) (s s' : store) :
  reachable s →
  rtc (stepKeeping hash extract chunk embed locate h) s s' →
  reachable s'.
Proof.
  intros Hs Hsteps. unfold Ingestion.reachable in *.
  etrans; [exact Hs |].
  eapply rtc_subrel; [| exact Hsteps]. apply stepKeeping_step.
Qed.

(** C1: in every state the two stores can reach there is at most one
    Document per content hash; and when an upload was not rejected (it
    created the Document or found it), a second upload of the same bytes,
    under whatever name and at whatever time, directly afterwards or after
    other uploads and deletions of other Documents, fails with
    [DuplicateContent], names the identity of the Document that exists,
    and leaves MetadataStore and VectorIndex exactly as they were. *)
Theorem ingest_twice_is_DuplicateContent (s : store) :
  reachable s →
  NoDup (contentHash <$> documents s)
  ∧ ∀ bytes name1 now1 name2 now2 (s2 : store),
      stored (ingest bytes name1 now1 s).1 →
      rtc (stepKeeping hash extract chunk embed locate (hash bytes))
        (ingest bytes name1 now1 s).2 s2 →
      ingest bytes name2 now2 s2 = (DuplicateContent (hash bytes), s2)
      ∧ (∃ d, d ∈ documents s2 ∧ contentHash d = hash bytes
              ∧ ∀ d', d' ∈ documents s2 →
                      contentHash d' = hash bytes → d' = d)
      ∧ NoDup (contentHash <$> documents s2).
Proof.
  intros Hreach.
  pose proof (reachable_NoDup s Hreach) as Hs.
  split; [exact Hs |].
  intros bytes name1 now1 name2 now2 s2 Hstored Hsteps.
  pose proof (ingest_stored bytes name1 now1 s Hstored) as Hin.
  apply (stepKeeping_keeps _ _ _ Hsteps) in Hin.
  assert (Hs2 : NoDup (contentHash <$> documents s2)).
  { apply reachable_NoDup.
    eapply stepKeeping_reachable; [| exact Hsteps].
    unfold Ingestion.reachable. eapply rtc_r; [exact Hreach |].
    apply step_ingest. }
  split; [by apply ingest_stored_digest |]. split; [| exact Hs2].
  apply list_elem_of_fmap in Hin as (d & Hd & Hin).
  exists d. split; [done |]. split; [done |].
  intros d' Hin' Hd'.
  eapply (NoDup_fmap_unique contentHash); eauto. congruence.
Qed.

End PipelineFacts.

(** A pipeline whose digest is the length of the upload, used as an
    input below. *)
Lemma ingest_twice_is_DuplicateContent_witness :
  let hash : list Byte.byte → nat := length in
  let extract := λ (_ : list Byte.byte) (_ : string), Segments ["page one"] in
  let chunk := λ segments : list string, segments in
  let embed := λ texts : list string, Some ((λ _, 0%Z) <$> texts) in
  let locate := λ _ : nat, "documents/" in
  reachable hash extract chunk embed locate emptyStore
  ∧ stored (ingest hash extract chunk embed locate [Byte.x25] "a.pdf" 0
              emptyStore).1
  ∧ (ingest hash extract chunk embed locate [Byte.x25] "b.pdf" 1
       (ingest hash extract chunk embed locate [Byte.x25] "a.pdf" 0
          emptyStore).2).1
    = DuplicateContent 1.
Proof.
  intros hash extract chunk embed locate.
  assert (Hreach : reachable hash extract chunk embed locate emptyStore)
    by apply rtc_refl.
  assert (Hstored : stored (ingest hash extract chunk embed locate
                              [Byte.x25] "a.pdf" 0 emptyStore).1)
    by exact I.
  split; [exact Hreach |]. split; [exact Hstored |].
  destruct (ingest_twice_is_DuplicateContent hash extract chunk embed locate
              emptyStore Hreach) as [_ Htwice].
  destruct (Htwice [Byte.x25] "a.pdf" 0%Z "b.pdf" 1%Z _ Hstored
              (rtc_refl _ _)) as [Heq _].
  by rewrite Heq.
Defined.

End IngestionFacts.

Module ListFacts.

(** Facts about [Array.prototype.filter] ([List.filter]) used for several
    pages. *)

Lemma elem_of_List_filter {A} (f : A → bool) (l : list A) (x : A) :
  x ∈ List.filter f l ↔ x ∈ l ∧ f x = true.
Proof. rewrite !list_elem_of_In. apply filter_In. Qed.

Lemma List_filter_submseteq {A} (f : A → bool) (l : list A) :
  List.filter f l ⊆+ l.
Proof.
  induction l as [| x l IH]; cbn [List.filter]; [done |].
  destruct (f x); [by apply submseteq_skip | by apply submseteq_cons].
Qed.

Lemma List_filter_sublist {A} (f : A → bool) (l : list A) :
  List.filter f l `sublist_of` l.
Proof.
  induction l as [| x l IH]; cbn [List.filter]; [done |].
  destruct (f x); [by apply sublist_skip | by apply sublist_cons].
Qed.

Lemma List_filter_Permutation {A} (f : A → bool) (l l' : list A) :
  l ≡ₚ l' → List.filter f l ≡ₚ List.filter f l'.
Proof.
  induction 1 as [| x l l' _ IH | x y l | l l' l'' _ IH1 _ IH2];
    cbn [List.filter].
  - done.
  - destruct (f x); [by constructor | done].
  - destruct (f x), (f y); try done. apply perm_swap.
  - by etransitivity.
Qed.

Lemma List_filter_comm {A} (f g : A → bool) (l : list A) :
  List.filter f (List.filter g l) = List.filter g (List.filter f l).
Proof.
  induction l as [| x l IH]; [done |]. cbn [List.filter].
  destruct (f x) eqn:Ef, (g x) eqn:Eg; cbn [List.filter];
    rewrite ?Ef, ?Eg, IH; reflexivity.
Qed.

Lemma List_filter_all {A} (f : A → bool) (l : list A) :
  (∀ x, x ∈ l → f x = true) → List.filter f l = l.
Proof.
  induction l as [| x l IH]; intros H; [done |]. cbn [List.filter].
  rewrite (H x) by left. f_equal. apply IH. intros y Hy. apply H. by right.
Qed.

Lemma List_filter_none {A} (f : A → bool) (l : list A) :
  (∀ x, x ∈ l → f x = false) → List.filter f l = [].
Proof.
  induction l as [| x l IH]; intros H; [done |]. cbn [List.filter].
  rewrite (H x) by left. apply IH. intros y Hy. apply H. by right.
Qed.

End ListFacts.

Module NumberFacts.

(** Facts about the rationals that stand for finite numbers. *)

Lemma Qc_lt_irrefl (x : Qc) : ¬ (x < x)%Qc.
Proof. intros H. exact (Qclt_not_eq _ _ H eq_refl). Qed.

Lemma Qc_sub_pos (x y : Qc) : (0 < x - y ↔ y < x)%Qc.
Proof. unfold Qcminus. symmetry. apply Qclt_minus_iff. Qed.

Lemma Qc_opp_sub (x y : Qc) : (- (x - y) = y - x)%Qc.
Proof. ring. Qed.

Lemma Qc_inject_pos (z : Z) : (0 < Q2Qc (inject_Z z))%Qc ↔ (0 < z)%Z.
Proof.
  unfold Qclt. cbn [this Q2Qc].
  rewrite (Qred_correct (inject_Z z)).
  unfold Qlt. change (Qred 0) with (0#1)%Q.
  cbn [Qnum Qden inject_Z]. lia.
Qed.

Lemma Qc_inject_sub (x y : Z) :
  Q2Qc (inject_Z (x - y)) = (Q2Qc (inject_Z x) - Q2Qc (inject_Z y))%Qc.
Proof.
  apply Qc_is_canon. unfold Qcminus, Qcplus, Qcopp. cbn [this Q2Qc].
  rewrite !Qred_correct. unfold Z.sub.
  by rewrite inject_Z_plus, inject_Z_opp.
Qed.

Lemma Qc_inject_lt (x y : Z) :
  (Q2Qc (inject_Z x) < Q2Qc (inject_Z y))%Qc ↔ (x < y)%Z.
Proof.
  rewrite <- Qc_sub_pos, <- Qc_inject_sub, Qc_inject_pos. lia.
Qed.

Lemma Qc_inject_le (x y : Z) :
  (Q2Qc (inject_Z x) <= Q2Qc (inject_Z y))%Qc ↔ (x ≤ y)%Z.
Proof.
  split.
  - intros H. apply Z.nlt_ge. intros Hlt.
    apply (proj2 (Qc_inject_lt y x)) in Hlt.
    exact (Qclt_not_le _ _ Hlt H).
  - intros H. apply Qcnot_lt_le. intros Hlt.
    apply (proj1 (Qc_inject_lt y x)) in Hlt. lia.
Qed.

Lemma Qc_inject_inj (x y : Z) :
  Q2Qc (inject_Z x) = Q2Qc (inject_Z y) ↔ x = y.
Proof.
  split; [| by intros ->]. intros H.
  apply Z.le_antisymm; apply Qc_inject_le; rewrite H; apply Qcle_refl.
Qed.

End NumberFacts.

Module ManageSourceViewFacts.
Import JS JSFacts ManageSource.
#[local] Open Scope Z_scope.

(** ** Sorting by a column header *)

(** X1: a click on a column header always leaves that column as the sort
    key; the direction is descending exactly when the table was already
    sorted ascending by that column, so repeated clicks on one header
    alternate between ascending and descending (three clicks are one), a
    click on another header starts ascending, and no click goes back to
    the unsorted view. *)
Theorem handleSort_alternates (k k' : string) (st : state) :
  sortKey (sortConfig (handleSort k st)) = Some k
  ∧ (sortDirection (sortConfig (handleSort k st)) = desc
     ↔ sortConfig st = {| sortKey := Some k; sortDirection := asc |})
  ∧ sortDirection (sortConfig (handleSort k (handleSort k st)))
    ≠ sortDirection (sortConfig (handleSort k st))
  ∧ handleSort k (handleSort k (handleSort k st)) = handleSort k st
  ∧ (k' ≠ k →
     sortConfig (handleSort k' (handleSort k st))
     = {| sortKey := Some k'; sortDirection := asc |}).
Proof.
  destruct st as [t td fd ld sr se [sk sd] sdc cp rp ts].
  unfold handleSort, setSortConfig; cbn [sortConfig sortKey sortDirection].
  split; [done |]. split; [| split; [| split]].
  - repeat case_bool_decide; cbn; split; intros E;
      try discriminate; try congruence.
  - rewrite (bool_decide_eq_true_2 (Some k = Some k)) by done.
    destruct (bool_decide (sk = Some k) && bool_decide (sd = asc));
      cbn [andb]; repeat case_bool_decide; congruence.
  - rewrite !(bool_decide_eq_true_2 (Some k = Some k)) by done.
    destruct (bool_decide (sk = Some k) && bool_decide (sd = asc));
      cbn [andb]; repeat case_bool_decide; try congruence; reflexivity.
  - intros Hne. rewrite (bool_decide_eq_false_2 (Some k = Some k')) by congruence.
    reflexivity.
Qed.

Lemma handleSort_alternates_witness :
  "Model" ≠ "ID"
  ∧ sortConfig (handleSort "Model" (handleSort "ID" initialState))
    = {| sortKey := Some "Model"; sortDirection := asc |}.
Proof.
  assert (H : "Model" ≠ "ID") by discriminate.
  split; [exact H |].
  exact (proj2 (proj2 (proj2 (proj2
           (handleSort_alternates "ID" "Model" initialState)))) H).
Defined.

(** ** The page shown *)

(** X2: the page shown is empty exactly when the current page lies beyond
    the last one; every page from 1 to [totalPages] shows at least one
    row. *)
Theorem getPaginatedData_empty_iff (st : state) :
  1 ≤ currentPage st → 0 < rowsPerPage st →
  (getPaginatedData st = [] ↔ totalPages st < currentPage st).
Proof.
  intros Hp Hr.
  unfold getPaginatedData. cbv zeta.
  rewrite slice_take_drop by nia.
  unfold totalPages.
  set (len := length (filteredData st)).
  pose proof (Z.div_mod (- Z.of_nat len) (rowsPerPage st) ltac:(lia)) as Hdm.
  pose proof (Z.mod_pos_bound (- Z.of_nat len) (rowsPerPage st) Hr) as Hb.
  rewrite <- length_zero_iff_nil, length_take, length_drop. fold len.
  split; intros H; nia.
Qed.

Lemma getPaginatedData_empty_iff_witness :
  let st := setCurrentPage 3 (setRowsPerPage 2 (setFilteredData [∅; ∅; ∅] initialState)) in
  1 ≤ currentPage st ∧ 0 < rowsPerPage st
  ∧ (getPaginatedData st = [] ↔ totalPages st < currentPage st).
Proof.
  intros st.
  assert (H1 : 1 ≤ currentPage st) by (simpl; lia).
  assert (H2 : 0 < rowsPerPage st) by (simpl; lia).
  split; [exact H1 |]. split; [exact H2 |].
  apply (getPaginatedData_empty_iff st H1 H2).
Defined.

(** ** The numbered page buttons *)

Lemma elem_of_pageButtons (st : state) (p : Z) :
  p ∈ pageButtons st
  ↔ ∃ i, 0 ≤ i < Z.min 5 (totalPages st)
         ∧ p = pageNum st i ∧ pageNum st i ≤ totalPages st.
Proof.
  unfold pageButtons. rewrite list_elem_of_omap. split.
  - intros (i & Hi & Hp). apply elem_of_seqZ in Hi.
    destruct (Z.leb_spec (pageNum st i) (totalPages st)); [| done].
    injection Hp as <-. exists i. lia.
  - intros (i & Hi & -> & Hle). exists i. split.
    + apply elem_of_seqZ. lia.
    + destruct (Z.leb_spec (pageNum st i) (totalPages st)); [done | lia].
Qed.

(** X3: every numbered button leads to an existing page, and when there
    are at least five pages the five buttons include the current page. *)
Theorem pageButtons_reach_current (st : state) :
  (∀ p, p ∈ pageButtons st → 1 ≤ p ≤ totalPages st)
  ∧ (5 ≤ totalPages st → 1 ≤ currentPage st ≤ totalPages st →
     currentPage st ∈ pageButtons st ∧ length (pageButtons st) = 5%nat).
Proof.
  split.
  - intros p (i & Hi & -> & Hle)%elem_of_pageButtons. unfold pageNum in *. lia.
  - intros Htp Hcp. split.
    + apply elem_of_pageButtons. unfold pageNum.
      destruct (Z_le_gt_dec (currentPage st) (totalPages st - 2)).
      * exists 2. lia.
      * exists (currentPage st - totalPages st + 4). lia.
    + unfold pageButtons. rewrite Z.min_l by lia.
      assert (Hall : ∀ i, 0 ≤ i < 5 → pageNum st i ≤ totalPages st)
        by (intros i Hi; unfold pageNum; lia).
      change (seqZ 0 5) with [0; 1; 2; 3; 4].
      cbn [omap list_omap].
      repeat match goal with
             | |- context [(pageNum st ?i <=? totalPages st)] =>
                 rewrite (proj2 (Z.leb_le (pageNum st i) (totalPages st)))
                   by (apply Hall; lia)
             end.
      reflexivity.
Qed.

Lemma pageButtons_reach_current_witness :
  let st := setCurrentPage 6
              (setRowsPerPage 1 (setFilteredData (replicate 6 ∅) initialState)) in
  5 ≤ totalPages st ∧ 1 ≤ currentPage st ≤ totalPages st
  ∧ currentPage st ∈ pageButtons st ∧ length (pageButtons st) = 5%nat.
Proof.
  intros st.
  assert (H1 : 5 ≤ totalPages st) by (vm_compute; discriminate).
  assert (H2 : 1 ≤ currentPage st ≤ totalPages st)
    by (split; vm_compute; discriminate).
  split; [exact H1 |]. split; [exact H2 |].
  exact (proj2 (pageButtons_reach_current st) H1 H2).
Defined.

(** X4: with two, three or four pages no numbered button leads to the
    last page, wherever the current page is; with two or three pages every
    button leads to page 1. *)
Theorem pageButtons_few_pages (st : state) :
  2 ≤ totalPages st ≤ 4 →
  (totalPages st ∉ pageButtons st)
  ∧ length (pageButtons st) = Z.to_nat (totalPages st)
  ∧ (totalPages st ≤ 3 → ∀ p, p ∈ pageButtons st → p = 1).
Proof.
  intros Htp. split; [| split].
  - intros (i & Hi & Hp & _)%elem_of_pageButtons. unfold pageNum in Hp. lia.
  - unfold pageButtons. rewrite Z.min_r by lia.
    assert (Hlen : ∀ l : list Z, (∀ i, i ∈ l → pageNum st i ≤ totalPages st) →
              length (omap (λ i, if pageNum st i <=? totalPages st
                                 then Some (pageNum st i) else None) l)
              = length l).
    { induction l as [| i l IH]; intros Hl; [done |].
      cbn [omap list_omap].
      rewrite (proj2 (Z.leb_le _ _)) by (apply Hl; left).
      cbn [length]. f_equal. apply IH. intros j Hj. apply Hl. by right. }
    rewrite Hlen, length_seqZ; [done |].
    intros i Hi%elem_of_seqZ. unfold pageNum. lia.
  - intros Hle p (i & Hi & -> & _)%elem_of_pageButtons. unfold pageNum. lia.
Qed.

Lemma pageButtons_few_pages_witness :
  let st := setCurrentPage 3
              (setRowsPerPage 1 (setFilteredData (replicate 3 ∅) initialState)) in
  2 ≤ totalPages st ≤ 4 ∧ totalPages st ∉ pageButtons st.
Proof.
  intros st.
  assert (H : 2 ≤ totalPages st ≤ 4) by (split; vm_compute; discriminate).
  split; [exact H |].
  exact (proj1 (pageButtons_few_pages st H)).
Defined.

End ManageSourceViewFacts.

Module ManageSourceSelectionFacts.
Import JS JSFacts ManageSource.

(** ** Selecting a whole page *)

Lemma foldl_difference (ids : list value) (s : gset value) :
  foldl (λ s id, s ∖ {[ id ]}) s ids = s ∖ list_to_set ids.
Proof.
  revert s. induction ids as [| id ids IH]; intros s; cbn [foldl list_to_set].
  - set_solver.
  - rewrite IH. set_solver.
Qed.

Lemma foldl_union (ids : list value) (s : gset value) :
  foldl (λ s id, s ∪ {[ id ]}) s ids = s ∪ list_to_set ids.
Proof.
  revert s. induction ids as [| id ids IH]; intros s; cbn [foldl list_to_set].
  - set_solver.
  - rewrite IH. set_solver.
Qed.

Lemma forallb_selected (ids : list value) (s : gset value) :
  forallb (λ id, bool_decide (id ∈ s)) ids = true ↔ ∀ id, id ∈ ids → id ∈ s.
Proof.
  rewrite forallb_forall. split.
  - intros H id Hin. apply (bool_decide_eq_true_1 _), H.
    by apply list_elem_of_In.
  - intros H id Hin. apply bool_decide_eq_true_2, H. by apply list_elem_of_In.
Qed.

(** X5: when the ids of the rows on the page are pairwise distinct, the
    header checkbox selects the page from an empty selection, and clears
    the selection when exactly the rows of the page are selected. *)
Theorem handleSelectAll_toggles (getRowId : nat → row → value) (st : state) :
  NoDup (imap getRowId (getPaginatedData st)) →
  (selectedRows st = ∅ →
     handleSelectAll getRowId st
     = setSelectedRows (list_to_set (imap getRowId (getPaginatedData st))) st)
  ∧ (selectedRows st = list_to_set (imap getRowId (getPaginatedData st)) →
     handleSelectAll getRowId st = setSelectedRows ∅ st).
Proof.
  intros Hnd. unfold handleSelectAll. cbv zeta.
  set (ids := imap getRowId (getPaginatedData st)) in *.
  split.
  - intros He. rewrite He, foldl_difference, foldl_union.
    rewrite size_empty.
    destruct ids as [| id ids']; cbn [length Nat.eqb andb];
      f_equal; set_solver.
  - intros He. rewrite He, foldl_difference.
    rewrite size_list_to_set by done.
    rewrite Nat.eqb_refl.
    rewrite (proj2 (forallb_selected ids (list_to_set ids))) by set_solver.
    cbn [andb]. f_equal. set_solver.
Qed.

Lemma handleSelectAll_toggles_witness :
  let st := setFilteredData [∅; ∅] initialState in
  let getRowId := λ (i : nat) (_ : row), Num (ofZ (Z.of_nat i)) in
  NoDup (imap getRowId (getPaginatedData st))
  ∧ selectedRows st = ∅
  ∧ handleSelectAll getRowId st
    = setSelectedRows (list_to_set (imap getRowId (getPaginatedData st))) st.
Proof.
  intros st getRowId.
  assert (H1 : NoDup (imap getRowId (getPaginatedData st))).
  { change (imap getRowId (getPaginatedData st))
      with [Num (ofZ 0); Num (ofZ 1)].
    repeat constructor; set_solver. }
  assert (H2 : selectedRows st = ∅) by reflexivity.
  split; [exact H1 |]. split; [exact H2 |].
  exact (proj1 (handleSelectAll_toggles getRowId st H1) H2).
Defined.

(** X6: when every row of the page is selected but the size of the
    selection differs from the number of rows on the page (rows of another
    page are selected as well, or two rows of the page share an id), the
    header checkbox changes nothing: it cannot clear the page. *)
Theorem handleSelectAll_stuck (getRowId : nat → row → value) (st : state) :
  (∀ id, id ∈ imap getRowId (getPaginatedData st) → id ∈ selectedRows st) →
  size (selectedRows st) ≠ length (imap getRowId (getPaginatedData st)) →
  handleSelectAll getRowId st = st.
Proof.
  intros Hall Hsize. unfold handleSelectAll. cbv zeta.
  set (ids := imap getRowId (getPaginatedData st)) in *.
  rewrite (proj2 (Nat.eqb_neq _ _) Hsize). cbn [andb].
  rewrite foldl_union.
  replace (selectedRows st ∪ list_to_set ids) with (selectedRows st)
    by set_solver.
  by destruct st.
Qed.

Lemma handleSelectAll_stuck_witness :
  let st := setSelectedRows {[ Num (ofZ 0); Num (ofZ 7) ]}
              (setFilteredData [∅] initialState) in
  let getRowId := λ (i : nat) (_ : row), Num (ofZ (Z.of_nat i)) in
  (∀ id, id ∈ imap getRowId (getPaginatedData st) → id ∈ selectedRows st)
  ∧ size (selectedRows st) ≠ length (imap getRowId (getPaginatedData st))
  ∧ handleSelectAll getRowId st = st.
Proof.
  intros st getRowId.
  assert (H1 : ∀ id, id ∈ imap getRowId (getPaginatedData st)
                     → id ∈ selectedRows st).
  { intros id Hin.
    change (imap getRowId (getPaginatedData st)) with [Num (ofZ 0)] in Hin.
    apply list_elem_of_singleton in Hin as ->.
    apply elem_of_union_l, elem_of_singleton. reflexivity. }
  assert (H2 : size (selectedRows st)
               ≠ length (imap getRowId (getPaginatedData st))).
  { vm_compute. discriminate. }
  split; [exact H1 |]. split; [exact H2 |].
  exact (handleSelectAll_stuck getRowId st H1 H2).
Defined.

End ManageSourceSelectionFacts.

Module ManageSourceRunFacts.
Import JS JSFacts ListFacts NumberFacts ManageSource.

(** The first column of every configured table is [ID]. *)
Lemma first_column_ID (t : string) :
  t ∈ Object_keys TABLE_CONFIGS →
  ∃ c rest, prop TABLE_CONFIGS t = Some c
            ∧ columns c = col "ID" "ID" "number" :: rest.
Proof.
  intros Hin. change (Object_keys TABLE_CONFIGS)
    with ["InspectionData"; "Machine_Tracking"; "UC_Life_Time"] in Hin.
  repeat (apply elem_of_cons in Hin as [-> | Hin]);
    [do 2 eexists; split; reflexivity .. |].
  by apply elem_of_nil in Hin.
Qed.

(** ** The generated rows *)

Lemma sampleRow_lookup {caseMapping : CaseMapping} random (t : string)
    (cols : list column) (i : Z) (k : string) :
  sampleRow random t cols i !! k
  = if decide (k ∈ key <$> cols) then Some (sampleValue random t k i) else None.
Proof.
  unfold sampleRow.
  induction cols as [| c cols IH] using rev_ind.
  - cbn. rewrite lookup_empty. by rewrite decide_False by set_solver.
  - rewrite foldl_app, fmap_app. cbn [foldl fmap list_fmap].
    destruct (decide (key c = k)) as [<- | Hne].
    + rewrite lookup_insert_eq. by rewrite decide_True by set_solver.
    + rewrite lookup_insert_ne by done. rewrite IH.
      repeat case_decide; set_solver.
Qed.

Lemma ofZ_inj (x y : Z) : ofZ x = ofZ y → x = y.
Proof.
  unfold ofZ. intros H. apply Qc_inject_inj.
  exact (f_equal (λ n, match n with Fin q => q | _ => 0%Qc end) H).
Qed.

Section RunFacts.

Context {caseMapping : CaseMapping}.
Variable numberToString : number → string.
Variable parseFloat dateGetTime : value → number.
Variable typeErrorMessage : string → string.

#[local] Abbreviation getRowId := (getRowId typeErrorMessage).
#[local] Abbreviation loadTableData := (loadTableData typeErrorMessage).
#[local] Abbreviation filterAndSortData :=
  (filterAndSortData numberToString parseFloat dateGetTime typeErrorMessage).
#[local] Abbreviation handleDeleteSelected := (handleDeleteSelected typeErrorMessage).
#[local] Abbreviation reachable :=
  (reachable numberToString parseFloat dateGetTime typeErrorMessage).

Ltac norm_state :=
  cbn [selectedTable tableData filteredData loading selectedRows searchTerm
       sortConfig showDeleteConfirm currentPage rowsPerPage toasts
       setLoading setSelectedRows setTableData setFilteredData pushToast
       setSearchTerm setShowDeleteConfirm sortKey sortDirection
       fst snd success data andb].

(** X7: in every state the page can reach, [getRowId] completes without
    touching the state, and the id of a row is its [ID] cell when that is
    truthy and a fresh [Math.random()] otherwise: the first column of each
    configured table is [ID] again, so the middle alternative never
    supplies an id. *)
Theorem getRowId_reachable (random : number) (r : row) (st : state) :
  reachable st →
  getRowId random r st
  = (Normal (if truthy (cell r "ID") then cell r "ID" else Num random), st).
Proof.
  intros Hr.
  apply ManageSourceFacts.reachable_selectedTable in Hr.
  destruct (first_column_ID _ Hr) as (c & rest & Hc & Hcols).
  unfold ManageSource.getRowId.
  destruct (truthy (cell r "ID")) eqn:Hid; [done |].
  unfold bind, get, configProp, ret. rewrite Hc, Hcols.
  cbn [col key]. by rewrite Hid.
Qed.

(** X8: [handleDeleteSelected] never deletes anything.  With nothing
    selected it only reports 'No rows selected'; otherwise the call of the
    missing [toast.info] throws before the selection is cleared, so the
    handler reports 'Delete Failed', closes the dialog and keeps the
    selection and the rows. *)
Theorem handleDeleteSelected_keeps_rows (st : state) :
  handleDeleteSelected st
  = (Normal tt,
     if decide (selectedRows st = ∅)
     then pushToast (ErrorToast "No rows selected") st
     else setShowDeleteConfirm false (pushToast (ErrorToast "Delete Failed") st))
  ∧ tableData (handleDeleteSelected st).2 = tableData st
  ∧ filteredData (handleDeleteSelected st).2 = filteredData st
  ∧ selectedRows (handleDeleteSelected st).2 = selectedRows st.
Proof.
  assert (Hrun : handleDeleteSelected st
    = (Normal tt,
       if decide (selectedRows st = ∅)
       then pushToast (ErrorToast "No rows selected") st
       else setShowDeleteConfirm false
              (pushToast (ErrorToast "Delete Failed") st))).
  { unfold ManageSource.handleDeleteSelected, bind, get.
    destruct (decide (selectedRows st = ∅)) as [He | Hne].
    - rewrite He, size_empty. reflexivity.
    - destruct (Nat.eqb_spec (size (selectedRows st)) 0) as [Hz | Hnz].
      + by apply size_empty_inv, leibniz_equiv in Hz.
      + reflexivity. }
  split; [exact Hrun |]. rewrite Hrun.
  destruct (decide _); by destruct st.
Qed.

(** X9: a run of [loadTableData] on a configured table completes, whatever
    the network does; it ends with [loading] off and the selection
    cleared, shows exactly one notification, stores the records of an
    accepted answer and no rows otherwise, and leaves the search term, the
    sort order, the page, the page size and the filtered rows as they
    were. *)
Theorem loadTableData_outcome fetch random (st : state) :
  selectedTable st ∈ Object_keys TABLE_CONFIGS →
  (loadTableData fetch random st).1 = Normal tt
  ∧ loading (loadTableData fetch random st).2 = false
  ∧ selectedRows (loadTableData fetch random st).2 = ∅
  ∧ tableData (loadTableData fetch random st).2
    = default [] (acceptedRecords (fetch (loadTableData_request st)))
  ∧ length (toasts (loadTableData fetch random st).2) = S (length (toasts st))
  ∧ (let st' := (loadTableData fetch random st).2 in
     selectedTable st' = selectedTable st
     ∧ filteredData st' = filteredData st
     ∧ searchTerm st' = searchTerm st
     ∧ sortConfig st' = sortConfig st
     ∧ currentPage st' = currentPage st
     ∧ rowsPerPage st' = rowsPerPage st
     ∧ showDeleteConfirm st' = showDeleteConfirm st).
Proof.
  intros Hin.
  destruct (ManageSourceFacts.configured_table _ Hin) as [c Hc].
  rewrite (ManageSourceFacts.loadTableData_run typeErrorMessage fetch random st c Hc).
  destruct (acceptedRecords _) as [records |]; cbn [fst snd default];
    destruct st; norm_state; rewrite ?length_app; cbn [length];
    repeat split; lia.
Qed.

(** X10: [filterAndSortData] never invents, repeats or alters a row.  When
    it completes, only [filteredData] has changed, and it holds rows of
    [tableData], each at most as often as there; with an empty search term
    it holds all of them (sorting drops nothing), and with no sort key
    either it is [tableData] itself, row for row.  It throws only when the
    selected table is not configured, and then the state is untouched. *)
Theorem filterAndSortData_rows (st : state) :
  match filterAndSortData st with
  | (Normal _, st') =>
      st' = setFilteredData (filteredData st') st
      ∧ filteredData st' ⊆+ tableData st
      ∧ (searchTerm st = "" → filteredData st' ≡ₚ tableData st)
      ∧ (searchTerm st = "" → sortKey (sortConfig st) = None →
         filteredData st' = tableData st)
  | (Throw _, st') =>
      st' = st ∧ prop TABLE_CONFIGS (selectedTable st) = None
  end.
Proof.
  destruct st as [t td fd ld sr se [sk sd] sdc cp rp ts].
  unfold ManageSource.filterAndSortData, configProp, bind, get, ret, throw,
    modify.
  generalize (@prop tableConfig TABLE_CONFIGS). intros lookup.
  norm_state.
  assert (Hfilter : ∀ f, se ≠ "" →
            List.filter f td ⊆+ td
            ∧ (se = "" → List.filter f td ≡ₚ td)
            ∧ (se = "" → sk = None → List.filter f td = td)).
  { intros f Hse. split; [apply List_filter_submseteq | done]. }
  assert (Hsorted : ∀ compareFn (rows : list row),
            rows ⊆+ td ∧ (se = "" → rows ≡ₚ td)
            ∧ (se = "" → sk = None → rows = td) →
            ∀ k, sk = Some k →
            sort compareFn rows ⊆+ td
            ∧ (se = "" → sort compareFn rows ≡ₚ td)
            ∧ (se = "" → sk = None → sort compareFn rows = td)).
  { intros compareFn rows (Hsub & Hperm & _) k Hk.
    pose proof (sort_Permutation compareFn rows) as Hs.
    split; [by rewrite Hs |]. split; [| congruence].
    intros He. by rewrite Hs, Hperm. }
  assert (Hsame : td ⊆+ td ∧ (se = "" → td ≡ₚ td)
                  ∧ (se = "" → sk = None → td = td)) by done.
  case_bool_decide as Hse;
    [destruct td as [| r0 td'];
       [| destruct (lookup t) as [c |] eqn:E]; norm_state |];
    (destruct sk as [k |]; [try case_bool_decide |]; norm_state);
    try (destruct (_ <? 2)%nat; norm_state);
    rewrite ?E; norm_state;
    try (destruct (lookup t) as [c' |] eqn:E'; norm_state);
    try (split; [reflexivity | eauto; fail]).
Qed.

(** X11: for each configured table [generateSampleData] returns 1000
    rows; the row at position [n] (counted from 0) holds, for each
    configured column and for nothing else, the value the generator's
    [switch] gives for that column at counter [n + 1]; in particular its
    [ID] is [n + 1], so the ids of the generated rows are pairwise
    distinct. *)
Theorem generateSampleData_rows_shape random (t : string) (st : state) :
  t ∈ Object_keys TABLE_CONFIGS →
  ∃ c data,
    prop TABLE_CONFIGS t = Some c
    ∧ generateSampleData typeErrorMessage random t st = (Normal data, st)
    ∧ length data = 1000
    ∧ (∀ (n : nat) r, data !! n = Some r →
         (∀ k, r !! k
               = if decide (k ∈ key <$> columns c)
                 then Some (sampleValue random t k (Z.of_nat n + 1))
                 else None)
         ∧ cell r "ID" = Num (ofZ (Z.of_nat n + 1)))
    ∧ (∀ (n n' : nat) r r',
         data !! n = Some r → data !! n' = Some r' →
         cell r "ID" = cell r' "ID" → n = n').
Proof.
  intros Hin.
  destruct (first_column_ID t Hin) as (c & rest & Hc & Hcols).
  destruct (ManageSourceFacts.generateSampleData_rows typeErrorMessage random
              t c st Hc) as [Hrun Hlen].
  assert (Hrow : ∀ (n : nat) r,
            (sampleRow random t (columns c) <$> seqZ 1 sampleSize) !! n = Some r →
            (∀ k, r !! k
                  = if decide (k ∈ key <$> columns c)
                    then Some (sampleValue random t k (Z.of_nat n + 1))
                    else None)
            ∧ cell r "ID" = Num (ofZ (Z.of_nat n + 1))).
  { intros n r Hn. apply list_lookup_fmap_Some in Hn as (i & -> & Hi).
    apply lookup_seqZ in Hi as [-> _].
    replace (1 + Z.of_nat n)%Z with (Z.of_nat n + 1)%Z by lia.
    split; [intros k; apply sampleRow_lookup |].
    unfold cell. rewrite sampleRow_lookup, Hcols.
    rewrite decide_True by (cbn; left). reflexivity. }
  exists c, (sampleRow random t (columns c) <$> seqZ 1 sampleSize).
  split; [done |]. split; [done |]. split; [done |]. split; [exact Hrow |].
  intros n n' r r' Hn Hn' Heq.
  destruct (Hrow n r Hn) as [_ H1]. destruct (Hrow n' r' Hn') as [_ H2].
  rewrite H1, H2 in Heq.
  assert (Heq' : ofZ (Z.of_nat n + 1) = ofZ (Z.of_nat n' + 1))
    by exact (f_equal (λ v, match v with Num x => x | _ => NaN end) Heq).
  apply ofZ_inj in Heq'. lia.
Qed.

(** ** Switching to another table *)

Lemma filterAndSortData_plain (st : state) :
  searchTerm st = "" → sortKey (sortConfig st) = None →
  filterAndSortData st = (Normal tt, setFilteredData (tableData st) st).
Proof.
  intros Hs Hk. unfold ManageSource.filterAndSortData, bind, get, ret, modify.
  by rewrite Hs, Hk.
Qed.

(** X12: [handleTableChange] for a configured table followed by the effects
    a switch to another table triggers ([loadTableData], then
    [filterAndSortData], then the reset of the page): the query sent names
    the table clicked, and the page shows the first page of the records of
    an accepted answer, all of them and in the order received (an empty
    table when the answer is not accepted), with the search box empty, no
    sort order and nothing selected. *)
Theorem handleTableChange_shows_loaded_records fetch random
    (tableName : string) (st : state) :
  tableName ∈ Object_keys TABLE_CONFIGS →
  let st1 := handleTableChange tableName st in
  let st2 := (loadTableData fetch random st1).2 in
  let st3 := (filterAndSortData st2).2 in
  let st4 := setCurrentPage 1 st3 in
  query (loadTableData_request st1) = "SELECT TOP 1000 * FROM " +:+ tableName
  ∧ (loadTableData fetch random st1).1 = Normal tt
  ∧ (filterAndSortData st2).1 = Normal tt
  ∧ filteredData st4
    = default [] (acceptedRecords (fetch (loadTableData_request st1)))
  ∧ tableData st4 = filteredData st4
  ∧ selectedTable st4 = tableName
  ∧ searchTerm st4 = ""
  ∧ sortKey (sortConfig st4) = None
  ∧ selectedRows st4 = ∅
  ∧ loading st4 = false
  ∧ ((0 < rowsPerPage st)%Z →
     getPaginatedData st4
     = take (Z.to_nat (rowsPerPage st)) (filteredData st4)).
Proof.
  intros Hin st1 st2 st3 st4.
  destruct (ManageSourceFacts.configured_table _ Hin) as [c Hc].
  assert (Hst2 : (loadTableData fetch random st1).1 = Normal tt
            ∧ tableData st2
              = default [] (acceptedRecords (fetch (loadTableData_request st1)))
            ∧ searchTerm st2 = "" ∧ sortKey (sortConfig st2) = None
            ∧ selectedTable st2 = tableName ∧ selectedRows st2 = ∅
            ∧ loading st2 = false ∧ rowsPerPage st2 = rowsPerPage st).
  { unfold st2.
    rewrite (ManageSourceFacts.loadTableData_run typeErrorMessage fetch random
               st1 c Hc).
    destruct (acceptedRecords _); cbn [fst snd default]; by destruct st. }
  destruct Hst2 as (Hrun & Htd & Hse & Hsk & Ht & Hsel & Hl & Hrpp).
  assert (Hst3 : filterAndSortData st2
                 = (Normal tt, setFilteredData (tableData st2) st2))
    by (by apply filterAndSortData_plain).
  unfold st4, st3. rewrite Hst3. cbn [fst snd].
  cbn [filteredData tableData selectedTable searchTerm sortConfig selectedRows
       loading setCurrentPage setFilteredData].
  rewrite Htd, Hse, Hsk, Ht, Hsel, Hl.
  do 10 (split; [done |]).
  intros Hpos. unfold getPaginatedData.
  cbn [currentPage rowsPerPage filteredData setCurrentPage setFilteredData].
  rewrite Hrpp.
  replace ((1 - 1) * rowsPerPage st + rowsPerPage st)%Z
    with (0 + rowsPerPage st)%Z by lia.
  replace ((1 - 1) * rowsPerPage st)%Z with 0%Z by lia.
  rewrite slice_take_drop by lia. by rewrite drop_0.
Qed.

End RunFacts.

Section GivenInputs.

#[local] Existing Instance sampleCaseMapping.

Lemma getRowId_reachable_witness :
  let typeErrorMessage := λ e, e +:+ " is not a function" in
  let parseFloat := λ v, match v with Num n => n | _ => NaN end in
  reachable (λ _, "0") parseFloat (λ _, NaN) typeErrorMessage initialState
  ∧ getRowId typeErrorMessage (ofZ 0) ∅ initialState
    = (Normal (Num (ofZ 0)), initialState).
Proof.
  intros typeErrorMessage parseFloat.
  assert (H : reachable (λ _, "0") parseFloat (λ _, NaN) typeErrorMessage
                initialState) by apply rtc_refl.
  split; [exact H |].
  exact (getRowId_reachable (λ _, "0") parseFloat (λ _, NaN) typeErrorMessage
           (ofZ 0) ∅ initialState H).
Defined.

Lemma loadTableData_outcome_witness :
  let typeErrorMessage := λ e, e +:+ " is not a function" in
  let fetch := λ _ : request, FetchRejected (mkError "Failed to fetch") in
  let random := λ (_ : string) (_ : Z), Null in
  selectedTable initialState ∈ Object_keys TABLE_CONFIGS
  ∧ (loadTableData typeErrorMessage fetch random initialState).1 = Normal tt
  ∧ loading (loadTableData typeErrorMessage fetch random initialState).2 = false.
Proof.
  intros typeErrorMessage fetch random.
  assert (H : selectedTable initialState ∈ Object_keys TABLE_CONFIGS)
    by apply list_elem_of_here.
  split; [exact H |].
  pose proof (loadTableData_outcome typeErrorMessage fetch random initialState H)
    as (H1 & H2 & _).
  split; [exact H1 | exact H2].
Defined.
Lemma generateSampleData_rows_shape_witness :
  let typeErrorMessage := λ e, e +:+ " is not a function" in
  let random := λ (_ : string) (_ : Z), Null in
  "Machine_Tracking" ∈ Object_keys TABLE_CONFIGS
  ∧ ∃ data,
      generateSampleData typeErrorMessage random "Machine_Tracking" initialState
      = (Normal data, initialState)
      ∧ length data = 1000.
Proof.
  intros typeErrorMessage random.
  assert (H : "Machine_Tracking" ∈ Object_keys TABLE_CONFIGS)
    by (apply list_elem_of_further, list_elem_of_here).
  split; [exact H |].
  destruct (generateSampleData_rows_shape typeErrorMessage random
              "Machine_Tracking" initialState H)
    as (c & data & _ & Hrun & Hlen & _).
  exists data. split; [exact Hrun | exact Hlen].
Defined.

Lemma handleTableChange_shows_loaded_records_witness :
  let numberToString := λ _ : number, "0" in
  let parseFloat := λ v, match v with Num n => n | _ => NaN end in
  let dateGetTime := λ _ : value, NaN in
  let typeErrorMessage := λ e : string, e +:+ " is not a function" in
  let fetch := λ _ : request,
    Response true (inr {| success := true; data := Some [∅; ∅] |}) in
  let random := λ (_ : string) (_ : Z), Null in
  let st1 := handleTableChange "UC_Life_Time" initialState in
  let st2 := (loadTableData typeErrorMessage fetch random st1).2 in
  let st3 := (filterAndSortData numberToString parseFloat dateGetTime
                typeErrorMessage st2).2 in
  "UC_Life_Time" ∈ Object_keys TABLE_CONFIGS
  ∧ filteredData (setCurrentPage 1 st3) = [∅; ∅].
Proof.
  intros numberToString parseFloat dateGetTime typeErrorMessage fetch random
    st1 st2 st3.
  assert (H : "UC_Life_Time" ∈ Object_keys TABLE_CONFIGS)
    by (do 2 apply list_elem_of_further; apply list_elem_of_here).
  split; [exact H |].
  exact (proj1 (proj2 (proj2 (proj2
           (handleTableChange_shows_loaded_records numberToString parseFloat
              dateGetTime typeErrorMessage fetch random "UC_Life_Time"
              initialState H))))).
Defined.

End GivenInputs.

End ManageSourceRunFacts.

Module UploadListFacts.
Import JS JSFacts ListFacts NumberFacts UploadList.

(** ** The [Set] of selected names *)

Lemma Set_has_elem_of (s : JSSet) (x : string) : Set_has s x = true ↔ x ∈ s.
Proof. unfold Set_has. apply bool_decide_eq_true. Qed.

Lemma elem_of_Set_add (s : JSSet) (x y : string) :
  y ∈ Set_add s x ↔ y ∈ s ∨ y = x.
Proof.
  unfold Set_add, Set_has. case_bool_decide.
  - split; [by left | by intros [? | ->]].
  - rewrite elem_of_app, list_elem_of_singleton. done.
Qed.

Lemma NoDup_Set_add (s : JSSet) (x : string) : NoDup s → NoDup (Set_add s x).
Proof.
  intros Hs. unfold Set_add, Set_has. case_bool_decide; [done |].
  apply NoDup_app. split; [done |]. split.
  - intros y Hy ->%list_elem_of_singleton. done.
  - apply NoDup_singleton.
Qed.

Lemma foldl_Set_add (l : list string) (s : JSSet) :
  NoDup s →
  NoDup (foldl Set_add s l)
  ∧ (∀ y, y ∈ foldl Set_add s l ↔ y ∈ s ∨ y ∈ l)
  ∧ (length (foldl Set_add s l) ≤ length s + length l)%nat
  ∧ (length (foldl Set_add s l) = (length s + length l)%nat
     ↔ NoDup l ∧ ∀ y, y ∈ l → y ∉ s).
Proof.
  revert s. induction l as [| x l IH]; intros s Hs; cbn [foldl length].
  - split; [done |]. split; [set_solver |]. split; [lia |].
    split; [intros _; split; [constructor | set_solver] | lia].
  - destruct (IH (Set_add s x) (NoDup_Set_add s x Hs)) as (Hnd & Hin & Hle & Heq).
    assert (Hlen : (length (Set_add s x) ≤ S (length s))%nat
                   ∧ (length (Set_add s x) = S (length s) ↔ x ∉ s)).
    { unfold Set_add, Set_has. case_bool_decide.
      - split; [lia |]. split; [lia | done].
      - rewrite length_app. cbn [length]. split; [lia |]. split; [done | lia]. }
    destruct Hlen as [Hle1 Heq1].
    split; [done |]. split; [| split].
    + intros y. rewrite Hin, elem_of_Set_add, elem_of_cons. tauto.
    + lia.
    + split.
      * intros Hlen.
        assert (H1 : length (Set_add s x) = S (length s)) by lia.
        assert (H2 : length (foldl Set_add (Set_add s x) l)
                     = (length (Set_add s x) + length l)%nat) by lia.
        apply Heq in H2 as [Hndl Hfresh]. apply Heq1 in H1.
        split.
        -- constructor; [| done]. intros Hx.
           apply (Hfresh x Hx), elem_of_Set_add. by right.
        -- intros y [-> | Hy]%elem_of_cons; [done |].
           intros Hys. apply (Hfresh y Hy), elem_of_Set_add. by left.
      * intros [Hndl Hfresh]. apply NoDup_cons in Hndl as [Hx Hndl].
        assert (H1 : x ∉ s) by (apply Hfresh; left).
        apply Heq1 in H1.
        assert (H2 : length (foldl Set_add (Set_add s x) l)
                     = (length (Set_add s x) + length l)%nat).
        { apply Heq. split; [done |]. intros y Hy.
          rewrite elem_of_Set_add. intros [Hys | ->]; [| done].
          apply (Hfresh y); [by right | done]. }
        lia.
Qed.

Lemma Set_of_spec (l : list string) :
  NoDup (Set_of l)
  ∧ (∀ y, y ∈ Set_of l ↔ y ∈ l)
  ∧ (length (Set_of l) = length l ↔ NoDup l).
Proof.
  destruct (foldl_Set_add l [] (NoDup_nil_2)) as (Hnd & Hin & _ & Heq).
  split; [done |]. split.
  - intros y. rewrite (Hin y). set_solver.
  - unfold Set_of. cbn [length] in Heq. rewrite Heq. set_solver.
Qed.

(** ** Filtering and sorting *)

Lemma signOf_nonpos (q : Qc) : (signOf q <=? 0)%Z = negb (bool_decide (0 < q)%Qc).
Proof.
  unfold signOf. destruct (q ?= 0)%Qc eqn:E.
  - apply Qceq_alt in E as ->. by rewrite bool_decide_eq_false_2.
  - apply Qclt_alt in E. rewrite bool_decide_eq_false_2; [done |].
    intros H. exact (Qclt_not_le _ _ H (Qclt_le_weak _ _ E)).
  - apply Qcgt_alt in E. by rewrite bool_decide_eq_true_2.
Qed.

(** Sorting by a numeric key, in one direction or the other. *)
Section SortByKey.

Variable key : fileInfo → Qc.
Variable ord : order.
Variable compareFn : fileInfo → fileInfo → Z.

Hypothesis compareFn_key :
  ∀ a b, compareFn a b
         = signOf (if ord is asc then key a - key b else - (key a - key b))%Qc.

#[local] Abbreviation lt :=
  (λ a b : fileInfo,
     if ord is asc then bool_decide (key a < key b)%Qc
     else bool_decide (key b < key a)%Qc).

Lemma lt_key_irrefl (a : fileInfo) : lt a a = false.
Proof.
  destruct ord; apply bool_decide_eq_false_2, Qc_lt_irrefl.
Qed.

Lemma lt_key_trans (a b c : fileInfo) :
  lt a b = true → lt b c = true → lt a c = true.
Proof.
  destruct ord; rewrite !bool_decide_eq_true; intros H1 H2.
  - by apply Qclt_trans with (key b).
  - by apply Qclt_trans with (key b).
Qed.

Lemma lt_key_cotrans (a b c : fileInfo) :
  lt a c = true → lt a b = true ∨ lt b c = true.
Proof.
  destruct ord; rewrite !bool_decide_eq_true; intros H.
  - destruct (Qclt_le_dec (key a) (key b)) as [Hlt | Hle]; [by left | right].
    by apply Qcle_lt_trans with (key a).
  - destruct (Qclt_le_dec (key b) (key a)) as [Hlt | Hle]; [by left | right].
    by apply Qclt_le_trans with (key a).
Qed.

Lemma compareFn_key_sign (a b : fileInfo) :
  (compareFn a b <=? 0)%Z = negb (lt b a).
Proof.
  rewrite compareFn_key, signOf_nonpos. f_equal.
  destruct ord; apply bool_decide_ext.
  - apply Qc_sub_pos.
  - rewrite Qc_opp_sub. apply Qc_sub_pos.
Qed.

Lemma tied_key (x a : fileInfo) :
  tied lt x a = bool_decide (key a = key x).
Proof.
  unfold tied. apply eq_true_iff_eq.
  rewrite andb_true_iff, !negb_true_iff, bool_decide_eq_true.
  destruct ord; rewrite !bool_decide_eq_false; split.
  - intros [H1 H2]. apply Qcle_antisym; by apply Qcnot_lt_le.
  - intros ->. split; apply Qc_lt_irrefl.
  - intros [H1 H2]. apply Qcle_antisym; by apply Qcnot_lt_le.
  - intros ->. split; apply Qc_lt_irrefl.
Qed.

Lemma sort_by_key (l : list fileInfo) :
  (∀ (i j : nat) a b,
     (i < j)%nat → sort compareFn l !! i = Some a →
     sort compareFn l !! j = Some b →
     if ord is asc then key a <= key b else key b <= key a)%Qc
  ∧ (∀ k, List.filter (λ a, bool_decide (key a = k)) (sort compareFn l)
          = List.filter (λ a, bool_decide (key a = k)) l).
Proof.
  split.
  - intros i j a b Hij Ha Hb.
    pose proof (sort_ordered lt compareFn lt_key_irrefl lt_key_trans
                  lt_key_cotrans compareFn_key_sign l) as Hord.
    pose proof (ordered_lookup lt _ i j a b Hord Hij Ha Hb) as Hlt.
    destruct ord; apply bool_decide_eq_false in Hlt; by apply Qcnot_lt_le.
  - intros k.
    destruct (decide (Exists (λ x, key x = k) l))
      as [(x & _ & <-)%Exists_exists | Hnone].
    + transitivity (List.filter (tied lt x) (sort compareFn l)).
      { apply filter_ext. intros a. symmetry. apply tied_key. }
      rewrite (sort_stable lt compareFn lt_key_cotrans compareFn_key_sign x l).
      apply filter_ext. intros a. apply tied_key.
    + assert (Hempty : ∀ l' : list fileInfo, (∀ a, a ∈ l' → a ∈ l) →
                List.filter (λ a, bool_decide (key a = k)) l' = []).
      { induction l' as [| a l' IH]; intros Hsub; [done |].
        cbn [List.filter]. rewrite bool_decide_eq_false_2.
        - apply IH. intros a' Ha'. apply Hsub. by right.
        - intros Hk. apply Hnone, Exists_exists. exists a.
          split; [apply Hsub; left | done]. }
      rewrite (Hempty l) by done. apply Hempty.
      intros a Ha. by rewrite (sort_Permutation compareFn l) in Ha.
Qed.

End SortByKey.

Section RuntimeFacts.

Context {caseMapping : CaseMapping}.
Variable dateValue : Qc → number.
Variable startOfDay endOfDay : string → number.
Variable localeCompare : string → string → Z.

#[local] Abbreviation keepsFile := (keepsFile dateValue startOfDay endOfDay).
#[local] Abbreviation compareFiles := (compareFiles localeCompare).
#[local] Abbreviation filteredFiles :=
  (filteredFiles dateValue startOfDay endOfDay localeCompare).
#[local] Abbreviation currentFiles :=
  (currentFiles dateValue startOfDay endOfDay localeCompare).
#[local] Abbreviation totalPages :=
  (totalPages dateValue startOfDay endOfDay localeCompare).
#[local] Abbreviation pageNum :=
  (pageNum dateValue startOfDay endOfDay localeCompare).
#[local] Abbreviation pageNumbers :=
  (pageNumbers dateValue startOfDay endOfDay localeCompare).
#[local] Abbreviation handleSelectAll :=
  (handleSelectAll dateValue startOfDay endOfDay localeCompare).
#[local] Abbreviation selectAllChecked :=
  (selectAllChecked dateValue startOfDay endOfDay localeCompare).

Lemma filteredFiles_Permutation (st : state) :
  filteredFiles st ≡ₚ List.filter (keepsFile st) (files st).
Proof. apply sort_Permutation. Qed.

(** X13: the files shown are the loaded files that pass the filters, each
    as often as it was loaded, whatever the sort order; and with a
    non-blank object filter every file shown has a metadata entry with an
    object whose lower-cased label contains the trimmed, lower-cased
    filter text, so nothing is shown while no metadata is loaded. *)
Theorem filteredFiles_filter (st : state) :
  filteredFiles st ≡ₚ List.filter (keepsFile st) (files st)
  ∧ (∀ file, file ∈ filteredFiles st
             ↔ file ∈ files st ∧ keepsFile st file = true)
  ∧ (trim (objectFilter st) ≠ "" →
     (∀ file, file ∈ filteredFiles st →
        ∃ metadata objs obj,
          uploadsMetadata st !! filename file = Some metadata
          ∧ objects metadata = Some objs
          ∧ obj ∈ objs
          ∧ includes (toLowerCase (label obj))
              (trim (toLowerCase (objectFilter st))) = true)
     ∧ (uploadsMetadata st = ∅ → filteredFiles st = [])).
Proof.
  assert (Hin : ∀ file, file ∈ filteredFiles st
                        ↔ file ∈ files st ∧ keepsFile st file = true).
  { intros file. rewrite filteredFiles_Permutation. apply elem_of_List_filter. }
  assert (Hobj : trim (objectFilter st) ≠ "" →
            ∀ file, file ∈ filteredFiles st →
              ∃ metadata objs obj,
                uploadsMetadata st !! filename file = Some metadata
                ∧ objects metadata = Some objs
                ∧ obj ∈ objs
                ∧ includes (toLowerCase (label obj))
                    (trim (toLowerCase (objectFilter st))) = true).
  { intros Hne file [_ Hkeep]%Hin.
    unfold UploadList.keepsFile in Hkeep. cbv zeta in Hkeep.
    destruct (_ && _); [done |].
    destruct (String.eqb_spec (trim (objectFilter st)) "") as [|_]; [done |].
    cbn [negb] in Hkeep.
    destruct (uploadsMetadata st !! filename file) as [metadata |]; [| done].
    destruct (objects metadata) as [objs |] eqn:Eo; [| done].
    apply existsb_exists in Hkeep as (obj & Hobj%list_elem_of_In & Hinc).
    by exists metadata, objs, obj. }
  split; [apply filteredFiles_Permutation |]. split; [exact Hin |].
  intros Hne. split; [by apply Hobj |].
  intros Hempty. destruct (filteredFiles st) as [| file l] eqn:E; [done |].
  destruct (Hobj Hne file ltac:(left)) as (metadata & _ & _ & Hm & _).
  by rewrite Hempty in Hm.
Qed.

Lemma compareFiles_date (ord : order) (a b : fileInfo) :
  compareFiles "date" ord a b
  = signOf (if ord is asc then modified a - modified b
            else - (modified a - modified b))%Qc.
Proof. reflexivity. Qed.

Lemma compareFiles_size (ord : order) (a b : fileInfo) :
  compareFiles "size" ord a b
  = signOf (if ord is asc
            then Q2Qc (inject_Z (size a)) - Q2Qc (inject_Z (size b))
            else - (Q2Qc (inject_Z (size a)) - Q2Qc (inject_Z (size b))))%Qc.
Proof.
  unfold UploadList.compareFiles, comparison. cbn [String.eqb Ascii.eqb].
  by rewrite Qc_inject_sub.
Qed.

(** X14: sorted by date, the files shown never decrease in modification
    time from one position to the next when the order is ascending, and
    never increase when it is descending; files with the same modification
    time keep the order in which they were loaded.  The same holds for
    the size when sorted by size. *)
Theorem filteredFiles_sorted (st : state) :
  (sortBy st = "date" →
     (∀ (i j : nat) a b,
        (i < j)%nat → filteredFiles st !! i = Some a →
        filteredFiles st !! j = Some b →
        if sortOrder st is asc then (modified a <= modified b)%Qc
        else (modified b <= modified a)%Qc)
     ∧ (∀ t, List.filter (λ f, bool_decide (modified f = t)) (filteredFiles st)
             = List.filter (λ f, bool_decide (modified f = t))
                 (List.filter (keepsFile st) (files st))))
  ∧ (sortBy st = "size" →
     (∀ (i j : nat) a b,
        (i < j)%nat → filteredFiles st !! i = Some a →
        filteredFiles st !! j = Some b →
        if sortOrder st is asc then (size a ≤ size b)%Z
        else (size b ≤ size a)%Z)
     ∧ (∀ n, List.filter (λ f, bool_decide (size f = n)) (filteredFiles st)
             = List.filter (λ f, bool_decide (size f = n))
                 (List.filter (keepsFile st) (files st)))).
Proof.
  unfold UploadList.filteredFiles. split; intros ->.
  - apply (sort_by_key modified (sortOrder st)), compareFiles_date.
  - destruct (sort_by_key (λ f, Q2Qc (inject_Z (size f))) (sortOrder st)
                (compareFiles "size" (sortOrder st))
                (compareFiles_size (sortOrder st))
                (List.filter (keepsFile st) (files st))) as [Hord Hstable].
    split.
    + intros i j a b Hij Ha Hb. specialize (Hord i j a b Hij Ha Hb).
      destruct (sortOrder st); by apply Qc_inject_le.
    + intros n.
      assert (Hext : ∀ l : list fileInfo,
                List.filter (λ f, bool_decide (size f = n)) l
                = List.filter
                    (λ f, bool_decide (Q2Qc (inject_Z (size f))
                                       = Q2Qc (inject_Z n))) l).
      { intros l. apply filter_ext. intros f. apply bool_decide_ext.
        symmetry. apply Qc_inject_inj. }
      rewrite !Hext. apply Hstable.
Qed.

(** ** The page shown *)

(** X15: for a page number of at least 1 and a positive page size, the
    page shown holds at most [itemsPerPage] files, its [i]-th file is file
    [(currentPage-1)*itemsPerPage + i] of the filtered and sorted list,
    and the pages 1 to [totalPages] put one after the other are that list
    again: every file that passes the filters is on exactly one page. *)
Theorem currentFiles_partition (st : state) :
  (1 ≤ currentPage st)%Z → (0 < itemsPerPage st)%Z →
  (Z.of_nat (length (currentFiles st)) ≤ itemsPerPage st)%Z
  ∧ (∀ i : nat,
       currentFiles st !! i
       = if decide (Z.of_nat i < itemsPerPage st)%Z
         then filteredFiles st
                !! (Z.to_nat ((currentPage st - 1) * itemsPerPage st) + i)%nat
         else None)
  ∧ concat ((λ p, currentFiles (setCurrentPage p st))
              <$> seqZ 1 (totalPages st))
    = filteredFiles st.
Proof.
  intros Hp Hr.
  assert (Hslice : ∀ p, (1 ≤ p)%Z →
            currentFiles (setCurrentPage p st)
            = take (Z.to_nat (itemsPerPage st))
                (drop (Z.to_nat ((p - 1) * itemsPerPage st)) (filteredFiles st))).
  { intros p Hp'. unfold UploadList.currentFiles. cbv zeta.
    cbn [currentPage itemsPerPage setCurrentPage].
    rewrite slice_take_drop by nia. reflexivity. }
  assert (Hme : currentFiles st
            = take (Z.to_nat (itemsPerPage st))
                (drop (Z.to_nat ((currentPage st - 1) * itemsPerPage st))
                   (filteredFiles st))).
  { unfold UploadList.currentFiles. cbv zeta. apply slice_take_drop; nia. }
  split; [| split].
  - rewrite Hme, length_take. lia.
  - intros i. rewrite Hme. case_decide as Hi.
    + rewrite lookup_take_lt by lia. by rewrite lookup_drop.
    + apply lookup_take_ge. lia.
  - unfold UploadList.totalPages.
    destruct (ManageSourceFacts.ceil_pages_cover
                (Z.of_nat (length (filteredFiles st)))
                (itemsPerPage st) ltac:(lia) Hr) as [Hnn Hcover].
    set (m := (- (- Z.of_nat (length (filteredFiles st)) / itemsPerPage st))%Z)
      in *.
    rewrite ManageSourceFacts.seqZ_pages, <- list_fmap_compose.
    rewrite (list_fmap_ext _
               (λ i, take (Z.to_nat (itemsPerPage st))
                       (drop (i * Z.to_nat (itemsPerPage st))
                          (filteredFiles st)))).
    + rewrite concat_windows. apply take_ge. nia.
    + intros i x _. cbn [compose]. rewrite Hslice by lia. do 2 f_equal. nia.
Qed.

(** ** The numbered page buttons *)

(** X16: on an existing page, the numbered buttons show
    [min(totalPages, 5)] consecutive page numbers, all of them existing
    pages and none twice, and the current page is one of them. *)
Theorem pageNumbers_window (st : state) :
  (1 ≤ currentPage st ≤ totalPages st)%Z →
  ∃ first,
    pageNumbers st = seqZ first (Z.min (totalPages st) 5)
    ∧ (1 ≤ first)%Z
    ∧ (first + Z.min (totalPages st) 5 - 1 ≤ totalPages st)%Z
    ∧ currentPage st ∈ pageNumbers st
    ∧ NoDup (pageNumbers st).
Proof.
  intros Hcp.
  assert (Hshift : ∀ first,
            (∀ i, pageNum st i = first + i)%Z →
            pageNumbers st = seqZ first (Z.min (totalPages st) 5)).
  { intros first Hi. unfold UploadList.pageNumbers.
    replace (seqZ first (Z.min (totalPages st) 5))
      with (seqZ (first + 0) (Z.min (totalPages st) 5)) by (f_equal; lia).
    rewrite <- fmap_add_seqZ.
    apply list_fmap_ext. intros _ i _. apply Hi. }
  assert (Hex : ∃ first,
            (∀ i, pageNum st i = first + i)%Z
            ∧ (1 ≤ first)%Z
            ∧ (first + Z.min (totalPages st) 5 - 1 ≤ totalPages st)%Z
            ∧ (first ≤ currentPage st < first + Z.min (totalPages st) 5)%Z).
  { unfold UploadList.pageNum.
    destruct (Z.leb_spec (totalPages st) 5);
      [exists 1%Z; split; [intros; lia | lia] |].
    destruct (Z.leb_spec (currentPage st) 3);
      [exists 1%Z; split; [intros; lia | lia] |].
    destruct (Z.leb_spec (totalPages st - 2) (currentPage st)).
    - exists (totalPages st - 4)%Z. split; [intros; lia | lia].
    - exists (currentPage st - 2)%Z. split; [intros; lia | lia]. }
  destruct Hex as (first & Hi & H1 & H2 & H3).
  exists first. rewrite (Hshift first Hi).
  split; [done |]. split; [done |]. split; [done |]. split.
  - apply elem_of_seqZ. lia.
  - apply NoDup_seqZ.
Qed.

(** ** Selecting the page *)

Lemma currentFiles_setSelectedFiles (s : JSSet) (st : state) :
  currentFiles (setSelectedFiles s st) = currentFiles st.
Proof. reflexivity. Qed.

(** X17: ticking the select-all box selects exactly the files of the page
    shown; afterwards the box shows as ticked exactly when the page has a
    file and no two of its files share a name.  Unticking it empties the
    selection, and the box then shows as unticked. *)
Theorem handleSelectAll_checkbox (st : state) :
  (∀ name, Set_has (selectedFiles (handleSelectAll true st)) name = true
           ↔ name ∈ filename <$> currentFiles st)
  ∧ (selectAllChecked (handleSelectAll true st) = true
     ↔ currentFiles st ≠ [] ∧ NoDup (filename <$> currentFiles st))
  ∧ selectedFiles (handleSelectAll false st) = []
  ∧ selectAllChecked (handleSelectAll false st) = false.
Proof.
  destruct (Set_of_spec (filename <$> currentFiles st)) as (_ & Hin & Hlen).
  split; [| split; [| split]].
  - intros name. rewrite Set_has_elem_of. apply Hin.
  - unfold UploadList.selectAllChecked, UploadList.handleSelectAll.
    rewrite currentFiles_setSelectedFiles.
    cbn [selectedFiles setSelectedFiles].
    rewrite andb_true_iff, Nat.eqb_eq, Nat.ltb_lt.
    rewrite <- Hlen, length_fmap.
    split; intros [H1 H2]; split; try done.
    + intros E. rewrite E in H2. cbn [length] in H2. lia.
    + destruct (currentFiles st); [done | cbn [length]; lia].
  - reflexivity.
  - unfold UploadList.selectAllChecked, UploadList.handleSelectAll.
    rewrite currentFiles_setSelectedFiles.
    cbn [selectedFiles setSelectedFiles length].
    by destruct (currentFiles st).
Qed.

(** ** Deleting the files of the last page *)

Lemma filteredFiles_setFiles (fs : list fileInfo) (st st' : state) :
  dateFilter st' = dateFilter st → objectFilter st' = objectFilter st →
  uploadsMetadata st' = uploadsMetadata st →
  sortBy st' = sortBy st → sortOrder st' = sortOrder st →
  files st' = fs →
  filteredFiles st'
  = sort (compareFiles (sortBy st) (sortOrder st))
      (List.filter (keepsFile st) fs).
Proof.
  intros H1 H2 H3 H4 H5 H6.
  unfold UploadList.filteredFiles. rewrite H4, H5, H6. f_equal.
  apply filter_ext. intros f. unfold UploadList.keepsFile.
  by rewrite H1, H2, H3.
Qed.

(** X18: when the files of the last page are all selected and deleted and
    the reloaded list is the old one without them, [confirmDelete] clears
    the selection but keeps the page number: the page shown lies one
    beyond the new last page and lists no file, although (unless it was
    page 1) files remain. *)
Theorem confirmDelete_last_page deleteFiles getUploadedFiles (st : state) (n : Z) :
  (0 < itemsPerPage st)%Z →
  (1 ≤ currentPage st)%Z →
  currentPage st = totalPages st →
  NoDup (filename <$> files st) →
  (∀ name, name ∈ selectedFiles st ↔ name ∈ filename <$> currentFiles st) →
  deleteFiles (selectedFiles st) = DeleteResolved n →
  (0 < n)%Z →
  getUploadedFiles
  = FilesResolved
      (Some (List.filter
               (λ f, negb (Set_has (selectedFiles st) (filename f)))
               (files st))) →
  let st' := confirmDelete deleteFiles getUploadedFiles st in
  selectedFiles st' = []
  ∧ currentPage st' = currentPage st
  ∧ totalPages st' = (currentPage st - 1)%Z
  ∧ currentFiles st' = []
  ∧ ((1 < currentPage st)%Z → filteredFiles st' ≠ []).
Proof.
  intros Hipp Hcp Hlast Hnd Hsel Hdel Hn Hget st'.
  set (notSel := λ f, negb (Set_has (selectedFiles st) (filename f))) in *.
  set (F := filteredFiles st).
  set (k := Z.to_nat ((currentPage st - 1) * itemsPerPage st)).
  (* the state after the run *)
  assert (Hst' : st' = setIsDeleting false
            (loadFiles getUploadedFiles
               (setSelectedFiles []
                  (pushToast
                     (SuccessToast
                        ("Delete success: " +:+ stringOfZ n +:+ " file"
                         +:+ (if (n =? 1)%Z then "" else "s") +:+ " deleted"))
                     (setShowDeleteConfirm false (setIsDeleting true st)))))).
  { unfold st', confirmDelete. cbv zeta. rewrite Hdel.
    by rewrite (proj2 (Z.ltb_lt 0 n) Hn). }
  assert (HF' : filteredFiles st'
            = sort (compareFiles (sortBy st) (sortOrder st))
                (List.filter (keepsFile st) (List.filter notSel (files st)))).
  { apply filteredFiles_setFiles; rewrite Hst', Hget; reflexivity. }
  assert (Hcp' : currentPage st' = currentPage st)
    by (rewrite Hst', Hget; reflexivity).
  assert (Hipp' : itemsPerPage st' = itemsPerPage st)
    by (rewrite Hst', Hget; reflexivity).
  assert (Hsel' : selectedFiles st' = [])
    by (rewrite Hst', Hget; reflexivity).
  (* the old page is the tail of the old list *)
  assert (Hlen : (Z.of_nat k < Z.of_nat (length F)
                  ≤ Z.of_nat k + itemsPerPage st)%Z).
  { unfold UploadList.totalPages in Hlast. fold F in Hlast.
    pose proof (Z.div_mod (- Z.of_nat (length F)) (itemsPerPage st)
                  ltac:(lia)) as Hdm.
    pose proof (Z.mod_pos_bound (- Z.of_nat (length F)) (itemsPerPage st)
                  Hipp) as Hb.
    unfold k. nia. }
  assert (Hcur : currentFiles st = drop k F).
  { unfold UploadList.currentFiles. cbv zeta.
    rewrite slice_take_drop by nia. fold F k.
    apply take_ge. rewrite length_drop. lia. }
  (* names are unique among the files shown *)
  assert (HndF : NoDup (filename <$> F)).
  { eapply NoDup_Permutation_proper;
      [apply fmap_Permutation, filteredFiles_Permutation |].
    eapply sublist_NoDup; [exact Hnd |].
    apply fmap_sublist, List_filter_sublist. }
  rewrite <- (take_drop k F), fmap_app in HndF.
  apply NoDup_app in HndF as (_ & Hdisj & _).
  (* what is left of the files shown *)
  assert (Hleft : List.filter notSel F = take k F).
  { rewrite <- (take_drop k F) at 1. rewrite List.filter_app.
    rewrite (List_filter_all notSel (take k F)).
    - rewrite (List_filter_none notSel (drop k F)); [by rewrite app_nil_r |].
      intros f Hf. unfold notSel. apply negb_false_iff, Set_has_elem_of.
      apply Hsel. rewrite Hcur. by apply list_elem_of_fmap_2.
    - intros f Hf. unfold notSel. apply negb_true_iff.
      apply not_true_iff_false. rewrite Set_has_elem_of, Hsel, Hcur.
      apply Hdisj. by apply list_elem_of_fmap_2. }
  assert (HlenF' : length (filteredFiles st') = k).
  { rewrite HF', (sort_Permutation _ _), List_filter_comm.
    rewrite (List_filter_Permutation notSel _ F)
      by (symmetry; apply filteredFiles_Permutation).
    rewrite Hleft, length_take. lia. }
  split; [exact Hsel' |]. split; [exact Hcp' |]. split; [| split].
  - unfold UploadList.totalPages. rewrite HlenF', Hipp'. unfold k.
    rewrite Z2Nat.id by nia.
    rewrite <- Z.mul_opp_l, Z.div_mul by lia. lia.
  - unfold UploadList.currentFiles. cbv zeta. rewrite Hcp', Hipp'.
    rewrite slice_take_drop by nia. fold k.
    rewrite drop_ge by lia. apply take_nil.
  - intros H1 E. rewrite E in HlenF'. cbn [length] in HlenF'. unfold k in *. nia.
Qed.

End RuntimeFacts.

(** ** The theorems at concrete inputs

    Two files, the older one listed first; dates that render to their
    millisecond count, day bounds that never parse, a [localeCompare]
    that holds all names equal, and the case mapping
    [sampleCaseMapping]. *)

Section GivenInputs.

#[local] Existing Instance sampleCaseMapping.

Lemma filteredFiles_filter_witness :
  let dateValue := λ t : Qc, Fin (t * Q2Qc 1000) in
  let dayBound := λ _ : string, NaN in
  let localeCompare := λ _ _ : string, 0%Z in
  let st := setObjectFilter " excavator "
              (setFiles [ {| filename := "a.png"; size := 10; modified := 1%Qc |} ]
                 initialState) in
  trim (objectFilter st) ≠ ""
  ∧ uploadsMetadata st = ∅
  ∧ filteredFiles dateValue dayBound dayBound localeCompare st = [].
Proof.
  intros dateValue dayBound localeCompare st.
  assert (H1 : trim (objectFilter st) ≠ "") by (vm_compute; discriminate).
  assert (H2 : uploadsMetadata st = ∅) by reflexivity.
  split; [exact H1 |]. split; [exact H2 |].
  exact (proj2 (proj2 (proj2 (filteredFiles_filter dateValue dayBound dayBound
                                localeCompare st)) H1) H2).
Defined.

Lemma filteredFiles_sorted_witness :
  let dateValue := λ t : Qc, Fin (t * Q2Qc 1000) in
  let dayBound := λ _ : string, NaN in
  let localeCompare := λ _ _ : string, 0%Z in
  let old := {| filename := "a.png"; size := 10; modified := 1%Qc |} in
  let new := {| filename := "b.png"; size := 20; modified := Q2Qc 2 |} in
  let st := setFiles [old; new] initialState in
  sortBy st = "date"
  ∧ (filteredFiles dateValue dayBound dayBound localeCompare st !! 0%nat = Some new →
     filteredFiles dateValue dayBound dayBound localeCompare st !! 1%nat = Some old →
     (modified old <= modified new)%Qc).
Proof.
  intros dateValue dayBound localeCompare old new st.
  assert (H : sortBy st = "date") by reflexivity.
  split; [exact H |].
  exact (proj1 (proj1 (filteredFiles_sorted dateValue dayBound dayBound
                         localeCompare st) H)
           0%nat 1%nat new old (Nat.lt_0_1)).
Defined.

Lemma currentFiles_partition_witness :
  let dateValue := λ t : Qc, Fin (t * Q2Qc 1000) in
  let dayBound := λ _ : string, NaN in
  let localeCompare := λ _ _ : string, 0%Z in
  let old := {| filename := "a.png"; size := 10; modified := 1%Qc |} in
  let new := {| filename := "b.png"; size := 20; modified := Q2Qc 2 |} in
  let st := setItemsPerPage 1 (setFiles [old; new] initialState) in
  (1 ≤ currentPage st)%Z ∧ (0 < itemsPerPage st)%Z
  ∧ concat ((λ p, currentFiles dateValue dayBound dayBound localeCompare
                    (setCurrentPage p st))
              <$> seqZ 1 (totalPages dateValue dayBound dayBound
                            localeCompare st))
    = filteredFiles dateValue dayBound dayBound localeCompare st.
Proof.
  intros dateValue dayBound localeCompare old new st.
  assert (H1 : (1 ≤ currentPage st)%Z) by (cbn; lia).
  assert (H2 : (0 < itemsPerPage st)%Z) by (cbn; lia).
  split; [exact H1 |]. split; [exact H2 |].
  exact (proj2 (proj2 (currentFiles_partition dateValue dayBound dayBound
                         localeCompare st H1 H2))).
Defined.

Lemma pageNumbers_window_witness :
  let dateValue := λ t : Qc, Fin (t * Q2Qc 1000) in
  let dayBound := λ _ : string, NaN in
  let localeCompare := λ _ _ : string, 0%Z in
  let old := {| filename := "a.png"; size := 10; modified := 1%Qc |} in
  let new := {| filename := "b.png"; size := 20; modified := Q2Qc 2 |} in
  let st := setCurrentPage 2 (setItemsPerPage 1 (setFiles [old; new] initialState)) in
  (1 ≤ currentPage st
   ≤ totalPages dateValue dayBound dayBound localeCompare st)%Z
  ∧ currentPage st ∈ pageNumbers dateValue dayBound dayBound localeCompare st.
Proof.
  intros dateValue dayBound localeCompare old new st.
  assert (H : (1 ≤ currentPage st
               ≤ totalPages dateValue dayBound dayBound localeCompare st)%Z)
    by (split; vm_compute; discriminate).
  split; [exact H |].
  destruct (pageNumbers_window dateValue dayBound dayBound localeCompare st H)
    as (first & _ & _ & _ & Hin & _).
  exact Hin.
Defined.

Lemma confirmDelete_last_page_witness :
  let dateValue := λ t : Qc, Fin (t * Q2Qc 1000) in
  let dayBound := λ _ : string, NaN in
  let localeCompare := λ _ _ : string, 0%Z in
  let old := {| filename := "a.png"; size := 10; modified := 1%Qc |} in
  let new := {| filename := "b.png"; size := 20; modified := Q2Qc 2 |} in
  let st := setSelectedFiles ["a.png"]
              (setCurrentPage 2
                 (setItemsPerPage 1 (setFiles [old; new] initialState))) in
  let deleteFiles := λ names : list string,
    DeleteResolved (Z.of_nat (length names)) in
  let getUploadedFiles := FilesResolved (Some [new]) in
  let st' := confirmDelete deleteFiles getUploadedFiles st in
  currentPage st' = 2%Z
  ∧ totalPages dateValue dayBound dayBound localeCompare st' = 1%Z
  ∧ currentFiles dateValue dayBound dayBound localeCompare st' = []
  ∧ filteredFiles dateValue dayBound dayBound localeCompare st' ≠ [].
Proof.
  intros dateValue dayBound localeCompare old new st deleteFiles
    getUploadedFiles st'.
  assert (Hcur : currentFiles dateValue dayBound dayBound localeCompare st
                 = [old]) by (vm_compute; reflexivity).
  assert (H1 : (0 < itemsPerPage st)%Z) by (vm_compute; reflexivity).
  assert (H2 : (1 ≤ currentPage st)%Z) by (vm_compute; discriminate).
  assert (H3 : currentPage st
               = totalPages dateValue dayBound dayBound localeCompare st)
    by (vm_compute; reflexivity).
  assert (H4 : NoDup (filename <$> files st)).
  { change (filename <$> files st) with ["a.png"; "b.png"].
    repeat constructor; set_solver. }
  assert (H5 : ∀ name, name ∈ selectedFiles st
                 ↔ name ∈ filename
                      <$> currentFiles dateValue dayBound dayBound
                            localeCompare st)
    by (intros name; rewrite Hcur; reflexivity).
  assert (H6 : deleteFiles (selectedFiles st) = DeleteResolved 1)
    by reflexivity.
  assert (H7 : (0 < 1)%Z) by lia.
  assert (H8 : getUploadedFiles
               = FilesResolved
                   (Some (List.filter
                            (λ f, negb (Set_has (selectedFiles st) (filename f)))
                            (files st)))) by (vm_compute; reflexivity).
  destruct (confirmDelete_last_page dateValue dayBound dayBound localeCompare
              deleteFiles getUploadedFiles st 1 H1 H2 H3 H4 H5 H6 H7 H8)
    as (_ & Ha & Hb & Hc & Hd).
  split; [exact Ha |]. split; [exact Hb |]. split; [exact Hc |].
  apply Hd. vm_compute. reflexivity.
Defined.

(** ** The metadata map *)

End GivenInputs.

(** X19: in the map built from [uploads-metadata.json] a stored file name
    leads to the last upload listed under that name (a later entry
    replaces an earlier one), and to nothing when no upload has it.  A
    request that fails, or is answered with a status that is not ok, or
    with a body that is not JSON, keeps the map the page had and shows no
    notification. *)
Theorem loadMetadata_last_wins (uploads : list upload) (name : string)
    (fetch : metadataOutcome) (st : state) :
  metadataMap uploads !! name
  = last (List.filter (λ u, String.eqb (stored_filename u) name) uploads)
  ∧ uploadsMetadata (loadMetadata (MetadataResponse true (inr (Some uploads))) st)
    = metadataMap uploads
  ∧ ((∀ json, fetch ≠ MetadataResponse true (inr json)) →
     uploadsMetadata (loadMetadata fetch st) = uploadsMetadata st
     ∧ toasts (loadMetadata fetch st) = toasts st
     ∧ isLoadingMetadata (loadMetadata fetch st) = false).
Proof.
  split; [| split].
  - unfold metadataMap.
    induction uploads as [| u uploads IH] using rev_ind; [done |].
    rewrite foldl_app, List.filter_app. cbn [foldl List.filter].
    destruct (String.eqb_spec (stored_filename u) name) as [<- | Hne].
    + by rewrite lookup_insert_eq, last_snoc.
    + rewrite lookup_insert_ne by done. by rewrite app_nil_r.
  - reflexivity.
  - intros Hfail. destruct fetch as [e | [] [e | json]]; try done.
    by destruct (Hfail json).
Qed.

Lemma loadMetadata_last_wins_witness :
  let fetch := MetadataRejected (mkError "Failed to fetch") in
  (∀ json, fetch ≠ MetadataResponse true (inr json))
  ∧ uploadsMetadata (loadMetadata fetch initialState)
    = uploadsMetadata initialState.
Proof.
  intros fetch.
  assert (H : ∀ json, fetch ≠ MetadataResponse true (inr json))
    by (intros json; discriminate).
  split; [exact H |].
  exact (proj1 (proj2 (proj2 (loadMetadata_last_wins [] "" fetch initialState))
                  H)).
Defined.

End UploadListFacts.

Module UploadDocumentSessionFacts.
Import JS JSFacts UploadDocument.

Section RuntimeFacts.

Context {caseMapping : CaseMapping}.

(** What [processFile] does to the cells other than the notifications. *)
Lemma processFile_cases (f : file) (st : state) :
  (accepted f
   ∧ processFile f st
     = pushToast (SuccessToast "File selected successfully!")
         (setSelectedFile (Some f) st))
  ∨ (¬ accepted f ∧ ∃ text, processFile f st = pushToast (ErrorToast text) st
                            ∧ text ≠ "Please select a file first.").
Proof.
  unfold processFile, accepted.
  destruct (decide (type f ∈ allowedTypes)) as [Ht | Ht];
    destruct (decide (fileExtension f ∈ allowedExtensions)) as [He | He];
    rewrite ?(bool_decide_eq_true_2 _ Ht), ?(bool_decide_eq_false_2 _ Ht),
      ?(bool_decide_eq_true_2 _ He), ?(bool_decide_eq_false_2 _ He);
    cbn [negb andb];
    try (destruct (Z.ltb_spec maxFileSize (size f));
         [right; split; [lia | eexists; split; [reflexivity | discriminate]]
         | left; split; [split; [tauto | lia] | reflexivity]]).
  right. split; [tauto |]. eexists. split; [reflexivity | discriminate].
Qed.

(** X20: in every state the page can reach, the selected file and the
    file being uploaded have both passed the checks of [processFile]
    (allowed type or extension, at most 50MB); [isUploading] is on exactly
    while an upload is in flight, so at most one is; and the message
    'Please select a file first.' has never been shown, the upload button
    being disabled without a file. *)
Theorem reachable_selected_file_accepted (s : session) :
  reachable s →
  (∀ f, selectedFile (page s) = Some f → accepted f)
  ∧ (∀ f, inFlight s = Some f → accepted f)
  ∧ (isUploading (page s) = true ↔ inFlight s ≠ None)
  ∧ ErrorToast "Please select a file first." ∉ toasts (page s).
Proof.
  assert (Hprocess : ∀ f st,
            (∀ g, selectedFile st = Some g → accepted g) →
            ErrorToast "Please select a file first." ∉ toasts st →
            (∀ g, selectedFile (processFile f st) = Some g → accepted g)
            ∧ isUploading (processFile f st) = isUploading st
            ∧ ErrorToast "Please select a file first."
                ∉ toasts (processFile f st)).
  { intros f st Hsel Htoast.
    destruct (processFile_cases f st) as [[Hf ->] | (_ & text & -> & Htext)];
      cbn [selectedFile isUploading toasts pushToast setSelectedFile].
    - split; [by intros g [= <-] |]. split; [done |].
      rewrite elem_of_app, list_elem_of_singleton. intros [? | [=]]. done.
    - split; [done |]. split; [done |].
      rewrite elem_of_app, list_elem_of_singleton. intros [? | [=]]; done. }
  induction 1 as [| s op s' _ IH Hstep].
  - cbn. split; [done |]. split; [done |]. split; [| set_solver].
    split; [done | by intros []].
  - destruct IH as (Hsel & Hfly & Hup & Htoast).
    destruct Hstep as [files s | s | s | s | files s | s Hfile | s Hfile Hidle
                      | progress s f Hf | outcome s f Hf];
      unfold handleDragEnter, handleDragLeave, handleDragOver;
      cbn [page inFlight selectedFile isUploading toasts setIsDragOver
           setUploadProgress].
    + destruct files as [| f files]; cbn [handleFileSelect]; [by auto |].
      destruct (Hprocess f (page s) Hsel Htoast) as (H1 & H2 & H3).
      rewrite H2. auto.
    + auto.
    + auto.
    + auto.
    + unfold handleDrop. cbv zeta.
      destruct files as [| f files]; [by auto |].
      destruct (Hprocess f (setIsDragOver false (page s)) Hsel Htoast)
        as (H1 & H2 & H3).
      rewrite H2. auto.
    + unfold removeFile. cbn [selectedFile setSelectedFile isUploading toasts].
      repeat (split; [done |]). done.
    + unfold handleUpload_send.
      destruct (selectedFile (page s)) as [f |] eqn:Ef; [| done].
      cbn [fst snd selectedFile isUploading toasts setUploadProgress
           setIsUploading].
      split; [by rewrite Ef |]. split; [exact Hsel |].
      split; [done | exact Htoast].
    + auto.
    + unfold handleUpload_settle.
      destruct outcome as [| error];
        cbn [selectedFile isUploading toasts setUploadProgress setIsUploading
             setSelectedFile pushToast];
        (split; [done || exact Hsel |]); (split; [done |]);
        (split; [split; [done | by intros []] |]);
        rewrite elem_of_app, list_elem_of_singleton; intros [? | [=]]; done.
Qed.

(** X21: nothing stops the user from choosing another file while an
    upload is in flight.  When the upload of [a] then succeeds, the page
    clears the selection, so the file [b] chosen meanwhile is dropped
    without ever being handed to [uploadFile]; when the upload fails, [b]
    stays selected. *)
Theorem upload_discards_newer_file (s : session) (a b : file)
    (outcome : uploadOutcome) :
  selectedFile (page s) = Some a → isUploading (page s) = false →
  accepted b →
  ∃ s1 s2 s3,
    step s Upload s1 ∧ inFlight s1 = Some a
    ∧ step s1 (Drop [b]) s2
    ∧ selectedFile (page s2) = Some b ∧ inFlight s2 = Some a
    ∧ step s2 (Settle outcome) s3
    ∧ inFlight s3 = None
    ∧ isUploading (page s3) = false
    ∧ selectedFile (page s3)
      = match outcome with Uploaded => None | UploadFailed _ => Some b end.
Proof.
  intros Ha Hidle Hb.
  eexists _, _, _. split; [apply step_upload; [by rewrite Ha | done] |].
  unfold handleUpload_send. rewrite Ha. cbn [fst snd inFlight page].
  split; [done |]. split; [apply step_drop |]. cbn [inFlight page].
  unfold handleDrop. cbv zeta.
  destruct (processFile_cases b
              (setIsDragOver false
                 (setUploadProgress 0 (setIsUploading true (page s)))))
    as [[_ ->] | [Hnb _]]; [| done].
  cbn [selectedFile pushToast setSelectedFile].
  split; [done |]. split; [done |].
  split; [by eapply step_settle |]. cbn [inFlight page].
  split; [done |]. by destruct outcome.
Qed.

End RuntimeFacts.

(** ** At concrete inputs, with the case mapping [sampleCaseMapping] *)

Section GivenInputs.

#[local] Existing Instance sampleCaseMapping.

Lemma reachable_selected_file_accepted_witness :
  let a := {| name := "Manual.PDF"; type := ""; size := 2048 |} in
  let s1 :=
    {| page := handleFileSelect [a] (page initialSession);
       inFlight := inFlight initialSession |} in
  let s2 :=
    {| page := (handleUpload_send (page s1)).2;
       inFlight := (handleUpload_send (page s1)).1 |} in
  reachable s2
  ∧ selectedFile (page s2) = Some a
  ∧ inFlight s2 = Some a
  ∧ accepted a
  ∧ isUploading (page s2) = true
  ∧ (ErrorToast "Please select a file first." ∉ toasts (page s2)).
Proof.
  intros a s1 s2.
  assert (Hs1 : reachable s1).
  { eapply reachable_step; [apply reachable_init | apply step_select]. }
  assert (Hsel1 : selectedFile (page s1) = Some a) by (by vm_compute).
  assert (Hs2 : reachable s2).
  { eapply reachable_step; [exact Hs1 |].
    apply step_upload; [by rewrite Hsel1 | by vm_compute]. }
  assert (Hsel2 : selectedFile (page s2) = Some a) by (by vm_compute).
  assert (Hfly2 : inFlight s2 = Some a) by (by vm_compute).
  destruct (reachable_selected_file_accepted s2 Hs2)
    as (Hsel & _ & Hup & Htoast).
  split; [exact Hs2 |]. split; [exact Hsel2 |]. split; [exact Hfly2 |].
  split; [exact (Hsel a Hsel2) |].
  split; [| exact Htoast].
  apply Hup. by rewrite Hfly2.
Defined.

Lemma upload_discards_newer_file_witness :
  let a := {| name := "a.pdf"; type := "application/pdf"; size := 1 |} in
  let b := {| name := "b.txt"; type := "text/plain"; size := 2 |} in
  let s := {| page := setSelectedFile (Some a) initialState; inFlight := None |} in
  selectedFile (page s) = Some a ∧ isUploading (page s) = false ∧ accepted b
  ∧ ∃ s3, selectedFile (page s3) = None ∧ inFlight s3 = None.
Proof.
  intros a b s.
  assert (H1 : selectedFile (page s) = Some a) by reflexivity.
  assert (H2 : isUploading (page s) = false) by reflexivity.
  assert (H3 : accepted b).
  { split; [left; apply list_elem_of_further, list_elem_of_here |].
    vm_compute. discriminate. }
  split; [exact H1 |]. split; [exact H2 |]. split; [exact H3 |].
  destruct (upload_discards_newer_file s a b Uploaded H1 H2 H3)
    as (s1 & s2 & s3 & _ & _ & _ & _ & _ & _ & Hfly & _ & Hsel).
  exists s3. split; [exact Hsel | exact Hfly].
Defined.

End GivenInputs.

End UploadDocumentSessionFacts.

Module UploadPageFacts.
Import JS JSFacts ListFacts UploadPage.

Section RuntimeFacts.

Context {caseMapping : CaseMapping}.

(** ** processFiles *)

Lemma sortFile_cases (acc : sorting) (f : file) :
  (valid f = true
   ∧ validFiles (sortFile acc f) = validFiles acc ++ [f]
   ∧ length (invalidFiles (sortFile acc f)) = length (invalidFiles acc)
   ∧ length (tooLargeFiles (sortFile acc f)) = length (tooLargeFiles acc))
  ∨ (valid f = false
     ∧ validFiles (sortFile acc f) = validFiles acc
     ∧ length (invalidFiles acc) ≤ length (invalidFiles (sortFile acc f))
     ∧ length (tooLargeFiles acc) ≤ length (tooLargeFiles (sortFile acc f))
     ∧ length (invalidFiles acc) + length (tooLargeFiles acc)
       < length (invalidFiles (sortFile acc f))
         + length (tooLargeFiles (sortFile acc f))).
Proof.
  unfold sortFile, valid.
  destruct (bool_decide (toLowerCase (type f) ∈ allowedTypes));
    cbn [negb andb].
  - destruct (maxFileSize <? size f)%Z; cbn [negb];
      cbn [validFiles invalidFiles tooLargeFiles]; rewrite ?length_app;
      cbn [length]; [right | left]; repeat split; lia.
  - cbn [validFiles invalidFiles tooLargeFiles]. rewrite ?length_app.
    cbn [length]. right. repeat split; lia.
Qed.

Lemma foldl_sortFile (files : list file) (acc : sorting) :
  validFiles (foldl sortFile acc files)
  = validFiles acc ++ List.filter valid files
  ∧ length (invalidFiles acc) ≤ length (invalidFiles (foldl sortFile acc files))
  ∧ length (tooLargeFiles acc) ≤ length (tooLargeFiles (foldl sortFile acc files))
  ∧ (length (invalidFiles (foldl sortFile acc files))
     + length (tooLargeFiles (foldl sortFile acc files))
     = length (invalidFiles acc) + length (tooLargeFiles acc)
     ↔ Forall (λ f, valid f = true) files).
Proof.
  revert acc. induction files as [| f files IH]; intros acc; cbn [foldl].
  - rewrite app_nil_r. split; [done |]. split; [done |]. split; [done |].
    split; [constructor | done].
  - destruct (IH (sortFile acc f)) as (Hv & Hi & Ht & Hiff).
    rewrite Hv. cbn [List.filter].
    destruct (sortFile_cases acc f)
      as [(Hf & -> & E1 & E2) | (Hf & -> & L1 & L2 & L3)]; rewrite Hf.
    + split; [by rewrite <- app_assoc |].
      split; [lia |]. split; [lia |].
      rewrite <- E1, <- E2, Hiff.
      split; [by constructor | by intros [_ ?]%Forall_cons].
    + split; [done |]. split; [lia |]. split; [lia |].
      split; [lia |]. intros [Hf' _]%Forall_cons. congruence.
Qed.

Lemma processFiles_selectedFiles (files : list file) (st : state) :
  selectedFiles (processFiles files st)
  = selectedFiles st ++ List.filter valid files.
Proof.
  unfold processFiles. cbv zeta.
  destruct (foldl_sortFile files
              {| validFiles := []; invalidFiles := []; tooLargeFiles := [] |})
    as (Hv & _).
  cbn [validFiles app] in Hv. rewrite Hv.
  set (sorted := foldl sortFile _ files). clearbody sorted.
  destruct (0 <? length (invalidFiles sorted))%nat,
    (0 <? length (tooLargeFiles sorted))%nat,
    (List.filter valid files) as [| f fs];
    cbn [length Nat.ltb Nat.leb selectedFiles pushToast setSelectedFiles];
    by rewrite ?app_nil_r.
Qed.

(** X22: [processFiles] appends, after the files already selected and in
    the order given, exactly the files whose lower-cased type is one of
    the four image types and whose size is at most 10MB (a file given
    twice is listed twice); it shows no message exactly when every file
    given is taken, and at most two messages otherwise. *)
Theorem processFiles_appends_valid (files : list file) (st : state) :
  selectedFiles (processFiles files st)
  = selectedFiles st ++ List.filter valid files
  ∧ (toasts (processFiles files st) = toasts st
     ↔ Forall (λ f, valid f = true) files)
  ∧ length (toasts (processFiles files st)) ≤ length (toasts st) + 2
  ∧ (∀ t, t ∈ toasts (processFiles files st) →
          t ∈ toasts st ∨ ∃ text, t = ErrorToast text).
Proof.
  unfold processFiles. cbv zeta.
  destruct (foldl_sortFile files
              {| validFiles := []; invalidFiles := []; tooLargeFiles := [] |})
    as (Hv & _ & _ & Hiff).
  cbn [validFiles invalidFiles tooLargeFiles app length] in Hv, Hiff.
  rewrite Hv. rewrite <- Hiff.
  set (sorted := foldl sortFile _ files) in *. clearbody sorted.
  destruct (invalidFiles sorted) as [| x xs], (tooLargeFiles sorted) as [| y ys],
    (List.filter valid files) as [| f fs];
    cbn [length Nat.ltb Nat.leb selectedFiles toasts pushToast setSelectedFiles];
    rewrite ?app_nil_r, ?length_app; cbn [length];
    (split; [reflexivity |]); (split; [| split; [lia |]]);
    try (split; [intros E; apply (f_equal length) in E;
                 rewrite ?length_app in E; cbn [length] in E; lia
                | intros ?; lia]);
    try (split; done);
    intros t Ht;
    repeat match type of Ht with
           | _ ∈ _ ++ _ => apply elem_of_app in Ht as [Ht | Ht]
           end;
    first [by left | right; apply list_elem_of_singleton in Ht; eauto].
Qed.

(** ** removeFile *)

Lemma filterWithIndex_all {A} (keep : nat → A → bool) (l : list A) :
  (∀ i x, keep i x = true) → filterWithIndex keep l = l.
Proof.
  unfold filterWithIndex. revert keep.
  induction l as [| x l IH]; intros keep Hkeep; [done |].
  cbn [imap omap list_omap]. rewrite Hkeep. cbn [id]. f_equal.
  apply (IH (keep ∘ S)). intros i y. apply Hkeep.
Qed.

Lemma filterWithIndex_delete {A} (i : nat) (l : list A) :
  filterWithIndex (λ index _, negb (index =? i)%nat) l = delete i l.
Proof.
  revert i. induction l as [| x l IH]; intros i; [by destruct i |].
  unfold filterWithIndex in *. cbn [imap omap list_omap].
  destruct i as [| i]; cbn [Nat.eqb negb id delete list_delete].
  - apply (filterWithIndex_all (λ index _, negb (S index =? 0)%nat)).
    done.
  - f_equal. apply (IH i).
Qed.

(** X23: the remove button of the [i]-th listed file takes exactly that
    file off the list and keeps the others in their order; an index
    beyond the list changes nothing. *)
Theorem removeFile_delete (i : nat) (st : state) :
  selectedFiles (removeFile i st) = delete i (selectedFiles st)
  ∧ (∀ j f, selectedFiles (removeFile i st) !! j = Some f
            ↔ selectedFiles st !! (if decide (j < i) then j else S j) = Some f)
  ∧ (length (selectedFiles st) ≤ i → removeFile i st = st).
Proof.
  unfold removeFile. cbn [selectedFiles setSelectedFiles].
  rewrite filterWithIndex_delete. split; [done |]. split.
  - intros j f. case_decide.
    + by rewrite list_lookup_delete_lt.
    + rewrite list_lookup_delete_ge by lia. done.
  - intros Hi. rewrite delete_take_drop, take_ge, drop_ge, app_nil_r by lia.
    by destruct st.
Qed.

Lemma removeFile_delete_witness :
  let f := {| name := "a.png"; type := "image/png"; size := 1 |} in
  let st := setSelectedFiles [f] initialState in
  length (selectedFiles st) ≤ 1 ∧ removeFile 1 st = st.
Proof.
  intros f st.
  assert (H : length (selectedFiles st) ≤ 1) by (cbn; lia).
  split; [exact H |].
  exact (proj2 (proj2 (removeFile_delete 1 st)) H).
Defined.

(** ** Dragging *)

(** X24: along a sequence of drag events as a browser delivers it
    (nothing is left or dropped on that was not entered), the drop zone
    is highlighted exactly while the pointer is inside it or one of its
    children: [isDragOver] holds exactly when [dragCounter] is positive,
    and [dragCounter] is the number of elements entered and not left. *)
Theorem drag_highlight (events : list dragEvent) (depth : nat) (st : state) :
  dragCounter st = Z.of_nat depth →
  (isDragOver st = true ↔ 0 < depth) →
  nested depth events = true →
  (0 ≤ dragCounter (foldl handleDragEvent st events))%Z
  ∧ (isDragOver (foldl handleDragEvent st events) = true
     ↔ (0 < dragCounter (foldl handleDragEvent st events))%Z).
Proof.
  revert depth st.
  induction events as [| e events IH]; intros depth st Hc Ho Hn; cbn [foldl].
  - rewrite Hc. split; [lia |]. rewrite Ho. lia.
  - destruct e as [| | | files]; cbn [nested handleDragEvent] in *.
    + apply (IH (S depth)); [| | done];
        unfold handleDragEnter;
        cbn [dragCounter isDragOver setIsDragOver setDragCounter].
      * lia.
      * split; [lia | done].
    + apply andb_true_iff in Hn as [Hd%Nat.ltb_lt Hn].
      apply (IH depth); [| | done];
        unfold handleDragOver;
        cbn [dragCounter isDragOver setIsDragOver setDragCounter]; [done |].
      split; [done | done].
    + destruct depth as [| depth]; [done |].
      apply (IH depth); [| | done]; unfold handleDragLeave; cbv zeta;
        destruct (Z.eqb_spec (dragCounter st - 1) 0);
        cbn [dragCounter isDragOver setIsDragOver setDragCounter]; try lia;
        first [rewrite Ho; split; lia | split; [done | lia]].
    + apply andb_true_iff in Hn as [_ Hn].
      assert (Hp : ∀ st0, dragCounter (processFiles files st0) = dragCounter st0
                          ∧ isDragOver (processFiles files st0) = isDragOver st0).
      { intros st0. unfold processFiles. cbv zeta.
        repeat match goal with
               | |- context [if ?b then _ else _] => destruct b
               end; done. }
      apply (IH 0%nat); [| | done]; unfold handleDrop; cbv zeta;
        destruct (length files =? 0)%nat;
        rewrite ?(proj1 (Hp _)), ?(proj2 (Hp _));
        cbn [dragCounter isDragOver setIsDragOver setDragCounter pushToast];
        try done; split; (done || lia).
Qed.

(** ** handleUpload *)

Section DetectionFacts.

Context {box : Type}.

#[local] Abbreviation detectionOutcome := (@detectionOutcome box).

(** X25: object detection after an upload is best effort.  The state
    [handleUpload] leaves does not depend on what the detection calls
    return or whether they fail; [getDetections] is called once for each
    uploaded file, in order, and [updateObjectsMetadata] exactly for the
    files whose detection returned boxes.  An upload that resolves clears
    the selection (without any message when the answer lists no file); a
    rejected one keeps it and shows the message picked for the error. *)
Theorem handleUpload_detection_best_effort
    (uploadImages : list file → uploadOutcome)
    (getDetections getDetections' : string → detectionOutcome)
    (updateObjectsMetadata updateObjectsMetadata' : string → list box → option exn)
    (st : state) :
  let run := handleUpload uploadImages getDetections updateObjectsMetadata st in
  run.1 = (handleUpload uploadImages getDetections' updateObjectsMetadata' st).1
  ∧ (selectedFiles st ≠ [] → isUploading st = false →
     isUploading run.1 = false
     ∧ match uploadImages (selectedFiles st) with
       | UploadResolved result_files =>
           selectedFiles run.1 = []
           ∧ omap (λ c, match c with
                        | GetDetections n => Some n
                        | UpdateObjectsMetadata _ _ => None
                        end) run.2
             = saved_filename <$> default [] result_files
           ∧ (∀ n boxes,
                UpdateObjectsMetadata n boxes ∈ run.2
                ↔ n ∈ saved_filename <$> default [] result_files
                  ∧ getDetections n = DetectionsResolved (Some boxes))
           ∧ (default [] result_files = [] → toasts run.1 = toasts st)
       | UploadRejected error =>
           selectedFiles run.1 = selectedFiles st
           ∧ run.2 = []
           ∧ toasts run.1 = toasts st ++ [ErrorToast (errorMessage error)]
       end).
Proof.
  assert (Hcalls : ∀ files,
            omap (λ c, match c with
                       | GetDetections n => Some n
                       | UpdateObjectsMetadata _ _ => None
                       end)
              (detectObjects getDetections updateObjectsMetadata files)
            = saved_filename <$> files
            ∧ ∀ n boxes,
                UpdateObjectsMetadata n boxes
                  ∈ detectObjects getDetections updateObjectsMetadata files
                ↔ n ∈ saved_filename <$> files
                  ∧ getDetections n = DetectionsResolved (Some boxes)).
  { induction files as [| f files [IH1 IH2]].
    - split; [done |]. intros n boxes. cbn. split.
      + by intros ?%elem_of_nil.
      + by intros [?%elem_of_nil _].
    - cbn [detectObjects fmap list_fmap]. split.
      + rewrite omap_app, IH1.
        destruct (getDetections (saved_filename f)) as [e | [bs |]];
          [| destruct (updateObjectsMetadata _ bs) |]; reflexivity.
      + intros n boxes. rewrite elem_of_app, IH2, elem_of_cons.
        destruct (getDetections (saved_filename f)) as [e | [bs |]] eqn:E;
          [| destruct (updateObjectsMetadata _ bs) |];
          rewrite ?elem_of_cons, ?list_elem_of_singleton; split;
          try (intros [[[=] | [=]] | ?]; subst; split; eauto; fail);
          try (intros [[[=] | [[=] | []%elem_of_nil]] | [? ?]]; subst;
               split; eauto; fail);
          try (intros [[[=] | []%elem_of_nil] | [? ?]]; split; eauto; fail);
          try (intros [[-> | ?] Hn]; [rewrite E in Hn; injection Hn as ->
                                     | ]; eauto; fail);
          try (intros [[-> | ?] Hn]; [congruence | eauto]; fail). }
  cbv zeta. unfold handleUpload. split.
  - destruct (_ || _); [done |].
    destruct (uploadImages _) as [error | [[| f files] |]]; reflexivity.
  - intros Hsel Hidle. destruct (selectedFiles st) as [| f0 fs] eqn:Es; [done |].
    cbn [length Nat.eqb orb]. rewrite Hidle.
    cbn [selectedFiles setIsUploading]. rewrite Es.
    destruct (uploadImages (f0 :: fs)) as [error | [[| f files] |]];
      cbn [fst snd isUploading selectedFiles toasts setIsUploading
           setSelectedFiles pushToast default].
    + rewrite Es. done.
    + split; [done |]. split; [done |]. split; [done |]. split; [| done].
      intros n boxes. split; [by intros ?%elem_of_nil | by intros [?%elem_of_nil _]].
    + destruct (Hcalls (f :: files)) as [H1 H2].
      split; [done |]. split; [done |]. split; [exact H1 |].
      split; [exact H2 | done].
    + split; [done |]. split; [done |]. split; [done |]. split; [| done].
      intros n boxes. split; [by intros ?%elem_of_nil | by intros [?%elem_of_nil _]].
Qed.

(** X26: in every state the page can reach, each selected file has passed
    the checks of [processFiles]: its lower-cased type is one of the four
    image types and it is not larger than 10MB.  Only such files are ever
    handed to [uploadImages]. *)
Theorem reachable_selected_valid (st : state) :
  reachable (box := box) st →
  Forall (λ f, toLowerCase (type f) ∈ allowedTypes
               ∧ (size f ≤ maxFileSize)%Z) (selectedFiles st).
Proof.
  assert (Hvalid : ∀ f, valid f = true →
            toLowerCase (type f) ∈ allowedTypes ∧ (size f ≤ maxFileSize)%Z).
  { intros f [H1 H2]%andb_true_iff. apply bool_decide_eq_true in H1.
    split; [done |].
    apply negb_true_iff, Z.ltb_ge in H2. done. }
  assert (Hprocess : ∀ files st0,
            Forall (λ f, toLowerCase (type f) ∈ allowedTypes
                         ∧ (size f ≤ maxFileSize)%Z) (selectedFiles st0) →
            Forall (λ f, toLowerCase (type f) ∈ allowedTypes
                         ∧ (size f ≤ maxFileSize)%Z)
              (selectedFiles (processFiles files st0))).
  { intros files st0 H0.
    rewrite processFiles_selectedFiles.
    apply Forall_app. split; [done |].
    apply Forall_forall. intros f [_ Hf]%elem_of_List_filter. by apply Hvalid. }
  unfold reachable. revert st. apply rtc_ind_r; [constructor |].
  intros st st' _ Hstep IH.
  destruct Hstep as [files st _ | e st | i st _ | st _ | up gd uom st].
  - by apply Hprocess.
  - destruct e as [| | | files]; cbn [handleDragEvent].
    + exact IH.
    + exact IH.
    + unfold handleDragLeave. cbv zeta. by destruct (_ =? 0)%Z.
    + unfold handleDrop. cbv zeta.
      destruct (length files =? 0)%nat; [done |]. by apply Hprocess.
  - unfold removeFile. cbn [selectedFiles setSelectedFiles].
    rewrite filterWithIndex_delete.
    apply Forall_forall. intros f Hf%list_elem_of_delete_inv.
    by apply (proj1 (Forall_forall _ _) IH).
  - constructor.
  - unfold handleUpload.
    destruct (_ || _); [done |].
    destruct (up _) as [error | [[| f files] |]];
      cbn [fst selectedFiles setIsUploading setSelectedFiles pushToast];
      done || constructor.
Qed.

End DetectionFacts.

End RuntimeFacts.

(** ** At concrete inputs, with the case mapping [sampleCaseMapping] *)

Section GivenInputs.

#[local] Existing Instance sampleCaseMapping.

Lemma drag_highlight_witness :
  let events := [DragEnter; DragEnter; DragLeave; DragOver; DragLeave] in
  dragCounter initialState = Z.of_nat 0
  ∧ (isDragOver initialState = true ↔ 0 < 0)
  ∧ nested 0 events = true
  ∧ (isDragOver (foldl handleDragEvent initialState events) = true
     ↔ (0 < dragCounter (foldl handleDragEvent initialState events))%Z).
Proof.
  intros events.
  assert (H1 : dragCounter initialState = Z.of_nat 0) by reflexivity.
  assert (H2 : isDragOver initialState = true ↔ 0 < 0)
    by (split; [discriminate | lia]).
  assert (H3 : nested 0 events = true) by reflexivity.
  split; [exact H1 |]. split; [exact H2 |]. split; [exact H3 |].
  exact (proj2 (drag_highlight events 0 initialState H1 H2 H3)).
Defined.

Lemma handleUpload_detection_best_effort_witness :
  let f := {| name := "a.png"; type := "image/png"; size := 1 |} in
  let st := setSelectedFiles [f] initialState in
  let uploadImages := λ _ : list file,
    UploadResolved (Some [ {| saved_filename := "1_a.png" |} ]) in
  let getDetections := λ _ : string, DetectionsResolved (Some [7%nat]) in
  let updateObjectsMetadata := λ (_ : string) (_ : list nat),
    Some (mkError "offline") in
  let run := handleUpload uploadImages getDetections updateObjectsMetadata st in
  selectedFiles st ≠ [] ∧ isUploading st = false
  ∧ isUploading run.1 = false ∧ selectedFiles run.1 = [].
Proof.
  intros f st uploadImages getDetections updateObjectsMetadata run.
  assert (H1 : selectedFiles st ≠ []) by discriminate.
  assert (H2 : isUploading st = false) by reflexivity.
  split; [exact H1 |]. split; [exact H2 |].
  destruct (proj2 (handleUpload_detection_best_effort uploadImages
                     getDetections getDetections
                     updateObjectsMetadata updateObjectsMetadata st) H1 H2)
    as (Ha & Hb & _).
  split; [exact Ha | exact Hb].
Defined.

Lemma reachable_selected_valid_witness :
  let f := {| name := "a.PNG"; type := "IMAGE/PNG"; size := 1 |} in
  let st := handleFileSelect [f] initialState in
  reachable (box := nat) st
  ∧ Forall (λ f, toLowerCase (type f) ∈ allowedTypes
                 ∧ (size f ≤ maxFileSize)%Z) (selectedFiles st).
Proof.
  intros f st.
  assert (H : reachable (box := nat) st)
    by (apply rtc_once, step_handleFileSelect; reflexivity).
  split; [exact H |].
  exact (reachable_selected_valid st H).
Defined.

End GivenInputs.

End UploadPageFacts.

Module UploadKnowledgeFacts.
Import JS JSFacts UploadKnowledge.

(** The answer of the backend is used only when the response is ok, its
    body is JSON and [success] is truthy. *)
Lemma callBackend_inr (fetch : fetchOutcome) (r : uploadResult) :
  callBackend fetch = inr r
  ↔ ∃ status statusText contentType b,
      fetch = Response true status statusText contentType (inr b)
      ∧ success b = true
      ∧ r = {| result_records_processed := records_processed b;
               result_database_table := database_table b |}.
Proof.
  split.
  - destruct fetch as [e | [] status statusText ct [e | b]]; cbn [callBackend];
      try discriminate.
    + destruct (success b) eqn:Es; [| discriminate].
      intros [= <-]. by exists status, statusText, ct, b.
    + destruct (match ct with Some _ => _ | None => _ end); discriminate.
    + destruct (match ct with Some _ => _ | None => _ end); [| discriminate].
      destruct (_ && _); discriminate.
  - intros (status & statusText & ct & b & -> & Hs & ->).
    cbn [callBackend]. by rewrite Hs.
Qed.

Lemma progressTick_iter (n : nat) :
  Nat.iter n progressTick 0%Z = Z.min 90 (10 * Z.of_nat n).
Proof.
  induction n as [| n IH]; [done |].
  rewrite Nat.iter_succ, IH. unfold progressTick.
  destruct (Z.leb_spec 90 (Z.min 90 (10 * Z.of_nat n))); lia.
Qed.

(** X27: once a file and a system are chosen, [handleUpload] cannot fail
    in the eyes of the user.  Whatever the backend does, the run ends with
    a success message and the form reset; unless the response is ok, JSON
    and flagged successful, the message reports made-up figures:
    [max(10, floor(size / 100))] records and the table [Machine_Tracking]
    for KOMTRAX and [InspectionData] for any other system.  Meanwhile the
    progress bar climbs in steps of 10 and stops at 90. *)
Theorem handleUpload_masks_failures (fetch : fetchOutcome) (ticks : nat)
    (st : state) (f : file) :
  selectedFile st = Some f → selectedSystem st ≠ "" →
  let st' := handleUpload fetch ticks st in
  (∃ text, toasts st' = toasts st ++ [SuccessToast text])
  ∧ selectedFile st' = None ∧ selectedSystem st' = ""
  ∧ isUploading st' = false ∧ uploadProgress st' = 0%Z
  ∧ ((∀ status statusText contentType b,
        fetch = Response true status statusText contentType (inr b) →
        success b = false) →
     toasts st'
     = toasts st
       ++ [SuccessToast
             ("Knowledge file uploaded successfully! "
              +:+ stringOfZ (Z.max 10 (size f / 100))
              +:+ " records processed to "
              +:+ (if String.eqb (selectedSystem st) "KOMTRAX"
                   then "Machine_Tracking" else "InspectionData")
              +:+ " table.")])
  ∧ (∀ n, Nat.iter n progressTick 0%Z = Z.min 90 (10 * Z.of_nat n)).
Proof.
  intros Hf Hs st'. unfold st', handleUpload. rewrite Hf.
  destruct (String.eqb_spec (selectedSystem st) "") as [| _]; [done |].
  cbv zeta.
  cbn [selectedFile selectedSystem isUploading uploadProgress toasts
       setUploadProgress setIsUploading setSelectedFile setSelectedSystem
       pushToast].
  split; [by eexists |]. do 4 (split; [done |]).
  split; [| apply progressTick_iter].
  intros Hfail. destruct (callBackend fetch) as [e | r] eqn:E; [done |].
  apply callBackend_inr in E as (status & statusText & ct & b & -> & Hb & _).
  by rewrite (Hfail _ _ _ _ eq_refl) in Hb.
Qed.

Lemma handleUpload_masks_failures_witness :
  let f := {| name := "machines.csv"; type := "text/csv"; size := 2500 |} in
  let st := setSelectedSystem "Expected Lifetime"
              (setSelectedFile (Some f) initialState) in
  let fetch := FetchRejected (mkError "Failed to fetch") in
  selectedFile st = Some f ∧ selectedSystem st ≠ ""
  ∧ toasts (handleUpload fetch 9 st)
    = [SuccessToast
         "Knowledge file uploaded successfully! 25 records processed to InspectionData table."].
Proof.
  intros f st fetch.
  assert (H1 : selectedFile st = Some f) by reflexivity.
  assert (H2 : selectedSystem st ≠ "") by discriminate.
  split; [exact H1 |]. split; [exact H2 |].
  destruct (handleUpload_masks_failures fetch 9 st f H1 H2)
    as (_ & _ & _ & _ & _ & Hsim & _).
  rewrite Hsim; [reflexivity | discriminate].
Defined.

End UploadKnowledgeFacts.

Module ChatAskDialogueFacts.
Import JS JSFacts ChatAsk.

Lemma handleSubmit_send_inv (st st' : state) (call : pendingCall) :
  handleSubmit_send st = Some (call, st') →
  trim (currentInput st) ≠ ""
  ∧ isLoading st = false
  ∧ messages st' = messages st ++ [userMessage (currentInput st)]
  ∧ isLoading st' = true
  ∧ error st' = None.
Proof.
  unfold handleSubmit_send. case_bool_decide as Hin; [done |].
  destruct (isLoading st) eqn:Hl; [done |]. by intros [= <- <-].
Qed.

Lemma lookup_snoc_inv {A} (l : list A) (x m : A) (i : nat) :
  (l ++ [x]) !! i = Some m → l !! i = Some m ∨ (i = length l ∧ m = x).
Proof.
  intros [Hi | [Hi Hm]]%lookup_app_Some; [by left | right].
  destruct (i - length l) as [| k] eqn:E; [| done].
  injection Hm as <-. split; [lia | done].
Qed.

(** X28: in every state the chat can reach, the log is a dialogue:
    questions and replies alternate, starting with a question (the
    messages at even positions have the role 'user', those at odd
    positions 'assistant'); every question is the trimmed, non-blank text
    the user submitted; and the log ends with a question exactly while a
    request is loading, so every question gets one reply, be it the
    answer or the apology. *)
Theorem reachable_dialogue (s : session) :
  reachable s →
  (∀ i m, messages (page s) !! i = Some m →
     role m = if Nat.even i then "user" else "assistant")
  ∧ (∀ i m, messages (page s) !! i = Some m → Nat.even i = true →
       content m ≠ "" ∧ ∃ typed, m = userMessage typed)
  ∧ Nat.even (length (messages (page s))) = negb (isLoading (page s)).
Proof.
  intros Hr. pose proof (ChatAskFacts.reachable_consistent s Hr) as Hcons.
  induction Hr as [| s op s' Hr IH Hstep].
  - split; [done |]. split; done.
  - specialize (IH (ChatAskFacts.reachable_consistent s Hr)).
    destruct IH as (Hrole & Huser & Hpar).
    pose proof (ChatAskFacts.reachable_consistent s Hr) as Hs.
    destruct Hstep as
      [s Hsend | s call st' Hsend | s i call outcome Hi | s v | s b | s Hidle];
      cbn [page inFlight].
    + done.
    + apply handleSubmit_send_inv in Hsend as (Hin & Hidle & Hm & Hload & _).
      rewrite Hidle in Hpar. cbn [negb] in Hpar.
      rewrite Hm, Hload. split; [| split].
      * intros i m Hi. apply lookup_snoc_inv in Hi as [Hi | [-> ->]];
          [exact (Hrole i m Hi) |].
        by rewrite Hpar.
      * intros i m Hi Hev. apply lookup_snoc_inv in Hi as [Hi | [-> ->]];
          [exact (Huser i m Hi Hev) |].
        split; [done | by eexists].
      * rewrite length_app. cbn [length]. rewrite Nat.add_1_r, Nat.even_succ.
        rewrite <- Nat.negb_even, Hpar. done.
    + destruct Hs as [[_ Hnone] | (Hl & call' & Hone & Hcall)];
        [by rewrite Hnone in Hi |].
      rewrite Hone in Hi. destruct i as [| i]; [| done].
      injection Hi as <-.
      rewrite Hl in Hpar. cbn [negb] in Hpar.
      assert (Hm : ∃ bot, role bot = "assistant"
                ∧ messages (handleSubmit_settle call' outcome (page s))
                  = messages (page s) ++ [bot]
                ∧ isLoading (handleSubmit_settle call' outcome (page s)) = false).
      { unfold handleSubmit_settle. rewrite Hcall.
        destruct outcome as [r | err]; [destruct (context_summary r) |];
          eexists; (split; [| split; reflexivity]); reflexivity. }
      destruct Hm as (bot & Hbot & -> & ->). split; [| split].
      * intros i m Hi. apply lookup_snoc_inv in Hi as [Hi | [-> ->]];
          [exact (Hrole i m Hi) |].
        by rewrite Hpar.
      * intros i m Hi Hev. apply lookup_snoc_inv in Hi as [Hi | [-> ->]];
          [exact (Huser i m Hi Hev) |].
        congruence.
      * rewrite length_app. cbn [length]. rewrite Nat.add_1_r, Nat.even_succ.
        rewrite <- Nat.negb_even, Hpar. done.
    + done.
    + done.
    + unfold clearHistory. cbn. rewrite Hidle. split; [done |]. split; done.
Qed.

Lemma reachable_dialogue_witness :
  reachable afterFailedQuestion
  ∧ Nat.even (length (messages (page afterFailedQuestion)))
    = negb (isLoading (page afterFailedQuestion)).
Proof.
  assert (H : reachable afterFailedQuestion)
    by apply ChatAskFacts.afterFailedQuestion_reachable.
  split; [exact H |].
  exact (proj2 (proj2 (reachable_dialogue afterFailedQuestion H))).
Defined.

(** X29: the error banner is only ever set to 'Failed to get response.
    Please try again.', and while it is set nothing is loading and the
    last message of the log is the apology that was appended for the
    failed request: the next accepted question and the clearing of the
    history both remove the banner. *)
Theorem error_banner_follows_apology (s : session) :
  reachable s →
  (∀ e, error (page s) = Some e →
     e = "Failed to get response. Please try again."
     ∧ isLoading (page s) = false
     ∧ last (messages (page s))
       = Some {| role := "assistant";
                 content := "Sorry, I encountered an error. Please try asking your question again.";
                 contextInfo := None |})
  ∧ (∀ call st', handleSubmit_send (page s) = Some (call, st') →
                 error st' = None)
  ∧ error (clearHistory (page s)) = None.
Proof.
  intros Hr. split; [| split].
  - induction Hr as [| s op s' Hr IH Hstep]; [done |].
    pose proof (ChatAskFacts.reachable_consistent s Hr) as Hs.
    destruct Hstep as
      [s Hsend | s call st' Hsend | s i call outcome Hi | s v | s b | s Hidle];
      cbn [page inFlight].
    + exact IH.
    + apply handleSubmit_send_inv in Hsend as (_ & _ & _ & _ & He).
      intros e. by rewrite He.
    + destruct Hs as [[_ Hnone] | (Hl & call' & Hone & Hcall)];
        [by rewrite Hnone in Hi |].
      assert (Hnone : error (page s) = None).
      { destruct (error (page s)) as [e |] eqn:Ee; [| done].
        destruct (IH e eq_refl) as (_ & Hidle & _). congruence. }
      unfold handleSubmit_settle.
      destruct outcome as [r | err]; [destruct (context_summary r) |];
        cbn [error messages isLoading setIsLoading setMessages setError
             setContextInfo]; intros e; rewrite ?Hnone; try done.
      intros [= <-]. split; [done |]. split; [done |]. apply last_snoc.
    + exact IH.
    + exact IH.
    + intros e. unfold clearHistory. by cbn.
  - intros call st' Hsend.
    by apply handleSubmit_send_inv in Hsend as (_ & _ & _ & _ & He).
  - reflexivity.
Qed.

Lemma error_banner_follows_apology_witness :
  reachable afterFailedQuestion
  ∧ error (page afterFailedQuestion)
    = Some "Failed to get response. Please try again."
  ∧ isLoading (page afterFailedQuestion) = false.
Proof.
  assert (H : reachable afterFailedQuestion)
    by apply ChatAskFacts.afterFailedQuestion_reachable.
  assert (He : error (page afterFailedQuestion)
               = Some "Failed to get response. Please try again.")
    by reflexivity.
  split; [exact H |]. split; [exact He |].
  exact (proj1 (proj2 (proj1 (error_banner_follows_apology _ H) _ He))).
Defined.

End ChatAskDialogueFacts.
